(** * Rotorflight mixer engine (src/main/flight/mixer.c)

    A shallow embedding of the mixer: the input registry, the swash
    compensator, the motorized tail lineariser, the rule engine and the
    saturation tracker, with C [float] modelled as IEEE-754 binary32. *)

From Stdlib Require Import ZArith Bool Lia List.
From Stdlib Require Import Floats.SpecFloat.
From stdpp Require Import base list.

Local Open Scope Z_scope.

(** ** C [float]: IEEE-754 binary32, round to nearest even *)

Module F32.

Definition prec : Z := 24.
Definition emax : Z := 128.

Definition float := spec_float.

#[export] Instance float_inhabited : Inhabited float := populate (S754_zero false).

(** Integer to [float] conversion (the usual arithmetic conversion). *)
Definition of_int (z : Z) : float := binary_normalize prec emax z 0 false.

Definition add : float -> float -> float := SFadd prec emax.
Definition sub : float -> float -> float := SFsub prec emax.
Definition mul : float -> float -> float := SFmul prec emax.
Definition div : float -> float -> float := SFdiv prec emax.
Definition sqrtf : float -> float := SFsqrt prec emax.
Definition fabsf : float -> float := SFabs.
Definition neg : float -> float := SFopp.

(** C relational operators; every comparison with a NaN is false, and so
    [!=] with a NaN is true. *)
Definition lt (a b : float) : bool := SFltb a b.
Definition gt (a b : float) : bool := SFltb b a.
Definition le (a b : float) : bool := SFleb a b.
Definition eq (a b : float) : bool := SFeqb a b.
Definition ne (a b : float) : bool := negb (SFeqb a b).

Definition is_nan (a : float) : bool :=
  match a with S754_nan => true | _ => false end.

Definition signbit (a : float) : bool :=
  match a with
  | S754_zero s | S754_infinity s | S754_finite s _ _ => s
  | S754_nan => false
  end.

(** [fmaxf]: a NaN argument is treated as missing data. *)
Definition fmaxf (a b : float) : float :=
  if is_nan a then b else if is_nan b then a else if lt a b then b else a.

(** [copysignf x y]: the magnitude of [x] with the sign of [y]. *)
Definition copysignf (x y : float) : float :=
  if signbit y then neg (fabsf x) else fabsf x.

(** A decimal literal [n / d] with the [f] suffix, correctly rounded. *)
Definition lit (n d : positive) : float :=
  div (S754_finite false n 0) (S754_finite false d 0).

Definition zero : float := S754_zero false.
Definition one : float := of_int 1.

(** [lo <= v <= hi] in the order of the floats. *)
Definition within (lo hi v : float) : bool := le lo v && le v hi.

End F32.

Import F32.

(** ** Fixed-width integers *)

Definition to_uint8 (z : Z) : Z := z mod 2 ^ 8.
Definition to_uint16 (z : Z) : Z := z mod 2 ^ 16.
Definition to_uint32 (z : Z) : Z := z mod 2 ^ 32.
Definition to_int8 (z : Z) : Z := (z + 2 ^ 7) mod 2 ^ 8 - 2 ^ 7.
Definition to_int16 (z : Z) : Z := (z + 2 ^ 15) mod 2 ^ 16 - 2 ^ 15.

(** [BIT(x)] is [(1 << (x))], here already converted to [uint32_t], the
    type of the bitmaps it is combined with. *)
Definition BIT (x : nat) : Z := to_uint32 (Z.shiftl 1 (Z.of_nat x)).

(** [constrain] of common/maths.h on [int]. *)
Definition constrain (amt low high : Z) : Z :=
  if amt <? low then low else if amt >? high then high else amt.

(** [P] on every integer from 0 up to [n - 1]. *)
Fixpoint forall_below (n : nat) (P : Z -> bool) : bool :=
  match n with
  | O => true
  | S k => P (Z.of_nat k) && forall_below k P
  end.

(** [f] does not decrease along [prev, f z, f (z + 1), ...], [n] steps. *)
Fixpoint nondecreasing_from (f : Z -> float) (n : nat) (z : Z) (prev : float) : bool :=
  match n with
  | O => true
  | S k => let cur := f z in le prev cur && nondecreasing_from f k (z + 1) cur
  end.

(** ** What flight/mixer.h and common/maths.h declare

    The header is not part of the sources at hand. Its constants, the two
    enumerations the mixer switches on, and the trigonometric helpers are
    taken as parameters of the whole development. *)

Class Header := {
  MIXER_INPUT_COUNT : nat;
  MIXER_OUTPUT_COUNT : nat;
  MIXER_RULE_COUNT : nat;
  MIXER_INPUT_MIN : Z;
  MIXER_INPUT_MAX : Z;
  MIXER_WEIGHT_MIN : Z;
  MIXER_WEIGHT_MAX : Z;
  MIXER_OVERRIDE_MIN : Z;
  MIXER_OVERRIDE_MAX : Z;
  MIXER_OVERRIDE_OFF : Z;
  MIXER_SATURATION_TIME : Z;
  MIXER_OP_SET : Z;
  MIXER_OP_ADD : Z;
  MIXER_OP_MUL : Z;
  MIXER_OP_COUNT : Z;
  MIXER_IN_STABILIZED_ROLL : nat;
  MIXER_IN_STABILIZED_PITCH : nat;
  MIXER_IN_STABILIZED_YAW : nat;
  MIXER_IN_STABILIZED_THROTTLE : nat;
  TAIL_MODE_MOTORIZED : Z;
  TAIL_MODE_BIDIRECTIONAL : Z;
  DECIDEGREES_TO_RADIANS : Z -> float;
  sin_approx : float -> float;
  cos_approx : float -> float;
}.

(** ** Data model *)

(** [mixerInput_t]: rate and limits of one input, in thousandths. *)
Record mixerInput_t := {
  rate : Z;
  min : Z;
  max : Z;
}.

(** [mixerRule_t]: one mapping rule. *)
Record mixerRule_t := {
  mode : Z;
  oper : Z;
  input : Z;
  output : Z;
  offset : Z;
  weight : Z;
}.

(** [mixerConfig_t]. *)
Record mixerConfig_t := {
  main_rotor_dir : Z;
  tail_rotor_mode : Z;
  tail_motor_idle : Z;
  swash_ring : Z;
  swash_phase : Z;
}.

#[export] Instance mixerInput_inhabited : Inhabited mixerInput_t :=
  populate {| rate := 0; min := 0; max := 0 |}.

#[export] Instance mixerRule_inhabited : Inhabited mixerRule_t :=
  populate {| mode := 0; oper := 0; input := 0; output := 0; offset := 0; weight := 0 |}.

(** The parameter groups the mixer reads: [mixerInputs(i)],
    [mixerRules(i)] and [mixerConfig()]. *)
Record config := {
  mixerInputs : list mixerInput_t;
  mixerRules : list mixerRule_t;
  mixerConfig : mixerConfig_t;
}.

(** What the rest of the firmware answers during a call:
    [ARMING_FLAG(ARMED)], [isSpooledUp()] and [flightModeFlags]. *)
Record env := {
  armed : bool;
  spooledUp : bool;
  flightModeFlags : Z;
}.

(** The file-scope variables of mixer.c. *)
Record mixer := {
  rules : list mixerRule_t;
  mixInput : list float;
  mixOutput : list float;
  mixOverride : list Z;
  mixOutputMap : list Z;
  mixSaturated : list Z;
  cyclicTotal : float;
  cyclicLimit : float;
  tailMotorIdle : float;
  tailMotorDirection : Z;
  phaseSin : float;
  phaseCos : float;
}.

Definition with_rules (v : list mixerRule_t) (st : mixer) : mixer :=
  {| rules := v; mixInput := mixInput st; mixOutput := mixOutput st;
     mixOverride := mixOverride st; mixOutputMap := mixOutputMap st;
     mixSaturated := mixSaturated st; cyclicTotal := cyclicTotal st;
     cyclicLimit := cyclicLimit st; tailMotorIdle := tailMotorIdle st;
     tailMotorDirection := tailMotorDirection st;
     phaseSin := phaseSin st; phaseCos := phaseCos st |}.

Definition with_mixInput (v : list float) (st : mixer) : mixer :=
  {| rules := rules st; mixInput := v; mixOutput := mixOutput st;
     mixOverride := mixOverride st; mixOutputMap := mixOutputMap st;
     mixSaturated := mixSaturated st; cyclicTotal := cyclicTotal st;
     cyclicLimit := cyclicLimit st; tailMotorIdle := tailMotorIdle st;
     tailMotorDirection := tailMotorDirection st;
     phaseSin := phaseSin st; phaseCos := phaseCos st |}.

Definition with_mixOutput (v : list float) (st : mixer) : mixer :=
  {| rules := rules st; mixInput := mixInput st; mixOutput := v;
     mixOverride := mixOverride st; mixOutputMap := mixOutputMap st;
     mixSaturated := mixSaturated st; cyclicTotal := cyclicTotal st;
     cyclicLimit := cyclicLimit st; tailMotorIdle := tailMotorIdle st;
     tailMotorDirection := tailMotorDirection st;
     phaseSin := phaseSin st; phaseCos := phaseCos st |}.

Definition with_mixOverride (v : list Z) (st : mixer) : mixer :=
  {| rules := rules st; mixInput := mixInput st; mixOutput := mixOutput st;
     mixOverride := v; mixOutputMap := mixOutputMap st;
     mixSaturated := mixSaturated st; cyclicTotal := cyclicTotal st;
     cyclicLimit := cyclicLimit st; tailMotorIdle := tailMotorIdle st;
     tailMotorDirection := tailMotorDirection st;
     phaseSin := phaseSin st; phaseCos := phaseCos st |}.

Definition with_mixOutputMap (v : list Z) (st : mixer) : mixer :=
  {| rules := rules st; mixInput := mixInput st; mixOutput := mixOutput st;
     mixOverride := mixOverride st; mixOutputMap := v;
     mixSaturated := mixSaturated st; cyclicTotal := cyclicTotal st;
     cyclicLimit := cyclicLimit st; tailMotorIdle := tailMotorIdle st;
     tailMotorDirection := tailMotorDirection st;
     phaseSin := phaseSin st; phaseCos := phaseCos st |}.

Definition with_mixSaturated (v : list Z) (st : mixer) : mixer :=
  {| rules := rules st; mixInput := mixInput st; mixOutput := mixOutput st;
     mixOverride := mixOverride st; mixOutputMap := mixOutputMap st;
     mixSaturated := v; cyclicTotal := cyclicTotal st;
     cyclicLimit := cyclicLimit st; tailMotorIdle := tailMotorIdle st;
     tailMotorDirection := tailMotorDirection st;
     phaseSin := phaseSin st; phaseCos := phaseCos st |}.

Definition with_cyclicTotal (v : float) (st : mixer) : mixer :=
  {| rules := rules st; mixInput := mixInput st; mixOutput := mixOutput st;
     mixOverride := mixOverride st; mixOutputMap := mixOutputMap st;
     mixSaturated := mixSaturated st; cyclicTotal := v;
     cyclicLimit := cyclicLimit st; tailMotorIdle := tailMotorIdle st;
     tailMotorDirection := tailMotorDirection st;
     phaseSin := phaseSin st; phaseCos := phaseCos st |}.

Definition with_cyclicLimit (v : float) (st : mixer) : mixer :=
  {| rules := rules st; mixInput := mixInput st; mixOutput := mixOutput st;
     mixOverride := mixOverride st; mixOutputMap := mixOutputMap st;
     mixSaturated := mixSaturated st; cyclicTotal := cyclicTotal st;
     cyclicLimit := v; tailMotorIdle := tailMotorIdle st;
     tailMotorDirection := tailMotorDirection st;
     phaseSin := phaseSin st; phaseCos := phaseCos st |}.

Definition with_tailMotorIdle (v : float) (st : mixer) : mixer :=
  {| rules := rules st; mixInput := mixInput st; mixOutput := mixOutput st;
     mixOverride := mixOverride st; mixOutputMap := mixOutputMap st;
     mixSaturated := mixSaturated st; cyclicTotal := cyclicTotal st;
     cyclicLimit := cyclicLimit st; tailMotorIdle := v;
     tailMotorDirection := tailMotorDirection st;
     phaseSin := phaseSin st; phaseCos := phaseCos st |}.

Definition with_tailMotorDirection (v : Z) (st : mixer) : mixer :=
  {| rules := rules st; mixInput := mixInput st; mixOutput := mixOutput st;
     mixOverride := mixOverride st; mixOutputMap := mixOutputMap st;
     mixSaturated := mixSaturated st; cyclicTotal := cyclicTotal st;
     cyclicLimit := cyclicLimit st; tailMotorIdle := tailMotorIdle st;
     tailMotorDirection := v;
     phaseSin := phaseSin st; phaseCos := phaseCos st |}.

Definition with_phase (s c : float) (st : mixer) : mixer :=
  {| rules := rules st; mixInput := mixInput st; mixOutput := mixOutput st;
     mixOverride := mixOverride st; mixOutputMap := mixOutputMap st;
     mixSaturated := mixSaturated st; cyclicTotal := cyclicTotal st;
     cyclicLimit := cyclicLimit st; tailMotorIdle := tailMotorIdle st;
     tailMotorDirection := tailMotorDirection st;
     phaseSin := s; phaseCos := c |}.

(** [FAST_RAM_ZERO_INIT]: every variable starts at zero. *)
Definition mixer_zero `{Header} : mixer :=
  {| rules := replicate MIXER_RULE_COUNT inhabitant;
     mixInput := replicate MIXER_INPUT_COUNT zero;
     mixOutput := replicate MIXER_OUTPUT_COUNT zero;
     mixOverride := replicate MIXER_INPUT_COUNT 0;
     mixOutputMap := replicate MIXER_OUTPUT_COUNT 0;
     mixSaturated := replicate MIXER_INPUT_COUNT 0;
     cyclicTotal := zero; cyclicLimit := zero;
     tailMotorIdle := zero; tailMotorDirection := 0;
     phaseSin := zero; phaseCos := zero |}.

(** ** The operations of mixer.c *)

Section Mixer.
Context `{Header}.

(** Float constants written in the source. *)
Definition f1000 : float := of_int 1000.
Definition f0_001 : float := lit 1 1000.
Definition f0_01 : float := lit 1 100.
Definition f0_20 : float := lit 20 100.
Definition f1_41 : float := lit 141 100.
Definition f0_0041 : float := lit 41 10000.

(** [sq(x)] of common/maths.h. *)
Definition sq (x : float) : float := mul x x.

(** [ABS] of common/maths.h, used here on an [int]. *)
Definition ABS (x : Z) : Z := if x >? 0 then x else - x.

(** [mixerSaturated]. *)
Definition mixerSaturated (index : nat) (st : mixer) : bool :=
  (mixSaturated st !!! index) >? 0.

(** [mixerSaturateInput]; the counters are [uint16_t]. *)
Definition mixerSaturateInput (index : nat) (st : mixer) : mixer :=
  with_mixSaturated
    (<[index := to_uint16 MIXER_SATURATION_TIME]> (mixSaturated st)) st.

(** The [Check override only if not armed] block of [mixerSetInput]:
    the value that goes on to be constrained. *)
Definition overrideValue (e : env) (st : mixer) (index : nat) (value : float) : float :=
  if negb (armed e) then
    if (mixOverride st !!! index >=? MIXER_OVERRIDE_MIN) &&
       (mixOverride st !!! index <=? MIXER_OVERRIDE_MAX)
    then div (of_int (mixOverride st !!! index)) f1000
    else value
  else value.

(** [mixerSetInput]. *)
Definition mixerSetInput (e : env) (cfg : config)
    (index : nat) (value : float) (st : mixer) : mixer :=
  let in_ := mixerInputs cfg !!! index in
  (* Check override only if not armed *)
  let value := overrideValue e st index value in
  (* Input limits *)
  let imin := div (of_int (min in_)) f1000 in
  let imax := div (of_int (max in_)) f1000 in
  (* Constrain and saturate *)
  if gt value imax then
    mixerSaturateInput index (with_mixInput (<[index := imax]> (mixInput st)) st)
  else if lt value imin then
    mixerSaturateInput index (with_mixInput (<[index := imin]> (mixInput st)) st)
  else
    with_mixInput (<[index := value]> (mixInput st)) st.

(** The [Swash phasing] block of [mixerCyclicLimit]. *)
Definition swashPhasing (st : mixer) : mixer :=
  if ne (phaseSin st) zero then
    let SR := mixInput st !!! MIXER_IN_STABILIZED_ROLL in
    let SP := mixInput st !!! MIXER_IN_STABILIZED_PITCH in
    let st :=
      with_mixInput
        (<[MIXER_IN_STABILIZED_PITCH :=
             sub (mul SP (phaseCos st)) (mul SR (phaseSin st))]> (mixInput st)) st in
    with_mixInput
      (<[MIXER_IN_STABILIZED_ROLL :=
           add (mul SP (phaseSin st)) (mul SR (phaseCos st))]> (mixInput st)) st
  else st.

(** [cyclic] of the [Swashring enabled] block: the deflection stretched
    to the unit circle. *)
Definition stretchedCyclic (cfg : config) (st : mixer) : float :=
  let SR := mixInput st !!! MIXER_IN_STABILIZED_ROLL in
  let SP := mixInput st !!! MIXER_IN_STABILIZED_PITCH in
  let mixR := mixerInputs cfg !!! MIXER_IN_STABILIZED_ROLL in
  let mixP := mixerInputs cfg !!! MIXER_IN_STABILIZED_PITCH in
  (* Assume min<0 and max>0 for cyclic & pitch *)
  let maxR := div (of_int (ABS (if lt SR zero then min mixR else max mixR))) f1000 in
  let maxP := div (of_int (ABS (if lt SP zero then min mixP else max mixP))) f1000 in
  (* Stretch the limits to the unit circle *)
  let SR := div SR (mul (fmaxf maxR f0_001) (cyclicLimit st)) in
  let SP := div SP (mul (fmaxf maxP f0_001) (cyclicLimit st)) in
  (* Stretched cyclic deflection *)
  sqrtf (add (sq SR) (sq SP)).

(** The [Swashring enabled] block of [mixerCyclicLimit]. *)
Definition swashRing (cfg : config) (st : mixer) : mixer :=
  if gt (cyclicLimit st) zero then
    let cyclic := stretchedCyclic cfg st in
    (* Cyclic limits reached - scale back *)
    if gt cyclic one then
      let st := mixerSaturateInput MIXER_IN_STABILIZED_ROLL st in
      let st := mixerSaturateInput MIXER_IN_STABILIZED_PITCH st in
      let st :=
        with_mixInput
          (<[MIXER_IN_STABILIZED_ROLL :=
               div (mixInput st !!! MIXER_IN_STABILIZED_ROLL) cyclic]> (mixInput st)) st in
      with_mixInput
        (<[MIXER_IN_STABILIZED_PITCH :=
             div (mixInput st !!! MIXER_IN_STABILIZED_PITCH) cyclic]> (mixInput st)) st
    else st
  else st.

(** [mixerCyclicLimit]: phasing, then the swash ring, then the total
    cyclic deflection. *)
Definition mixerCyclicLimit (cfg : config) (st : mixer) : mixer :=
  (* Swash phasing *)
  let st := swashPhasing st in
  (* Swashring enabled *)
  let st := swashRing cfg st in
  (* Total cyclic deflection *)
  with_cyclicTotal
    (sqrtf (add (sq (mixInput st !!! MIXER_IN_STABILIZED_ROLL))
                (sq (mixInput st !!! MIXER_IN_STABILIZED_PITCH)))) st.

(** [mixerIsTailMode] of the header: compares the configured tail mode. *)
Definition mixerIsTailMode (cfg : config) (tail_mode : Z) : bool :=
  tail_rotor_mode (mixerConfig cfg) =? tail_mode.

(** The [Slow spoolup] block shared by both branches of
    [mixerUpdateMotorizedTail]. *)
Definition slowSpoolup (e : env) (st : mixer) (throttle : float) : float :=
  if negb (spooledUp e) then
    if lt (mixInput st !!! MIXER_IN_STABILIZED_THROTTLE) f0_01 then zero
    else if lt (mixInput st !!! MIXER_IN_STABILIZED_THROTTLE) f0_20 then
      mul throttle (div (mixInput st !!! MIXER_IN_STABILIZED_THROTTLE) f0_20)
    else throttle
  else throttle.

(** [mixerUpdateMotorizedTail]. *)
Definition mixerUpdateMotorizedTail (e : env) (cfg : config) (st : mixer) : mixer :=
  (* Motorized tail control *)
  if mixerIsTailMode cfg TAIL_MODE_MOTORIZED then
    (* Yaw input value *)
    let yaw := mixInput st !!! MIXER_IN_STABILIZED_YAW in
    (* Thrust linearization *)
    let throttle := sqrtf (fmaxf yaw zero) in
    (* Apply minimum throttle *)
    let throttle := fmaxf throttle (tailMotorIdle st) in
    (* Slow spoolup *)
    let throttle := slowSpoolup e st throttle in
    (* Yaw is now tail motor throttle *)
    with_mixInput (<[MIXER_IN_STABILIZED_YAW := throttle]> (mixInput st)) st
  else if mixerIsTailMode cfg TAIL_MODE_BIDIRECTIONAL then
    (* Yaw input value *)
    let yaw := mixInput st !!! MIXER_IN_STABILIZED_YAW in
    (* Thrust linearization *)
    let throttle := copysignf (sqrtf (fabsf yaw)) yaw in
    (* Apply minimum throttle *)
    let throttle :=
      if gt throttle (neg (tailMotorIdle st)) && lt throttle (tailMotorIdle st)
      then mul (of_int (tailMotorDirection st)) (tailMotorIdle st)
      else throttle in
    (* Slow spoolup *)
    let throttle := slowSpoolup e st throttle in
    (* Direction sign *)
    let st := with_tailMotorDirection (if lt throttle zero then -1 else 1) st in
    (* Yaw is now tail motor throttle *)
    with_mixInput (<[MIXER_IN_STABILIZED_YAW := throttle]> (mixInput st)) st
  else st.

(** The [Current flight mode bitmap] of [mixerUpdate]; [flightModeFlags]
    is a [uint16_t], promoted to [int] before [~]. *)
Definition flightModeMask (e : env) : Z :=
  Z.lor (to_uint32 (Z.shiftl (to_uint32 (Z.lnot (flightModeFlags e))) 16))
        (flightModeFlags e).

(** The guard of the rule loop:
    [rules[i].oper && ((rules[i].mode == 0) || (rules[i].mode & flightModeMask))]. *)
Definition ruleApplies (mask : Z) (r : mixerRule_t) : bool :=
  negb (oper r =? 0) &&
  ((mode r =? 0) || negb (Z.land (mode r) mask =? 0)).

(** [val] and [out] of the loop body. *)
Definition ruleOutput (cfg : config) (st : mixer) (r : mixerRule_t) : float :=
  let src := Z.to_nat (input r) in
  let val := div (mul (mixInput st !!! src)
                      (of_int (rate (mixerInputs cfg !!! src)))) f1000 in
  div (add (of_int (offset r)) (mul (of_int (weight r)) val)) f1000.

(** One iteration of the [Calculate mixer outputs] loop. *)
Definition mixerApplyRule (cfg : config) (mask : Z)
    (st : mixer) (r : mixerRule_t) : mixer :=
  if ruleApplies mask r then
    let src := Z.to_nat (input r) in
    let dst := Z.to_nat (output r) in
    let out := ruleOutput cfg st r in
    if oper r =? MIXER_OP_SET then
      let st := with_mixOutput (<[dst := out]> (mixOutput st)) st in
      with_mixOutputMap (<[dst := BIT src]> (mixOutputMap st)) st
    else if oper r =? MIXER_OP_ADD then
      let st := with_mixOutput (<[dst := add (mixOutput st !!! dst) out]> (mixOutput st)) st in
      with_mixOutputMap
        (<[dst := Z.lor (mixOutputMap st !!! dst) (BIT src)]> (mixOutputMap st)) st
    else if oper r =? MIXER_OP_MUL then
      let st := with_mixOutput (<[dst := mul (mixOutput st !!! dst) out]> (mixOutput st)) st in
      with_mixOutputMap
        (<[dst := Z.lor (mixOutputMap st !!! dst) (BIT src)]> (mixOutputMap st)) st
    else st
  else st.

(** The rule loop over a table, first slot first. *)
Definition mixerApplyRules (cfg : config) (mask : Z)
    (table : list mixerRule_t) (st : mixer) : mixer :=
  fold_left (mixerApplyRule cfg mask) table st.

(** The [Reset mixer outputs] loop. *)
Definition mixerResetOutputs (st : mixer) : mixer :=
  fold_left
    (fun st i =>
       let st := with_mixOutput (<[i := zero]> (mixOutput st)) st in
       with_mixOutputMap (<[i := 0]> (mixOutputMap st)) st)
    (seq 0 MIXER_OUTPUT_COUNT) st.

(** [mixerUpdate], from the point where [mixerUpdateInputs] has fetched
    the inputs of this tick into [st]. *)
Definition mixerUpdate (e : env) (cfg : config) (st : mixer) : mixer :=
  (* Reset mixer outputs *)
  let st := mixerResetOutputs st in
  (* Calculate mixer outputs *)
  mixerApplyRules cfg (flightModeMask e) (firstn MIXER_RULE_COUNT (rules st)) st.

(** [mixerInitSwash]. *)
Definition mixerInitSwash (cfg : config) (st : mixer) : mixer :=
  let st :=
    if negb (swash_phase (mixerConfig cfg) =? 0) then
      let angle := DECIDEGREES_TO_RADIANS (swash_phase (mixerConfig cfg)) in
      with_phase (sin_approx angle) (cos_approx angle) st
    else
      with_phase zero one st in
  if negb (swash_ring (mixerConfig cfg) =? 0) then
    with_cyclicLimit
      (sub f1_41 (mul (of_int (swash_ring (mixerConfig cfg))) f0_0041)) st
  else
    with_cyclicLimit zero st.

(** The body of the rule-loading loop of [mixerInit]. *)
Definition mixerInitRule (cfg : config) (st : mixer) (i : nat) : mixer :=
  let rule := mixerRules cfg !!! i in
  if negb (oper rule =? 0) then
    with_rules
      (<[i := {| mode := mode rule;
                 oper := to_uint8 (constrain (oper rule) 0 (MIXER_OP_COUNT - 1));
                 input := to_uint8 (constrain (input rule) 0 (Z.of_nat MIXER_INPUT_COUNT - 1));
                 output := to_uint8 (constrain (output rule) 0 (Z.of_nat MIXER_OUTPUT_COUNT - 1));
                 offset := to_int16 (constrain (offset rule) MIXER_INPUT_MIN MIXER_INPUT_MAX);
                 weight := to_int16 (constrain (weight rule) MIXER_WEIGHT_MIN MIXER_WEIGHT_MAX) |}]>
         (rules st)) st
  else st.

(** [mixerInit]. *)
Definition mixerInit (cfg : config) (st : mixer) : mixer :=
  let st := fold_left (mixerInitRule cfg) (seq 0 MIXER_RULE_COUNT) st in
  let st :=
    fold_left
      (fun st i =>
         with_mixOverride (<[i := to_int16 MIXER_OVERRIDE_OFF]> (mixOverride st)) st)
      (seq 1 (MIXER_INPUT_COUNT - 1)) st in
  let st :=
    with_tailMotorIdle (div (of_int (tail_motor_idle (mixerConfig cfg))) f1000) st in
  mixerInitSwash cfg st.

(** [mixerSaturateOutput]. *)
Definition mixerSaturateOutput (index : nat) (st : mixer) : mixer :=
  fold_left
    (fun st i =>
       if negb (Z.land (mixOutputMap st !!! index) (BIT i) =? 0)
       then mixerSaturateInput i st
       else st)
    (seq 1 (MIXER_INPUT_COUNT - 1)) st.

(** [pgResetFn_mixerInputs]: the defaults of the stabilised inputs. *)
Definition pgResetFn_mixerInputs (input : list mixerInput_t) : list mixerInput_t :=
  fold_left
    (fun input i => <[i := {| rate := 1000; min := -1000; max := 1000 |}]> input)
    (seq MIXER_IN_STABILIZED_ROLL
         (MIXER_IN_STABILIZED_THROTTLE + 1 - MIXER_IN_STABILIZED_ROLL))
    input.

(** Accessors. *)
Definition mixerGetInput (i : nat) (st : mixer) : float := mixInput st !!! i.
Definition mixerGetOutput (i : nat) (st : mixer) : float := mixOutput st !!! i.
Definition mixerGetOverride (i : nat) (st : mixer) : Z := mixOverride st !!! i.
Definition mixerSetOverride (i : nat) (value : Z) (st : mixer) : mixer :=
  with_mixOverride (<[i := value]> (mixOverride st)) st.
Definition getCyclicDeflection (st : mixer) : float := cyclicTotal st.

End Mixer.

(** ** The whole tick

    [mixerUpdateInputs] reads the pilot commands, the PID sums and the
    governor. What other modules declare for it is taken as parameters,
    and what they produce during one tick as a record of values. *)

Class Firmware := {
  MIXER_RC_SCALING : float;
  MIXER_THR_SCALING : float;
  MIXER_THR_OFFSET : float;
  MAX_SUPPORTED_RC_CHANNEL_COUNT : nat;
  MIXER_IN_RC_COMMAND_ROLL : nat;
  MIXER_IN_RC_COMMAND_PITCH : nat;
  MIXER_IN_RC_COMMAND_YAW : nat;
  MIXER_IN_RC_COMMAND_COLLECTIVE : nat;
  MIXER_IN_RC_COMMAND_THROTTLE : nat;
  MIXER_IN_RC_CHANNEL_ROLL : nat;
  MIXER_IN_STABILIZED_COLLECTIVE : nat;
  ROLL : nat;
  PITCH : nat;
  YAW : nat;
  COLLECTIVE : nat;
  THROTTLE : nat;
  FD_ROLL : nat;
  FD_PITCH : nat;
  FD_YAW : nat;
  PASSTHRU_MODE : Z;
  mixerRotationSign : mixerConfig_t -> float;
  mixerMotorizedTail : mixerConfig_t -> bool;
}.

(** What the producers hold during one tick: [rcCommand], [rcData],
    [rxConfig()->midrc], [pidGetStabilizedCollective()], [getPidSum(axis)]
    and, after [governorUpdate()], [getGovernorOutput()]; the governor has
    the mixer's accessors at hand, so its output may depend on the mixer
    as it stands when it runs. *)
Record producers := {
  rcCommand : list float;
  rcData : list float;
  midrc : float;
  pidGetStabilizedCollective : float;
  getPidSum : nat -> float;
  getGovernorOutput : mixer -> float;
}.

Section Tick.
Context `{Header} `{Firmware}.

(** [FLIGHT_MODE(mask)]. *)
Definition FLIGHT_MODE (e : env) (mask : Z) : bool :=
  negb (Z.land (flightModeFlags e) mask =? 0).

(** The [Update saturation] loop of [mixerUpdateInputs]. *)
Definition decaySaturation (st : mixer) : mixer :=
  fold_left
    (fun st i =>
       if negb (mixSaturated st !!! i =? 0)
       then with_mixSaturated
              (<[i := to_uint16 (mixSaturated st !!! i - 1)]> (mixSaturated st)) st
       else st)
    (seq 0 MIXER_INPUT_COUNT) st.

(** [mixerUpdateInputs]; [governorUpdate()] writes nothing of the mixer. *)
Definition mixerUpdateInputs (e : env) (cfg : config) (x : producers)
    (st : mixer) : mixer :=
  (* Update saturation *)
  let st := decaySaturation st in
  (* Flight Dynamics *)
  let st := mixerSetInput e cfg MIXER_IN_RC_COMMAND_ROLL
              (mul (rcCommand x !!! ROLL) MIXER_RC_SCALING) st in
  let st := mixerSetInput e cfg MIXER_IN_RC_COMMAND_PITCH
              (mul (rcCommand x !!! PITCH) MIXER_RC_SCALING) st in
  let st := mixerSetInput e cfg MIXER_IN_RC_COMMAND_YAW
              (mul (rcCommand x !!! YAW) MIXER_RC_SCALING) st in
  let st := mixerSetInput e cfg MIXER_IN_RC_COMMAND_COLLECTIVE
              (mul (rcCommand x !!! COLLECTIVE) MIXER_RC_SCALING) st in
  (* Throttle input *)
  let st := mixerSetInput e cfg MIXER_IN_RC_COMMAND_THROTTLE
              (mul (sub (rcCommand x !!! THROTTLE) MIXER_THR_OFFSET) MIXER_THR_SCALING)
              st in
  (* RC channels *)
  let st :=
    fold_left
      (fun st i =>
         mixerSetInput e cfg (MIXER_IN_RC_CHANNEL_ROLL + i)
           (mul (sub (rcData x !!! i) (midrc x)) MIXER_RC_SCALING) st)
      (seq 0 MAX_SUPPORTED_RC_CHANNEL_COUNT) st in
  (* Collective *)
  let st := mixerSetInput e cfg MIXER_IN_STABILIZED_COLLECTIVE
              (pidGetStabilizedCollective x) st in
  (* PASSTHROUGH mode disables cyclic stabilization (flybar mode) *)
  let st :=
    if negb (FLIGHT_MODE e PASSTHRU_MODE) then
      let st := mixerSetInput e cfg MIXER_IN_STABILIZED_ROLL (getPidSum x FD_ROLL) st in
      mixerSetInput e cfg MIXER_IN_STABILIZED_PITCH (getPidSum x FD_PITCH) st
    else
      let st := mixerSetInput e cfg MIXER_IN_STABILIZED_ROLL
                  (mul (rcCommand x !!! ROLL) MIXER_RC_SCALING) st in
      mixerSetInput e cfg MIXER_IN_STABILIZED_PITCH
        (mul (rcCommand x !!! PITCH) MIXER_RC_SCALING) st in
  (* Apply swash ring *)
  let st := mixerCyclicLimit cfg st in
  (* Tail/Yaw is always stabilised - positive is against main rotor torque *)
  let st := mixerSetInput e cfg MIXER_IN_STABILIZED_YAW
              (mul (mixerRotationSign (mixerConfig cfg)) (getPidSum x FD_YAW)) st in
  (* Update throttle from governor *)
  let st := mixerSetInput e cfg MIXER_IN_STABILIZED_THROTTLE (getGovernorOutput x st) st in
  (* Update motorized tail *)
  if mixerMotorizedTail (mixerConfig cfg) then mixerUpdateMotorizedTail e cfg st else st.

(** [mixerUpdate] in full: the inputs, then the outputs. *)
Definition mixerUpdateTick (e : env) (cfg : config) (x : producers)
    (st : mixer) : mixer :=
  mixerUpdate e cfg (mixerUpdateInputs e cfg x st).

(** [getCollectiveDeflection]. *)
Definition getCollectiveDeflection (st : mixer) : float :=
  mixInput st !!! MIXER_IN_STABILIZED_COLLECTIVE.

End Tick.

(** ** Well-formed states and tables *)

Section Shapes.
Context `{Header}.

(** Every array has its declared size. *)
Definition mixer_wf (st : mixer) : Prop :=
  length (rules st) = MIXER_RULE_COUNT /\
  length (mixInput st) = MIXER_INPUT_COUNT /\
  length (mixOutput st) = MIXER_OUTPUT_COUNT /\
  length (mixOverride st) = MIXER_INPUT_COUNT /\
  length (mixOutputMap st) = MIXER_OUTPUT_COUNT /\
  length (mixSaturated st) = MIXER_INPUT_COUNT.

(** The header's constants fit the fields they are stored in, and the
    ranges contain 0. *)
Definition header_fits : Prop :=
  (0 < MIXER_INPUT_COUNT <= 256)%nat /\
  (0 < MIXER_OUTPUT_COUNT <= 256)%nat /\
  0 < MIXER_OP_COUNT <= 256 /\
  -32768 <= MIXER_INPUT_MIN <= 0 /\ 0 <= MIXER_INPUT_MAX <= 32767 /\
  -32768 <= MIXER_WEIGHT_MIN <= 0 /\ 0 <= MIXER_WEIGHT_MAX <= 32767.

(** A rule whose fields are all inside their domains. *)
Definition rule_in_domain (r : mixerRule_t) : Prop :=
  0 <= oper r < MIXER_OP_COUNT /\
  0 <= input r < Z.of_nat MIXER_INPUT_COUNT /\
  0 <= output r < Z.of_nat MIXER_OUTPUT_COUNT /\
  MIXER_INPUT_MIN <= offset r <= MIXER_INPUT_MAX /\
  MIXER_WEIGHT_MIN <= weight r <= MIXER_WEIGHT_MAX.

(** What [mixerInit] stores for a persisted rule. *)
Definition constrainedRule (rule : mixerRule_t) : mixerRule_t :=
  {| mode := mode rule;
     oper := to_uint8 (constrain (oper rule) 0 (MIXER_OP_COUNT - 1));
     input := to_uint8 (constrain (input rule) 0 (Z.of_nat MIXER_INPUT_COUNT - 1));
     output := to_uint8 (constrain (output rule) 0 (Z.of_nat MIXER_OUTPUT_COUNT - 1));
     offset := to_int16 (constrain (offset rule) MIXER_INPUT_MIN MIXER_INPUT_MAX);
     weight := to_int16 (constrain (weight rule) MIXER_WEIGHT_MIN MIXER_WEIGHT_MAX) |}.

(** One pass of the saturation decay on one counter. *)
Definition decayed (v : Z) : Z := if v =? 0 then v else to_uint16 (v - 1).

(** Every counter of [new] is either full or as in [old]. *)
Definition same_or_full (old new : list Z) : Prop :=
  length new = length old /\
  forall i, new !!! i = to_uint16 MIXER_SATURATION_TIME \/ new !!! i = old !!! i.

(** The variables [mixerInit] loads and a tick must leave alone. *)
Definition loaded (st : mixer) : list mixerRule_t * list Z * float * float * float * float :=
  (rules st, mixOverride st, tailMotorIdle st, phaseSin st, phaseCos st, cyclicLimit st).

End Shapes.

(** ** The spec's own words, for comparison with the code *)

(** "Clamp the value into [lo, hi]". *)
Definition clampSpec (lo hi v : float) : float :=
  if gt v hi then hi else if lt v lo then lo else v.

(** "The sign of the last nonzero computed throttle", over the throttles
    computed so far, newest first. *)
Fixpoint lastNonzeroSign (history : list float) : Z :=
  match history with
  | [] => 0
  | t :: older =>
      if lt t zero then -1 else if gt t zero then 1 else lastNonzeroSign older
  end.

(** ** A concrete firmware build, for running the model *)

Module Sample.

(** Constants of the sine polynomial of common/maths.c. *)
Definition M_PIf : float := lit 314159265358979323846 100000000000000000000.
Definition half : float := lit 5 10.
Definition two : float := of_int 2.
Definition sinPolyCoef3 : float := neg (lit 1666568107 10000000000).
Definition sinPolyCoef5 : float := lit 8312366210 1000000000000.
Definition sinPolyCoef7 : float := neg (lit 1849218155 10000000000000).
Definition sinPolyCoef9 : float := zero.

(** Conversion of a [float] to [int32_t]: truncation towards zero. *)
Definition to_int32 (x : float) : Z :=
  match x with
  | S754_finite s m e =>
      let a := if e >=? 0 then Z.shiftl (Z.pos m) e else Z.shiftr (Z.pos m) (- e) in
      if s then - a else a
  | _ => 0
  end.

(** [while (x > M_PIf) x -= (2.0f * M_PIf);] *)
Fixpoint wrap_down (fuel : nat) (x : float) : float :=
  match fuel with
  | O => x
  | S fuel => if gt x M_PIf then wrap_down fuel (sub x (mul two M_PIf)) else x
  end.

(** [while (x < -M_PIf) x += (2.0f * M_PIf);] *)
Fixpoint wrap_up (fuel : nat) (x : float) : float :=
  match fuel with
  | O => x
  | S fuel => if lt x (neg M_PIf) then wrap_up fuel (add x (mul two M_PIf)) else x
  end.

(** Modelled from the spec: [sin_approx] of common/maths.c is not among
    the sources at hand; the spec only names it as the sine precomputed
    from the phase angle. This is the range-reduced odd polynomial of the
    firmware's fast-math configuration, a sine to within a few millionths;
    after its guard on [xint] six turns of each loop are enough. *)
Definition sin_approx_poly (x : float) : float :=
  let xint := to_int32 x in
  if (xint <? -32) || (xint >? 32) then zero
  else
    let x := wrap_down 6 x in
    let x := wrap_up 6 x in
    let x :=
      if gt x (mul half M_PIf) then
        sub (mul half M_PIf) (sub x (mul half M_PIf))
      else if lt x (neg (mul half M_PIf)) then
        sub (neg (mul half M_PIf)) (add (mul half M_PIf) x)
      else x in
    let x2 := mul x x in
    add x (mul (mul x x2)
               (add sinPolyCoef3
                    (mul x2 (add sinPolyCoef5
                                 (mul x2 (add sinPolyCoef7 (mul x2 sinPolyCoef9))))))).

(** Modelled from the spec: [cos_approx] of common/maths.c, the cosine
    precomputed from the phase angle, as the sine a quarter turn on. *)
Definition cos_approx_poly (x : float) : float :=
  sin_approx_poly (add x (mul half M_PIf)).

(** Modelled from the spec: the constants and enumerations of
    flight/mixer.h are not among the sources at hand; the spec fixes their
    roles, not their values. This build picks values that fit the code:
    index 0 of the inputs is the unused [MIXER_IN_NONE] and the stabilised
    roll, pitch, yaw, collective and throttle follow from 1, as the range
    of [pgResetFn_mixerInputs], the loops starting at 1 and the rules of
    target/SITL/config.c require; the outputs are one unused slot, eight
    servos and four motors. *)
#[export] Instance header : Header := {|
  MIXER_INPUT_COUNT := 29;
  MIXER_OUTPUT_COUNT := 13;
  MIXER_RULE_COUNT := 32;
  MIXER_INPUT_MIN := -2500;
  MIXER_INPUT_MAX := 2500;
  MIXER_WEIGHT_MIN := -10000;
  MIXER_WEIGHT_MAX := 10000;
  MIXER_OVERRIDE_MIN := -2500;
  MIXER_OVERRIDE_MAX := 2500;
  MIXER_OVERRIDE_OFF := 2501;
  MIXER_SATURATION_TIME := 5;
  MIXER_OP_SET := 1;
  MIXER_OP_ADD := 2;
  MIXER_OP_MUL := 3;
  MIXER_OP_COUNT := 4;
  MIXER_IN_STABILIZED_ROLL := 1;
  MIXER_IN_STABILIZED_PITCH := 2;
  MIXER_IN_STABILIZED_YAW := 3;
  MIXER_IN_STABILIZED_THROTTLE := 5;
  TAIL_MODE_MOTORIZED := 1;
  TAIL_MODE_BIDIRECTIONAL := 2;
  DECIDEGREES_TO_RADIANS :=
    fun angle => mul (div (of_int angle) (of_int 10)) (lit 174532925 10000000000);
  sin_approx := sin_approx_poly;
  cos_approx := cos_approx_poly;
|}.

(** The rules written by [targetConfiguration] of target/SITL/config.c:
    roll, pitch, collective (input 4) and yaw to servos 1 to 4, the
    throttle to motor 1 (output 9). *)
Definition targetRule (src dst : Z) : mixerRule_t :=
  {| mode := 0; oper := MIXER_OP_SET; input := src; output := dst;
     offset := 0; weight := 1000 |}.

Definition targetRules : list mixerRule_t :=
  [targetRule 1 1; targetRule 2 2; targetRule 4 3; targetRule 3 4; targetRule 5 9]
    ++ replicate 27 inhabitant.

(** The inputs after [pgResetFn_mixerInputs]. *)
Definition inputs : list mixerInput_t :=
  pgResetFn_mixerInputs (replicate 29 inhabitant).

(** A configuration with the given tail mode, tail idle, swash ring and
    swash phase. *)
Definition cfg (tail idle ring phase : Z) : config :=
  {| mixerInputs := inputs;
     mixerRules := targetRules;
     mixerConfig := {| main_rotor_dir := 0; tail_rotor_mode := tail;
                       tail_motor_idle := idle; swash_ring := ring;
                       swash_phase := phase |} |}.

Definition flying : env := {| armed := true; spooledUp := true; flightModeFlags := 0 |}.
Definition spooling : env := {| armed := true; spooledUp := false; flightModeFlags := 0 |}.
Definition bench : env := {| armed := false; spooledUp := false; flightModeFlags := 0 |}.

(** The mixer after boot with configuration [c]. *)
Definition booted (c : config) : mixer := mixerInit c mixer_zero.

(** The tail part of one tick, in the order of [mixerUpdateInputs]: the
    yaw demand, the governor's throttle, then the motorized tail. *)
Definition tailTick (e : env) (c : config) (yaw throttle : float) (st : mixer) : mixer :=
  mixerUpdateMotorizedTail e c
    (mixerSetInput e c MIXER_IN_STABILIZED_THROTTLE throttle
       (mixerSetInput e c MIXER_IN_STABILIZED_YAW yaw st)).

(** Mode flags 0 and 2 active. *)
Definition modes_0_2 : env := {| armed := true; spooledUp := true; flightModeFlags := 5 |}.

(** A rule gated on "mode 1 inactive": bit 17 of the gate. *)
Definition gated_rule : mixerRule_t :=
  {| mode := 2 ^ 17; oper := MIXER_OP_SET; input := 1; output := 1;
     offset := 0; weight := 1000 |}.

(** Roll at 0.5 and pitch at 0.25, ready for the rules. *)
Definition half_roll : mixer :=
  mixerSetInput flying (cfg 0 0 0 0) 2 (lit 1 4)
    (mixerSetInput flying (cfg 0 0 0 0) 1 (lit 1 2) (booted (cfg 0 0 0 0))).

Definition set_roll : mixerRule_t := targetRule 1 1.

Definition add_pitch : mixerRule_t :=
  {| mode := 0; oper := MIXER_OP_ADD; input := 2; output := 1;
     offset := 0; weight := 1000 |}.

(** Roll and pitch set through [mixerSetInput] after boot. *)
Definition cyclic_at (c : config) (roll pitch : float) : mixer :=
  mixerSetInput flying c MIXER_IN_STABILIZED_PITCH pitch
    (mixerSetInput flying c MIXER_IN_STABILIZED_ROLL roll (booted c)).

(** Three ticks of a bidirectional tail with an idle of 0.1: flying with
    yaw -0.5; rotor stopped (not spooled up, throttle 0) with yaw 0;
    flying again with yaw 0. *)
Definition bidir : config := cfg TAIL_MODE_BIDIRECTIONAL 100 0 0.
Definition tick1 : mixer := tailTick flying bidir (neg (lit 1 2)) (lit 1 2) (booted bidir).
Definition tick2 : mixer := tailTick spooling bidir zero zero tick1.
Definition tick3 : mixer := tailTick flying bidir zero (lit 1 2) tick2.

(** A fourth tick, yaw still 0, with the rotor stopped again. *)
Definition tick4 : mixer := tailTick spooling bidir zero zero tick3.

(** A motorized (unidirectional) tail with an idle of 0.1. *)
Definition motorized : config := cfg TAIL_MODE_MOTORIZED 100 0 0.

(** Yaw and governor throttle set through [mixerSetInput]. *)
Definition yaw_at (e : env) (c : config) (yaw throttle : float) (st : mixer) : mixer :=
  mixerSetInput e c MIXER_IN_STABILIZED_THROTTLE throttle
    (mixerSetInput e c MIXER_IN_STABILIZED_YAW yaw st).

(** A table whose first rule takes the constant input 0
    ([MIXER_IN_NONE]): servo 1 held at 0.5 by the offset alone. *)
Definition offset_rule : mixerRule_t :=
  {| mode := 0; oper := MIXER_OP_SET; input := 0; output := 1;
     offset := 500; weight := 0 |}.

Definition offset_cfg : config :=
  {| mixerInputs := inputs;
     mixerRules := offset_rule :: replicate 31 inhabitant;
     mixerConfig := mixerConfig (cfg 0 0 0 0) |}.

Definition offset_mixed : mixer := mixerUpdate flying offset_cfg (booted offset_cfg).

(** The persisted table of [targetConfiguration] with rule 0 switched to
    NONE afterwards. *)
Definition rule0_off : config :=
  {| mixerInputs := inputs;
     mixerRules := <[0%nat := inhabitant]> targetRules;
     mixerConfig := mixerConfig (cfg 0 0 0 0) |}.


(** Tables for whole ticks: the gated rule alone; a rule gated on mode 1
    being active alone; SET roll then ADD pitch on servo 1, and the two
    the other way round. *)
Definition table_cfg (table : list mixerRule_t) : config :=
  {| mixerInputs := inputs;
     mixerRules := table;
     mixerConfig := mixerConfig (cfg 0 0 0 0) |}.
Definition gated_cfg : config := table_cfg (gated_rule :: replicate 31 inhabitant).
Definition closed_rule : mixerRule_t :=
  {| mode := 2 ^ 1; oper := MIXER_OP_SET; input := 1; output := 1;
     offset := 0; weight := 1000 |}.
Definition closed_cfg : config := table_cfg (closed_rule :: replicate 31 inhabitant).
Definition set_add_cfg : config :=
  table_cfg (set_roll :: add_pitch :: replicate 30 inhabitant).
Definition add_set_cfg : config :=
  table_cfg (add_pitch :: set_roll :: replicate 30 inhabitant).

End Sample.

(** ** The rest of the concrete build *)

Module SampleTick.
Import Sample.

(** Modelled from the spec: the scalings, the remaining input indices and
    the axis numbers come from headers that are not among the sources at
    hand; the spec fixes their roles, not their values. This build puts
    the five pilot commands at inputs 6 to 10 and the eighteen receiver
    channels at 11 to 28, scales commands by 1/500 and the throttle by
    1/1000 from 1000, and makes the yaw sign -1 for a clockwise rotor
    (direction 0). *)
#[export] Instance firmware : Firmware := {|
  MIXER_RC_SCALING := lit 1 500;
  MIXER_THR_SCALING := lit 1 1000;
  MIXER_THR_OFFSET := of_int 1000;
  MAX_SUPPORTED_RC_CHANNEL_COUNT := 18;
  MIXER_IN_RC_COMMAND_ROLL := 6;
  MIXER_IN_RC_COMMAND_PITCH := 7;
  MIXER_IN_RC_COMMAND_YAW := 8;
  MIXER_IN_RC_COMMAND_COLLECTIVE := 9;
  MIXER_IN_RC_COMMAND_THROTTLE := 10;
  MIXER_IN_RC_CHANNEL_ROLL := 11;
  MIXER_IN_STABILIZED_COLLECTIVE := 4;
  ROLL := 0;
  PITCH := 1;
  YAW := 2;
  COLLECTIVE := 4;
  THROTTLE := 3;
  FD_ROLL := 0;
  FD_PITCH := 1;
  FD_YAW := 2;
  PASSTHRU_MODE := 2 ^ 8;
  mixerRotationSign := fun c => of_int (if main_rotor_dir c =? 0 then -1 else 1);
  mixerMotorizedTail :=
    fun c => (tail_rotor_mode c =? TAIL_MODE_MOTORIZED) ||
             (tail_rotor_mode c =? TAIL_MODE_BIDIRECTIONAL);
|}.

(** Sticks centred, receiver channels at mid, the PID asking for the
    given roll, pitch and yaw, the governor for the given throttle. *)
Definition hover (roll pitch yaw throttle : float) : producers :=
  {| rcCommand := [zero; zero; zero; of_int 1500; zero];
     rcData := replicate 18 (of_int 1500);
     midrc := of_int 1500;
     pidGetStabilizedCollective := lit 1 10;
     getPidSum := fun axis => [roll; pitch; yaw] !!! axis;
     getGovernorOutput := fun _ => throttle |}.

(** A tick that clamps the roll demand (2.0 against a limit of 1.0). *)
Definition hard_roll : producers := hover (of_int 2) zero zero (lit 1 2).

(** A tick that clamps nothing. *)
Definition calm : producers := hover (lit 1 4) zero zero (lit 1 2).

(** The persisted table of [targetConfiguration] with rule 1 corrupted:
    operator 200, input 77, output 99, offset 30000, weight -30000. *)
Definition wild_rule : mixerRule_t :=
  {| mode := 0; oper := 200; input := 77; output := 99;
     offset := 30000; weight := -30000 |}.

Definition wild_cfg : config :=
  {| mixerInputs := inputs;
     mixerRules := <[1%nat := wild_rule]> targetRules;
     mixerConfig := mixerConfig (cfg 0 0 0 0) |}.


(** Two ticks of the bidirectional tail with an idle of 0.1, flying: the
    PID asks for a yaw of 0.5 against the rotor torque (a yaw demand of
    -0.5 on this clockwise rotor), then for none. *)
Definition yaw_left : producers := hover zero zero (lit 1 2) (lit 1 2).
Definition centred : producers := hover zero zero zero (lit 1 2).
Definition bidirTick1 : mixer := mixerUpdateTick flying bidir yaw_left (booted bidir).
Definition bidirTick2 : mixer := mixerUpdateTick flying bidir centred bidirTick1.

End SampleTick.

(** ** Facts about binary32 used below *)

Module F32Facts.

Lemma compare_swap (a b : float) :
  SFcompare a b = option_map CompOpp (SFcompare b a).
Proof.
  destruct a as [sa|sa| |sa ma ea], b as [sb|sb| |sb mb eb]; simpl;
    try reflexivity;
    try (destruct sa; reflexivity);
    try (destruct sb; reflexivity);
    try (destruct sa, sb; reflexivity).
  change (Pos.compare_cont Eq ma mb) with (Pos.compare ma mb).
  change (Pos.compare_cont Eq mb ma) with (Pos.compare mb ma).
  rewrite (Z.compare_antisym eb ea), (Pos.compare_antisym mb ma).
  destruct sa, sb; simpl; try reflexivity;
    destruct (eb ?= ea); simpl; try reflexivity;
    destruct (mb ?= ma)%positive; reflexivity.
Qed.

Lemma compare_not_nan (a b : float) :
  is_nan a = false -> is_nan b = false -> exists c, SFcompare a b = Some c.
Proof.
  destruct a, b; simpl; intros; try discriminate; eexists; reflexivity.
Qed.

Lemma compare_refl (a : float) :
  is_nan a = false -> SFcompare a a = Some Eq.
Proof.
  destruct a as [s|s| |s m e]; simpl; intros Ha; try discriminate;
    try reflexivity; try (destruct s; reflexivity).
  change (Pos.compare_cont Eq m m) with (Pos.compare m m).
  rewrite Z.compare_refl, Pos.compare_refl. destruct s; reflexivity.
Qed.

Lemma le_refl (a : float) : is_nan a = false -> le a a = true.
Proof.
  intros Ha. unfold le, SFleb. rewrite compare_refl; auto.
Qed.

(** With no NaN involved, [a < b] failing means [b <= a]. *)
Lemma not_lt_le (a b : float) :
  is_nan a = false -> is_nan b = false -> lt a b = false -> le b a = true.
Proof.
  intros Ha Hb. unfold lt, le, SFltb, SFleb.
  rewrite (compare_swap b a).
  destruct (compare_not_nan a b Ha Hb) as [c ->].
  destruct c; simpl; congruence.
Qed.

Lemma lt_not_nan (a b : float) :
  lt a b = true -> is_nan a = false /\ is_nan b = false.
Proof.
  unfold lt, SFltb. destruct a, b; simpl; try discriminate; auto.
Qed.

Lemma le_not_nan (a b : float) :
  le a b = true -> is_nan a = false /\ is_nan b = false.
Proof.
  unfold le, SFleb. destruct a, b; simpl; try discriminate; auto.
Qed.

(** *** Rounding never invents a NaN *)

Lemma shr_1_nonneg (mrs : shr_record) :
  0 <= shr_m mrs -> 0 <= shr_m (shr_1 mrs).
Proof.
  destruct mrs as [m r s]. simpl.
  destruct m as [|p|p]; simpl; intros Hm; try lia.
  destruct p; simpl; lia.
Qed.

Lemma iter_pos_invariant {A : Type} (P : A -> Prop) (f : A -> A) :
  (forall x, P x -> P (f x)) ->
  forall n x, P x -> P (SpecFloat.iter_pos f n x).
Proof.
  intros Hf. induction n as [n IH|n IH|]; intros x Hx; simpl; auto.
Qed.

Lemma shr_nonneg (mrs : shr_record) (e n : Z) :
  0 <= shr_m mrs -> 0 <= shr_m (fst (shr mrs e n)).
Proof.
  intros Hm. unfold shr. destruct n; simpl; auto.
  apply (iter_pos_invariant (fun x => 0 <= shr_m x)); auto using shr_1_nonneg.
Qed.

Lemma shr_record_of_loc_m (m : Z) (l : location) :
  shr_m (shr_record_of_loc m l) = m.
Proof. destruct l as [|[ | | ]]; reflexivity. Qed.

Lemma shr_fexp_nonneg (m e : Z) (l : location) :
  0 <= m -> 0 <= shr_m (fst (shr_fexp prec emax m e l)).
Proof.
  intros Hm. unfold shr_fexp. apply shr_nonneg.
  rewrite shr_record_of_loc_m. exact Hm.
Qed.

Lemma round_nearest_even_nonneg (m : Z) (l : location) :
  0 <= m -> 0 <= round_nearest_even m l.
Proof.
  intros Hm. unfold round_nearest_even.
  destruct l as [|[ | | ]]; try lia. destruct (Z.even m); lia.
Qed.

Lemma binary_round_aux_not_nan (sx : bool) (mx ex : Z) (lx : location) :
  0 <= mx -> is_nan (binary_round_aux prec emax sx mx ex lx) = false.
Proof.
  intros Hm. unfold binary_round_aux.
  pose proof (shr_fexp_nonneg mx ex lx Hm) as H1.
  destruct (shr_fexp prec emax mx ex lx) as [mrs' e']. simpl in H1.
  pose proof (shr_fexp_nonneg
                (round_nearest_even (shr_m mrs') (loc_of_shr_record mrs'))
                e' loc_Exact
                (round_nearest_even_nonneg _ _ H1)) as H2.
  destruct (shr_fexp prec emax _ e' loc_Exact) as [mrs'' e'']. simpl in H2.
  destruct (shr_m mrs'') as [|p|p]; simpl; try reflexivity.
  - destruct (e'' <=? emax - prec); reflexivity.
  - lia.
Qed.

Lemma of_int_not_nan (z : Z) : is_nan (of_int z) = false.
Proof.
  unfold of_int, binary_normalize, binary_round.
  destruct z as [|p|p]; try reflexivity.
  - destruct (shl_align p 0 _) as [mz ez].
    apply binary_round_aux_not_nan. lia.
  - destruct (shl_align p 0 _) as [mz ez].
    apply binary_round_aux_not_nan. lia.
Qed.

(** A quotient by a finite non-zero divisor is a NaN only if the
    dividend is one. *)
Lemma div_finite_not_nan (x : float) (sy : bool) (my : positive) (ey : Z) :
  is_nan x = false ->
  is_nan (div x (S754_finite sy my ey)) = false.
Proof.
  intros Hx. unfold div, SFdiv.
  destruct x as [s|s| |s m e]; try reflexivity; try discriminate.
  unfold SFdiv_core_binary.
  set (m' := match _ with Z0 => Z.pos m | Z.pos _ => _ | Z.neg _ => 0 end).
  assert (Hm' : 0 <= m').
  { subst m'. destruct (_ - _ - _) as [|q|q]; try lia.
    rewrite Z.shiftl_mul_pow2 by lia.
    apply Z.mul_nonneg_nonneg; [lia|apply Z.pow_nonneg; lia]. }
  pose proof (Z.div_eucl_eq m' (Z.pos my) ltac:(lia)) as Heq.
  pose proof (Z.mod_pos_bound m' (Z.pos my) ltac:(lia)) as Hr.
  unfold Z.modulo in Hr.
  destruct (Z.div_eucl m' (Z.pos my)) as [q r].
  apply binary_round_aux_not_nan. nia.
Qed.

(** An integer divided by [1000.0f] is never a NaN. *)
Lemma thousandth_not_nan (z : Z) : is_nan (div (of_int z) (of_int 1000)) = false.
Proof.
  change (of_int 1000) with (S754_finite false 16384000 (-14)).
  apply div_finite_not_nan, of_int_not_nan.
Qed.

(** *** Order and sign *)

Lemma le_not_lt (a b : float) : le b a = true -> lt a b = false.
Proof.
  unfold le, lt, SFleb, SFltb. rewrite (compare_swap b a).
  destruct (SFcompare a b) as [[ | | ]|]; simpl; congruence.
Qed.

Lemma not_lt_le_eq (a b : float) :
  lt a b = false -> le a b = true -> eq a b = true.
Proof.
  unfold le, lt, eq, SFleb, SFltb, SFeqb.
  destruct (SFcompare a b) as [[ | | ]|]; simpl; congruence.
Qed.

Lemma neg_lt_zero (x : float) : lt zero x = true -> lt (neg x) zero = true.
Proof.
  destruct x as [s|s| |s m e]; simpl; try discriminate;
    destruct s; simpl; try discriminate; reflexivity.
Qed.

Lemma lt_zero_signed (s : bool) (x : float) :
  lt zero x = true -> lt (S754_zero s) x = true /\ lt (neg x) (S754_zero s) = true.
Proof.
  destruct x as [sx|sx| |sx m e]; simpl; try discriminate;
    destruct sx; simpl; try discriminate; auto.
Qed.

Lemma eq_zero_inv (x : float) : eq x zero = true -> exists s, x = S754_zero s.
Proof.
  destruct x as [s|s| |s m e]; simpl; try discriminate.
  - eauto.
  - destruct s; discriminate.
  - destruct s; discriminate.
Qed.

Lemma binary_round_aux_nonneg (mx ex : Z) (lx : location) :
  0 <= mx -> le zero (binary_round_aux prec emax false mx ex lx) = true.
Proof.
  intros Hm. unfold binary_round_aux.
  pose proof (shr_fexp_nonneg mx ex lx Hm) as H1.
  destruct (shr_fexp prec emax mx ex lx) as [mrs' e']. simpl in H1.
  pose proof (shr_fexp_nonneg
                (round_nearest_even (shr_m mrs') (loc_of_shr_record mrs'))
                e' loc_Exact
                (round_nearest_even_nonneg _ _ H1)) as H2.
  destruct (shr_fexp prec emax _ e' loc_Exact) as [mrs'' e'']. simpl in H2.
  destruct (shr_m mrs'') as [|p|p]; simpl; try reflexivity.
  - destruct (e'' <=? emax - prec); reflexivity.
  - lia.
Qed.

(** A square root that is not a NaN is not negative. *)
Lemma sqrtf_nonneg (x : float) :
  is_nan (sqrtf x) = false -> le zero (sqrtf x) = true.
Proof.
  unfold sqrtf, SFsqrt.
  destruct x as [s|s| |s m e]; try discriminate; try reflexivity.
  - destruct s; [discriminate|reflexivity].
  - destruct s; [discriminate|]. intros _.
    unfold SFsqrt_core_binary.
    set (m' := match _ with Z0 => Z.pos m | Z.pos _ => _ | Z.neg _ => 0 end).
    assert (Hm' : 0 <= m').
    { subst m'. destruct (_ - _) as [|q|q]; try lia.
      rewrite Z.shiftl_mul_pow2 by lia.
      apply Z.mul_nonneg_nonneg; [lia|apply Z.pow_nonneg; lia]. }
    pose proof (Z.sqrtrem_spec m' Hm') as Hsq.
    destruct (Z.sqrtrem m') as [q r].
    apply binary_round_aux_nonneg. lia.
Qed.

(** [fmaxf] with a floor that is not negative is not negative. *)
Lemma fmaxf_floor_nonneg (t floor : float) :
  (is_nan t = false -> le zero t = true) ->
  le zero floor = true -> le zero (fmaxf t floor) = true.
Proof.
  intros Ht Hf. unfold fmaxf.
  destruct (is_nan t) eqn:Hnt; [exact Hf|].
  destruct (is_nan floor); [auto|].
  destruct (lt t floor); auto.
Qed.

(** [1.0f * x] is [x]. *)
Lemma mul_one_l (x : float) :
  valid_binary prec emax x = true -> mul one x = x.
Proof.
  destruct x as [s|s| |s m e]; try reflexivity.
  intros Hv. simpl in Hv. unfold bounded, canonical_mantissa in Hv.
  apply andb_true_iff in Hv as [Hc He].
  apply Z.eqb_eq in Hc. apply Z.leb_le in He.
  change one with (S754_finite false 8388608 (-23)).
  unfold mul, SFmul. simpl xorb.
  unfold binary_round_aux, shr_fexp.
  change (8388608 * m)%positive with
    (m~0~0~0~0~0~0~0~0~0~0~0~0~0~0~0~0~0~0~0~0~0~0~0)%positive.
  unfold Zdigits2 at 1.
  cbn [digits2_pos].
  replace (fexp prec emax _ - (-23 + e)) with 23.
  2:{ unfold fexp in *. unfold emin in *. lia. }
  cbn [shr shr_record_of_loc SpecFloat.iter_pos shr_1 shr_m loc_of_shr_record
       round_nearest_even orb Zdigits2].
  replace (-23 + e + 23) with e by lia.
  rewrite Hc, Z.sub_diag. cbn [shr shr_m].
  replace (e <=? emax - prec) with true by lia. reflexivity.
Qed.

Lemma finite_le_trans (s1 s2 s3 : bool) (m1 m2 m3 : positive) (e1 e2 e3 : Z) :
  le (S754_finite s1 m1 e1) (S754_finite s2 m2 e2) = true ->
  le (S754_finite s2 m2 e2) (S754_finite s3 m3 e3) = true ->
  le (S754_finite s1 m1 e1) (S754_finite s3 m3 e3) = true.
Proof.
  unfold le, SFleb, SFcompare.
  change (Pos.compare_cont Eq m1 m2) with (Pos.compare m1 m2).
  change (Pos.compare_cont Eq m2 m3) with (Pos.compare m2 m3).
  change (Pos.compare_cont Eq m1 m3) with (Pos.compare m1 m3).
  destruct s1, s2, s3; try reflexivity; try discriminate;
    destruct (Z.compare_spec e1 e2), (Z.compare_spec e2 e3), (Z.compare_spec e1 e3);
    try reflexivity; try discriminate; try lia;
    destruct (Pos.compare_spec m1 m2), (Pos.compare_spec m2 m3), (Pos.compare_spec m1 m3);
    simpl; try reflexivity; try discriminate; try lia.
Qed.

Lemma le_trans (a b c : float) :
  le a b = true -> le b c = true -> le a c = true.
Proof.
  destruct a as [sa|sa| |sa ma ea], b as [sb|sb| |sb mb eb], c as [sc|sc| |sc mc ec];
    try (apply finite_le_trans);
    unfold le, SFleb, SFcompare;
    try discriminate; try reflexivity;
    try (destruct sa; try discriminate; try reflexivity);
    try (destruct sb; try discriminate; try reflexivity);
    try (destruct sc; try discriminate; try reflexivity).
Qed.

(** *** Input limits grow with their setting *)

Lemma nondecreasing_from_steps (f : Z -> float) (n : nat) :
  forall z prev,
    nondecreasing_from f n z prev = true ->
    forall i, z <= i < z + Z.of_nat n ->
      le (if i =? z then prev else f (i - 1)) (f i) = true.
Proof.
  induction n as [|k IH]; intros z prev Hn i Hi; [lia|].
  simpl in Hn. apply andb_true_iff in Hn as [Hfirst Hrest].
  destruct (Z.eqb_spec i z) as [Heq|Hne]; [subst i; exact Hfirst|].
  assert (Hi' : z + 1 <= i < z + 1 + Z.of_nat k) by lia.
  pose proof (IH (z + 1) (f z) Hrest i Hi') as Hs.
  destruct (Z.eqb_spec i (z + 1)) as [Heq|Hne'].
  - subst i. replace (z + 1 - 1) with z by lia. exact Hs.
  - exact Hs.
Qed.

Lemma nondecreasing_on (f : Z -> float) (lo : Z) (n : nat) :
  (forall z, is_nan (f z) = false) ->
  nondecreasing_from f n (lo + 1) (f lo) = true ->
  forall a b, lo <= a <= b -> b <= lo + Z.of_nat n -> le (f a) (f b) = true.
Proof.
  intros Hnan Hn a b Hab Hb.
  assert (Hstep : forall i, lo <= i < lo + Z.of_nat n -> le (f i) (f (i + 1)) = true).
  { intros i Hi.
    pose proof (nondecreasing_from_steps f n (lo + 1) (f lo) Hn (i + 1) ltac:(lia)) as Hs.
    destruct (Z.eqb_spec (i + 1) (lo + 1)) as [Heq|Hne].
    - assert (i = lo) by lia. subst i. exact Hs.
    - replace (i + 1 - 1) with i in Hs by lia. exact Hs. }
  remember (Z.to_nat (b - a)) as d eqn:Hd.
  revert b Hab Hb Hd. induction d as [|d IH]; intros b Hab Hb Hd.
  - replace b with a by lia. apply le_refl, Hnan.
  - apply (le_trans _ (f (b - 1))).
    + apply IH; lia.
    + replace b with (b - 1 + 1) at 2 by lia. apply Hstep. lia.
Qed.

(** A limit [z / 1000.0f] grows with its 16-bit setting [z]. *)
Lemma int16_limits_ordered (lo hi : Z) :
  -32768 <= lo -> lo <= hi -> hi <= 32767 ->
  le (div (of_int lo) (of_int 1000)) (div (of_int hi) (of_int 1000)) = true.
Proof.
  intros Hlo Hle Hhi.
  apply (nondecreasing_on (fun z => div (of_int z) (of_int 1000))
           (-32768) (Z.to_nat 65535)).
  - apply thousandth_not_nan.
  - vm_compute. reflexivity.
  - lia.
  - lia.
Qed.

(** *** The tail idle of an 8-bit setting *)

Lemma forall_below_spec (n : nat) (P : Z -> bool) :
  forall_below n P = true -> forall z, 0 <= z < Z.of_nat n -> P z = true.
Proof.
  induction n as [|k IH]; simpl; intros HP z Hz; [lia|].
  apply andb_true_iff in HP as [Hk Hrest].
  destruct (Z.eq_dec z (Z.of_nat k)) as [->|Hne]; [exact Hk|].
  apply IH; [exact Hrest|lia].
Qed.

(** Every idle [c / 1000.0f] with [c] in 0..255 is a well-formed
    binary32 value between 0 and 0.5, and above 0 unless [c] is 0. *)
Lemma uint8_idle (c : Z) :
  0 <= c < 256 ->
  let idle := div (of_int c) (of_int 1000) in
  valid_binary prec emax idle = true /\
  le zero idle = true /\
  le idle (lit 1 2) = true /\
  (0 < c -> lt zero idle = true).
Proof.
  intros Hc idle.
  assert (Hall : forall_below 256
            (fun c =>
               let idle := div (of_int c) (of_int 1000) in
               valid_binary prec emax idle && le zero idle && le idle (lit 1 2) &&
               ((c =? 0) || lt zero idle)) = true)
    by (vm_compute; reflexivity).
  pose proof (forall_below_spec _ _ Hall c ltac:(lia)) as Hp.
  cbv beta zeta in Hp. fold idle in Hp.
  apply andb_true_iff in Hp as [Hp H4].
  apply andb_true_iff in Hp as [Hp H3].
  apply andb_true_iff in Hp as [H1 H2].
  repeat apply conj; auto.
  intros Hpos. apply orb_true_iff in H4 as [H4|H4]; [lia|exact H4].
Qed.

End F32Facts.

(** ** The input registry *)

Section InputRegistry.
Context `{Header}.

Lemma overrideValue_not_nan (e : env) (st : mixer) (index : nat) (raw : float) :
  is_nan raw = false -> is_nan (overrideValue e st index raw) = false.
Proof.
  intros Hraw. unfold overrideValue.
  destruct (negb (armed e)); auto.
  destruct (_ && _); auto.
  apply F32Facts.thousandth_not_nan.
Qed.

(** What [mixerSetInput] stores: the overridden value, constrained. *)
Lemma mixerSetInput_stored (e : env) (cfg : config) (st : mixer)
    (index : nat) (raw : float) :
  (index < length (mixInput st))%nat ->
  mixInput (mixerSetInput e cfg index raw st) !!! index =
  clampSpec (div (of_int (min (mixerInputs cfg !!! index))) f1000)
            (div (of_int (max (mixerInputs cfg !!! index))) f1000)
            (overrideValue e st index raw).
Proof.
  intros Hi. unfold mixerSetInput, clampSpec.
  destruct (gt _ _); [|destruct (lt _ _)]; simpl;
    rewrite list_lookup_total_insert_eq; auto.
Qed.

Lemma mixerSaturateInput_counter (index : nat) (st : mixer) :
  (index < length (mixSaturated st))%nat ->
  0 < MIXER_SATURATION_TIME < 2 ^ 16 ->
  mixSaturated (mixerSaturateInput index st) !!! index = MIXER_SATURATION_TIME /\
  mixerSaturated index (mixerSaturateInput index st) = true.
Proof.
  intros Hi HT. unfold mixerSaturated, mixerSaturateInput. simpl.
  rewrite list_lookup_total_insert_eq by auto.
  unfold to_uint16. rewrite Z.mod_small by lia. split; [reflexivity|lia].
Qed.

(** The constrain step, for limits that are in order as floats. *)
Lemma mixerSetInput_constrained (e : env) (cfg : config) (st : mixer)
    (index : nat) (raw : float) :
  let imin := div (of_int (min (mixerInputs cfg !!! index))) f1000 in
  let imax := div (of_int (max (mixerInputs cfg !!! index))) f1000 in
  let value := overrideValue e st index raw in
  let st' := mixerSetInput e cfg index raw st in
  (index < length (mixInput st))%nat ->
  (index < length (mixSaturated st))%nat ->
  0 < MIXER_SATURATION_TIME < 2 ^ 16 ->
  is_nan value = false ->
  le imin imax = true ->
  within imin imax (mixInput st' !!! index) = true /\
  (gt value imax || lt value imin = true ->
   mixSaturated st' !!! index = MIXER_SATURATION_TIME /\
   mixerSaturated index st' = true).
Proof.
  intros imin imax value st' Hi Hs HT Hv Hle.
  destruct (F32Facts.le_not_nan _ _ Hle) as [Hmin Hmax].
  subst st'. unfold mixerSetInput, within.
  fold value. fold imin. fold imax.
  destruct (gt value imax) eqn:Hgt; [|destruct (lt value imin) eqn:Hlt].
  - split.
    + simpl. rewrite list_lookup_total_insert_eq by auto.
      rewrite Hle, F32Facts.le_refl; auto.
    + intros _. apply mixerSaturateInput_counter; auto.
  - split.
    + simpl. rewrite list_lookup_total_insert_eq by auto.
      rewrite Hle, F32Facts.le_refl; auto.
    + intros _. apply mixerSaturateInput_counter; auto.
  - split.
    + simpl. rewrite list_lookup_total_insert_eq by auto.
      rewrite (F32Facts.not_lt_le value imin), (F32Facts.not_lt_le imax value); auto.
    + discriminate.
Qed.

(** C1 (as amended). After [mixerSetInput] on an input whose configured
    16-bit limits satisfy [min <= max], provided the value that is
    constrained is not a NaN (the raw value, or [override/1000], which
    replaces it when disarmed with a valid override and is never a NaN),
    the stored value lies within [[min/1000, max/1000]]; and if that value
    was above the upper or below the lower limit, the input's saturation
    counter holds [MIXER_SATURATION_TIME], so [mixerSaturated] answers
    true. In particular this holds for every raw value that is not a NaN,
    and for every raw value at all when disarmed with a valid override. *)
Theorem setInput_within_limits (e : env) (cfg : config) (st : mixer)
    (index : nat) (raw : float) :
  let imin := div (of_int (min (mixerInputs cfg !!! index))) f1000 in
  let imax := div (of_int (max (mixerInputs cfg !!! index))) f1000 in
  let value := overrideValue e st index raw in
  let st' := mixerSetInput e cfg index raw st in
  (index < length (mixInput st))%nat ->
  (index < length (mixSaturated st))%nat ->
  0 < MIXER_SATURATION_TIME < 2 ^ 16 ->
  -32768 <= min (mixerInputs cfg !!! index) ->
  min (mixerInputs cfg !!! index) <= max (mixerInputs cfg !!! index) ->
  max (mixerInputs cfg !!! index) <= 32767 ->
  (is_nan raw = false -> is_nan value = false) /\
  (armed e = false ->
   MIXER_OVERRIDE_MIN <= mixOverride st !!! index <= MIXER_OVERRIDE_MAX ->
   is_nan value = false) /\
  (is_nan value = false ->
   within imin imax (mixInput st' !!! index) = true /\
   (gt value imax || lt value imin = true ->
    mixSaturated st' !!! index = MIXER_SATURATION_TIME /\
    mixerSaturated index st' = true)).
Proof.
  intros imin imax value st' Hi Hs HT Hlo Hle Hhi.
  split; [apply overrideValue_not_nan|]. split.
  - intros Harm Hov. subst value. unfold overrideValue. rewrite Harm. simpl.
    replace (mixOverride st !!! index >=? MIXER_OVERRIDE_MIN) with true by lia.
    replace (mixOverride st !!! index <=? MIXER_OVERRIDE_MAX) with true by lia.
    apply F32Facts.thousandth_not_nan.
  - intros Hv. apply mixerSetInput_constrained; auto.
    apply F32Facts.int16_limits_ordered; auto.
Qed.

(** C2. Disarmed with an override inside
    [[MIXER_OVERRIDE_MIN, MIXER_OVERRIDE_MAX]], the stored value is the
    clamped [override/1000] whatever the raw value; disarmed with an
    override outside that range, it is the clamped raw value; armed, it is
    the clamped raw value whatever override has been set. *)
Theorem setInput_override (e : env) (cfg : config) (st : mixer)
    (index : nat) (raw : float) :
  let imin := div (of_int (min (mixerInputs cfg !!! index))) f1000 in
  let imax := div (of_int (max (mixerInputs cfg !!! index))) f1000 in
  let override := mixOverride st !!! index in
  (index < length (mixInput st))%nat ->
  (armed e = false ->
   MIXER_OVERRIDE_MIN <= override <= MIXER_OVERRIDE_MAX ->
   forall raw',
     mixInput (mixerSetInput e cfg index raw' st) !!! index =
     clampSpec imin imax (div (of_int override) f1000)) /\
  (armed e = false ->
   ~ (MIXER_OVERRIDE_MIN <= override <= MIXER_OVERRIDE_MAX) ->
   mixInput (mixerSetInput e cfg index raw st) !!! index = clampSpec imin imax raw) /\
  (armed e = true ->
   forall value,
     mixInput (mixerSetInput e cfg index raw (mixerSetOverride index value st)) !!! index =
     clampSpec imin imax raw).
Proof.
  intros imin imax override Hi. repeat split.
  - intros Harm Hov raw'. rewrite mixerSetInput_stored by auto.
    unfold overrideValue. rewrite Harm. simpl. fold override.
    replace (override >=? MIXER_OVERRIDE_MIN) with true by lia.
    replace (override <=? MIXER_OVERRIDE_MAX) with true by lia.
    reflexivity.
  - intros Harm Hov. rewrite mixerSetInput_stored by auto.
    unfold overrideValue. rewrite Harm. simpl. fold override.
    destruct (override >=? MIXER_OVERRIDE_MIN) eqn:H1;
      destruct (override <=? MIXER_OVERRIDE_MAX) eqn:H2; simpl; try reflexivity.
    exfalso. apply Hov. lia.
  - intros Harm value. rewrite mixerSetInput_stored by (simpl; auto).
    unfold overrideValue. rewrite Harm. reflexivity.
Qed.

End InputRegistry.

Section InputRegistryRuns.
Import Sample.

(** Two runs of C1 on the stabilised roll input (limits -1 and 1):
    armed, a raw value of 2.0 is stored as 1.0 and saturates the input;
    on the bench with an override of 500, a NaN raw value is discarded
    and 0.5 is stored. *)
Lemma setInput_within_limits_witness :
  let c := Sample.cfg 0 0 0 0 in
  let st := Sample.booted c in
  let imin := div (of_int (min (mixerInputs c !!! 1%nat))) f1000 in
  let imax := div (of_int (max (mixerInputs c !!! 1%nat))) f1000 in
  let st' := mixerSetInput Sample.flying c 1 (of_int 2) st in
  let ov := mixerSetOverride 1 500 st in
  let ov' := mixerSetInput Sample.bench c 1 S754_nan ov in
  (within imin imax (mixInput st' !!! 1%nat) = true /\
   mixSaturated st' !!! 1%nat = MIXER_SATURATION_TIME /\
   mixerSaturated 1 st' = true) /\
  (within imin imax (mixInput ov' !!! 1%nat) = true /\
   mixInput ov' !!! 1%nat = lit 1 2).
Proof.
  intros c st imin imax st' ov ov'. split.
  - destruct (setInput_within_limits Sample.flying c st 1 (of_int 2))
      as (Hraw & _ & Hin).
    + vm_compute. lia.
    + vm_compute. lia.
    + vm_compute. split; reflexivity.
    + vm_compute. discriminate.
    + vm_compute. discriminate.
    + vm_compute. discriminate.
    + destruct (Hin (Hraw eq_refl)) as [Hw Hsat].
      split; [exact Hw|]. apply Hsat. vm_compute. reflexivity.
  - destruct (setInput_within_limits Sample.bench c ov 1 S754_nan)
      as (_ & Hov & Hin).
    + vm_compute. lia.
    + vm_compute. lia.
    + vm_compute. split; reflexivity.
    + vm_compute. discriminate.
    + vm_compute. discriminate.
    + vm_compute. discriminate.
    + assert (Hv : is_nan (overrideValue Sample.bench ov 1 S754_nan) = false).
      { apply Hov; [reflexivity|]. vm_compute. split; discriminate. }
      destruct (Hin Hv) as [Hw _].
      split; [exact Hw|]. vm_compute. reflexivity.
Defined.

(** C1 as stated fails on the code in two ways. Armed, a NaN raw value is
    stored as it is: neither comparison of the constrain step holds for a
    NaN. And with limits configured the wrong way round (min 500, max
    -500) the raw value 0 is stored as -0.5, below min/1000. *)
Lemma setInput_limits_counterexample :
  (let c := Sample.cfg 0 0 0 0 in
   let st' := mixerSetInput Sample.flying c 1 S754_nan (Sample.booted c) in
   mixInput st' !!! 1%nat = S754_nan /\
   within (div (of_int (-1000)) f1000) (div (of_int 1000) f1000)
          (mixInput st' !!! 1%nat) = false) /\
  (let c := {| mixerInputs := <[1%nat := {| rate := 1000; min := 500; max := -500 |}]> Sample.inputs;
               mixerRules := Sample.targetRules;
               mixerConfig := mixerConfig (Sample.cfg 0 0 0 0) |} in
   let st' := mixerSetInput Sample.flying c 1 zero (Sample.booted c) in
   mixInput st' !!! 1%nat = div (of_int (-500)) f1000 /\
   within (div (of_int 500) f1000) (div (of_int (-500)) f1000)
          (mixInput st' !!! 1%nat) = false).
Proof. vm_compute. repeat split; reflexivity. Qed.

(** A run of C2 on the bench (disarmed) with an override of 500 on the
    stabilised roll input. *)
Lemma setInput_override_witness :
  let c := Sample.cfg 0 0 0 0 in
  let st := mixerSetOverride 1 500 (Sample.booted c) in
  let imin := div (of_int (min (mixerInputs c !!! 1%nat))) f1000 in
  let imax := div (of_int (max (mixerInputs c !!! 1%nat))) f1000 in
  let override := mixOverride st !!! 1%nat in
  (armed Sample.bench = false ->
   MIXER_OVERRIDE_MIN <= override <= MIXER_OVERRIDE_MAX ->
   forall raw',
     mixInput (mixerSetInput Sample.bench c 1 raw' st) !!! 1%nat =
     clampSpec imin imax (div (of_int override) f1000)) /\
  (armed Sample.bench = false ->
   ~ (MIXER_OVERRIDE_MIN <= override <= MIXER_OVERRIDE_MAX) ->
   mixInput (mixerSetInput Sample.bench c 1 one st) !!! 1%nat = clampSpec imin imax one) /\
  (armed Sample.bench = true ->
   forall value,
     mixInput (mixerSetInput Sample.bench c 1 one (mixerSetOverride 1 value st)) !!! 1%nat =
     clampSpec imin imax one).
Proof.
  intros c st.
  apply (setInput_override Sample.bench c st 1 one).
  vm_compute. lia.
Defined.

End InputRegistryRuns.

(** ** Bit tests *)

Lemma land_pow2_eqb (m i : Z) :
  0 <= i -> (Z.land m (2 ^ i) =? 0) = negb (Z.testbit m i).
Proof.
  intros Hi.
  assert (Hland : Z.land m (2 ^ i) = if Z.testbit m i then 2 ^ i else 0).
  { apply Z.bits_inj'. intros n Hn.
    rewrite Z.land_spec, Z.pow2_bits_eqb by lia.
    destruct (Z.eqb_spec i n) as [->|Hne].
    - destruct (Z.testbit m n); simpl.
      + rewrite Z.pow2_bits_eqb, Z.eqb_refl by lia. reflexivity.
      + rewrite Z.bits_0. reflexivity.
    - rewrite andb_false_r. destruct (Z.testbit m i).
      + rewrite Z.pow2_bits_eqb by lia.
        symmetry. apply Z.eqb_neq. exact Hne.
      + rewrite Z.bits_0. reflexivity. }
  rewrite Hland. destruct (Z.testbit m i); simpl.
  - apply Z.eqb_neq. pose proof (Z.pow_pos_nonneg 2 i). lia.
  - reflexivity.
Qed.

Lemma BIT_pow2 (i : nat) : (i < 32)%nat -> BIT i = 2 ^ Z.of_nat i.
Proof.
  intros Hi. unfold BIT, to_uint32.
  rewrite Z.shiftl_1_l. apply Z.mod_small. split.
  - apply Z.pow_nonneg. lia.
  - apply Z.pow_lt_mono_r; lia.
Qed.

(** [map & BIT(i)] is non-zero exactly when bit [i] of [map] is set. *)
Lemma land_BIT (m : Z) (i : nat) :
  (i < 32)%nat -> negb (Z.land m (BIT i) =? 0) = Z.testbit m (Z.of_nat i).
Proof.
  intros Hi. rewrite BIT_pow2, land_pow2_eqb by lia. apply negb_involutive.
Qed.

(** ** The rule engine *)

Section RuleEngine.
Context `{Header}.

Lemma flightModeMask_low (e : env) (i : Z) :
  0 <= flightModeFlags e < 2 ^ 16 -> 0 <= i < 16 ->
  Z.testbit (flightModeMask e) i = Z.testbit (flightModeFlags e) i.
Proof.
  intros Hf Hi. unfold flightModeMask, to_uint32.
  rewrite Z.lor_spec, Z.mod_pow2_bits_low by lia.
  rewrite Z.shiftl_spec by lia.
  rewrite Z.testbit_neg_r by lia. reflexivity.
Qed.

Lemma flightModeMask_high (e : env) (i : Z) :
  0 <= flightModeFlags e < 2 ^ 16 -> 16 <= i < 32 ->
  Z.testbit (flightModeMask e) i = negb (Z.testbit (flightModeFlags e) (i - 16)).
Proof.
  intros Hf Hi. unfold flightModeMask, to_uint32.
  rewrite Z.lor_spec, Z.mod_pow2_bits_low by lia.
  rewrite Z.shiftl_spec by lia.
  rewrite Z.mod_pow2_bits_low by lia.
  rewrite Z.lnot_spec by lia.
  replace (Z.testbit (flightModeFlags e) i) with false; [apply orb_false_r|].
  symmetry. rewrite <- (Z.mod_small (flightModeFlags e) (2 ^ 16)) by lia.
  apply Z.mod_pow2_bits_high. lia.
Qed.

(** A rule that does not apply leaves the mixer as it is. *)
Lemma mixerApplyRule_skipped (cfg : config) (mask : Z) (st : mixer) (r : mixerRule_t) :
  ruleApplies mask r = false -> mixerApplyRule cfg mask st r = st.
Proof. intros Hr. unfold mixerApplyRule. rewrite Hr. reflexivity. Qed.

(** *** Rule application *)

Lemma mixerApplyRule_mixInput (cfg : config) (mask : Z) (st : mixer) (r : mixerRule_t) :
  mixInput (mixerApplyRule cfg mask st r) = mixInput st.
Proof.
  unfold mixerApplyRule.
  destruct (ruleApplies mask r); [|reflexivity].
  destruct (oper r =? MIXER_OP_SET); [reflexivity|].
  destruct (oper r =? MIXER_OP_ADD); [reflexivity|].
  destruct (oper r =? MIXER_OP_MUL); reflexivity.
Qed.

Lemma mixerApplyRule_lengths (cfg : config) (mask : Z) (st : mixer) (r : mixerRule_t) :
  length (mixOutput (mixerApplyRule cfg mask st r)) = length (mixOutput st) /\
  length (mixOutputMap (mixerApplyRule cfg mask st r)) = length (mixOutputMap st).
Proof.
  unfold mixerApplyRule.
  destruct (ruleApplies mask r); [|auto].
  destruct (oper r =? MIXER_OP_SET); [simpl; rewrite !length_insert; auto|].
  destruct (oper r =? MIXER_OP_ADD); [simpl; rewrite !length_insert; auto|].
  destruct (oper r =? MIXER_OP_MUL); [simpl; rewrite !length_insert; auto|auto].
Qed.

(** The value of a rule depends on the inputs only. *)
Lemma ruleOutput_inputs (cfg : config) (st st' : mixer) (r : mixerRule_t) :
  mixInput st' = mixInput st -> ruleOutput cfg st' r = ruleOutput cfg st r.
Proof. intros Hin. unfold ruleOutput. rewrite Hin. reflexivity. Qed.

(** A rule that does not apply, or writes another destination, leaves
    this destination alone. *)
Lemma mixerApplyRule_other (cfg : config) (mask : Z) (st : mixer)
    (r : mixerRule_t) (dst : nat) :
  ruleApplies mask r = false \/ Z.to_nat (output r) <> dst ->
  mixOutput (mixerApplyRule cfg mask st r) !!! dst = mixOutput st !!! dst /\
  mixOutputMap (mixerApplyRule cfg mask st r) !!! dst = mixOutputMap st !!! dst.
Proof.
  intros [Hr|Hd].
  - rewrite mixerApplyRule_skipped by exact Hr. auto.
  - unfold mixerApplyRule.
    destruct (ruleApplies mask r); [|auto].
    destruct (oper r =? MIXER_OP_SET);
      [simpl; rewrite !list_lookup_total_insert_ne by exact Hd; auto|].
    destruct (oper r =? MIXER_OP_ADD);
      [simpl; rewrite !list_lookup_total_insert_ne by exact Hd; auto|].
    destruct (oper r =? MIXER_OP_MUL);
      [simpl; rewrite !list_lookup_total_insert_ne by exact Hd; auto|auto].
Qed.

Lemma mixerApplyRules_mixInput (cfg : config) (mask : Z) (table : list mixerRule_t) :
  forall st, mixInput (mixerApplyRules cfg mask table st) = mixInput st.
Proof.
  unfold mixerApplyRules.
  induction table as [|r table IH]; intros st; simpl; [reflexivity|].
  rewrite IH. apply mixerApplyRule_mixInput.
Qed.

Lemma mixerApplyRules_lengths (cfg : config) (mask : Z) (table : list mixerRule_t) :
  forall st,
    length (mixOutput (mixerApplyRules cfg mask table st)) = length (mixOutput st) /\
    length (mixOutputMap (mixerApplyRules cfg mask table st)) = length (mixOutputMap st).
Proof.
  unfold mixerApplyRules.
  induction table as [|r table IH]; intros st; simpl; [auto|].
  destruct (IH (mixerApplyRule cfg mask st r)) as [-> ->].
  apply mixerApplyRule_lengths.
Qed.

Lemma mixerApplyRules_other (cfg : config) (mask : Z) (dst : nat)
    (table : list mixerRule_t) :
  Forall (fun r => ruleApplies mask r = false \/ Z.to_nat (output r) <> dst) table ->
  forall st,
    mixOutput (mixerApplyRules cfg mask table st) !!! dst = mixOutput st !!! dst /\
    mixOutputMap (mixerApplyRules cfg mask table st) !!! dst = mixOutputMap st !!! dst.
Proof.
  unfold mixerApplyRules.
  induction 1 as [|r table Hr _ IH]; intros st; simpl; [auto|].
  destruct (IH (mixerApplyRule cfg mask st r)) as [-> ->].
  apply mixerApplyRule_other. exact Hr.
Qed.

(** The three operators, for a rule that applies. *)
Lemma mixerApplyRule_set (cfg : config) (mask : Z) (st : mixer) (r : mixerRule_t) :
  ruleApplies mask r = true -> oper r = MIXER_OP_SET ->
  (Z.to_nat (output r) < length (mixOutput st))%nat ->
  (Z.to_nat (output r) < length (mixOutputMap st))%nat ->
  mixOutput (mixerApplyRule cfg mask st r) !!! Z.to_nat (output r) = ruleOutput cfg st r /\
  mixOutputMap (mixerApplyRule cfg mask st r) !!! Z.to_nat (output r) =
    BIT (Z.to_nat (input r)).
Proof.
  intros Hr Hop Ho Hm. unfold mixerApplyRule.
  rewrite Hr, Hop, Z.eqb_refl. simpl.
  rewrite !list_lookup_total_insert_eq by auto. auto.
Qed.

Lemma mixerApplyRule_add (cfg : config) (mask : Z) (st : mixer) (r : mixerRule_t) :
  MIXER_OP_ADD <> MIXER_OP_SET ->
  ruleApplies mask r = true -> oper r = MIXER_OP_ADD ->
  (Z.to_nat (output r) < length (mixOutput st))%nat ->
  (Z.to_nat (output r) < length (mixOutputMap st))%nat ->
  mixOutput (mixerApplyRule cfg mask st r) !!! Z.to_nat (output r) =
    add (mixOutput st !!! Z.to_nat (output r)) (ruleOutput cfg st r) /\
  mixOutputMap (mixerApplyRule cfg mask st r) !!! Z.to_nat (output r) =
    Z.lor (mixOutputMap st !!! Z.to_nat (output r)) (BIT (Z.to_nat (input r))).
Proof.
  intros Hne Hr Hop Ho Hm. unfold mixerApplyRule.
  rewrite Hr, Hop, Z.eqb_refl.
  replace (MIXER_OP_ADD =? MIXER_OP_SET) with false by (symmetry; apply Z.eqb_neq; auto).
  simpl. rewrite !list_lookup_total_insert_eq by auto. auto.
Qed.

Lemma mixerApplyRule_mul (cfg : config) (mask : Z) (st : mixer) (r : mixerRule_t) :
  MIXER_OP_MUL <> MIXER_OP_SET -> MIXER_OP_MUL <> MIXER_OP_ADD ->
  ruleApplies mask r = true -> oper r = MIXER_OP_MUL ->
  (Z.to_nat (output r) < length (mixOutput st))%nat ->
  (Z.to_nat (output r) < length (mixOutputMap st))%nat ->
  mixOutput (mixerApplyRule cfg mask st r) !!! Z.to_nat (output r) =
    mul (mixOutput st !!! Z.to_nat (output r)) (ruleOutput cfg st r) /\
  mixOutputMap (mixerApplyRule cfg mask st r) !!! Z.to_nat (output r) =
    Z.lor (mixOutputMap st !!! Z.to_nat (output r)) (BIT (Z.to_nat (input r))).
Proof.
  intros Hne1 Hne2 Hr Hop Ho Hm. unfold mixerApplyRule.
  rewrite Hr, Hop, Z.eqb_refl.
  replace (MIXER_OP_MUL =? MIXER_OP_SET) with false by (symmetry; apply Z.eqb_neq; auto).
  replace (MIXER_OP_MUL =? MIXER_OP_ADD) with false by (symmetry; apply Z.eqb_neq; auto).
  simpl. rewrite !list_lookup_total_insert_eq by auto. auto.
Qed.

Lemma mixerApplyRules_app (cfg : config) (mask : Z) (t1 t2 : list mixerRule_t) (st : mixer) :
  mixerApplyRules cfg mask (t1 ++ t2) st =
  mixerApplyRules cfg mask t2 (mixerApplyRules cfg mask t1 st).
Proof. unfold mixerApplyRules. apply fold_left_app. Qed.

Lemma mixerApplyRules_cons (cfg : config) (mask : Z) (r : mixerRule_t)
    (table : list mixerRule_t) (st : mixer) :
  mixerApplyRules cfg mask (r :: table) st =
  mixerApplyRules cfg mask table (mixerApplyRule cfg mask st r).
Proof. reflexivity. Qed.

(** An applicable SET rule directly followed by an applicable ADD rule
    on the same destination, and no later rule writing it. *)
Lemma set_then_add (cfg : config) (mask : Z) (st : mixer)
    (pre post : list mixerRule_t) (rS rA : mixerRule_t) :
  MIXER_OP_ADD <> MIXER_OP_SET ->
  ruleApplies mask rS = true -> oper rS = MIXER_OP_SET ->
  ruleApplies mask rA = true -> oper rA = MIXER_OP_ADD ->
  output rA = output rS ->
  let dst := Z.to_nat (output rS) in
  (dst < length (mixOutput st))%nat ->
  (dst < length (mixOutputMap st))%nat ->
  Forall (fun r => ruleApplies mask r = false \/ Z.to_nat (output r) <> dst) post ->
  let st1 := mixerApplyRules cfg mask (pre ++ rS :: rA :: post) st in
  mixOutput st1 !!! dst = add (ruleOutput cfg st rS) (ruleOutput cfg st rA) /\
  mixOutputMap st1 !!! dst =
    Z.lor (BIT (Z.to_nat (input rS))) (BIT (Z.to_nat (input rA))).
Proof.
  intros Hne1 HrS HoS HrA HoA Hdst dst Hlo Hlm Hpost st1.
  set (s0 := mixerApplyRules cfg mask pre st).
  assert (Hin0 : mixInput s0 = mixInput st) by apply mixerApplyRules_mixInput.
  destruct (mixerApplyRules_lengths cfg mask pre st) as [Hlo0 Hlm0].
  fold s0 in Hlo0, Hlm0.
  assert (HdA : Z.to_nat (output rA) = dst) by (unfold dst; congruence).
  subst st1. rewrite mixerApplyRules_app. fold s0.
  rewrite !mixerApplyRules_cons.
  set (sS := mixerApplyRule cfg mask s0 rS).
  destruct (mixerApplyRules_other cfg mask dst post Hpost
              (mixerApplyRule cfg mask sS rA)) as [-> ->].
  destruct (mixerApplyRule_lengths cfg mask s0 rS) as [HloS HlmS].
  fold sS in HloS, HlmS.
  destruct (mixerApplyRule_set cfg mask s0 rS HrS HoS) as [HvS HmS];
    [fold dst; lia|fold dst; lia|].
  fold sS dst in HvS, HmS.
  destruct (mixerApplyRule_add cfg mask sS rA Hne1 HrA HoA) as [HvA HmA];
    [rewrite HdA; lia|rewrite HdA; lia|].
  rewrite HdA in HvA, HmA. rewrite HvA, HmA, HvS, HmS.
  rewrite (ruleOutput_inputs cfg st s0 rS) by exact Hin0.
  rewrite (ruleOutput_inputs cfg st sS rA)
    by (unfold sS; rewrite mixerApplyRule_mixInput; exact Hin0).
  auto.
Qed.

(** The same two rules the other way round. *)
Lemma add_then_set (cfg : config) (mask : Z) (st : mixer)
    (pre post : list mixerRule_t) (rS rA : mixerRule_t) :
  ruleApplies mask rS = true -> oper rS = MIXER_OP_SET ->
  let dst := Z.to_nat (output rS) in
  (dst < length (mixOutput st))%nat ->
  (dst < length (mixOutputMap st))%nat ->
  Forall (fun r => ruleApplies mask r = false \/ Z.to_nat (output r) <> dst) post ->
  let st2 := mixerApplyRules cfg mask (pre ++ rA :: rS :: post) st in
  mixOutput st2 !!! dst = ruleOutput cfg st rS /\
  mixOutputMap st2 !!! dst = BIT (Z.to_nat (input rS)).
Proof.
  intros HrS HoS dst Hlo Hlm Hpost st2.
  set (s0 := mixerApplyRules cfg mask pre st).
  assert (Hin0 : mixInput s0 = mixInput st) by apply mixerApplyRules_mixInput.
  destruct (mixerApplyRules_lengths cfg mask pre st) as [Hlo0 Hlm0].
  fold s0 in Hlo0, Hlm0.
  subst st2. rewrite mixerApplyRules_app. fold s0.
  rewrite !mixerApplyRules_cons.
  set (sA := mixerApplyRule cfg mask s0 rA).
  destruct (mixerApplyRules_other cfg mask dst post Hpost
              (mixerApplyRule cfg mask sA rS)) as [-> ->].
  destruct (mixerApplyRule_lengths cfg mask s0 rA) as [HloA HlmA].
  fold sA in HloA, HlmA.
  destruct (mixerApplyRule_set cfg mask sA rS HrS HoS) as [HvS HmS];
    [fold dst; lia|fold dst; lia|].
  fold dst in HvS, HmS. rewrite HvS, HmS.
  rewrite (ruleOutput_inputs cfg st sA rS)
    by (unfold sA; rewrite mixerApplyRule_mixInput; exact Hin0).
  auto.
Qed.

End RuleEngine.

Section RuleEngineRuns.
Import Sample.

(** The gate on an active flag, on an inactive flag, and on their
    complements in the upper half. *)
Example gate_cases :
  let gate m := ruleApplies (flightModeMask modes_0_2)
                  {| mode := m; oper := MIXER_OP_SET; input := 1; output := 1;
                     offset := 0; weight := 1000 |} in
  gate (2 ^ 2) = true /\ gate (2 ^ 1) = false /\
  gate (2 ^ 17) = true /\ gate (2 ^ 18) = false /\ gate 0 = true.
Proof. vm_compute. repeat split; reflexivity. Qed.

End RuleEngineRuns.

(** ** The swash compensator *)

Section Swash.
Context `{Header}.

Lemma swashPhasing_frame (st : mixer) :
  cyclicLimit (swashPhasing st) = cyclicLimit st /\
  mixSaturated (swashPhasing st) = mixSaturated st /\
  length (mixInput (swashPhasing st)) = length (mixInput st).
Proof.
  unfold swashPhasing. destruct (ne _ _); simpl; auto.
  rewrite !length_insert. auto.
Qed.

(** Phasing is skipped exactly when the stored sine compares equal to
    zero. *)
Lemma swashPhasing_skipped (st : mixer) :
  ne (phaseSin st) zero = false -> swashPhasing st = st.
Proof. intros Hs. unfold swashPhasing. rewrite Hs. reflexivity. Qed.

Lemma swashPhasing_applied (st : mixer) :
  ne (phaseSin st) zero = true ->
  MIXER_IN_STABILIZED_ROLL <> MIXER_IN_STABILIZED_PITCH ->
  (MIXER_IN_STABILIZED_ROLL < length (mixInput st))%nat ->
  (MIXER_IN_STABILIZED_PITCH < length (mixInput st))%nat ->
  let SR := mixInput st !!! MIXER_IN_STABILIZED_ROLL in
  let SP := mixInput st !!! MIXER_IN_STABILIZED_PITCH in
  mixInput (swashPhasing st) !!! MIXER_IN_STABILIZED_PITCH =
    sub (mul SP (phaseCos st)) (mul SR (phaseSin st)) /\
  mixInput (swashPhasing st) !!! MIXER_IN_STABILIZED_ROLL =
    add (mul SP (phaseSin st)) (mul SR (phaseCos st)).
Proof.
  intros Hs Hne Hr Hp SR SP. unfold swashPhasing. rewrite Hs. simpl.
  rewrite list_lookup_total_insert_ne by auto.
  rewrite !list_lookup_total_insert_eq by (rewrite ?length_insert; auto).
  auto.
Qed.

(** What [mixerInitSwash] leaves in the phase variables. *)
Lemma mixerInitSwash_phase (cfg : config) (st : mixer) :
  let st' := mixerInitSwash cfg st in
  let phase := swash_phase (mixerConfig cfg) in
  (phase = 0 -> phaseSin st' = zero /\ phaseCos st' = one) /\
  (phase <> 0 ->
   phaseSin st' = sin_approx (DECIDEGREES_TO_RADIANS phase) /\
   phaseCos st' = cos_approx (DECIDEGREES_TO_RADIANS phase)).
Proof.
  unfold mixerInitSwash. split; intros Hp.
  - rewrite Hp. simpl. destruct (negb _); auto.
  - replace (swash_phase (mixerConfig cfg) =? 0) with false
      by (symmetry; apply Z.eqb_neq; exact Hp).
    simpl. destruct (negb _); auto.
Qed.

(** With a zero phase angle the pair goes through phasing unchanged. *)
Lemma zero_phase_identity (cfg : config) (st : mixer) :
  swash_phase (mixerConfig cfg) = 0 ->
  swashPhasing (mixerInitSwash cfg st) = mixerInitSwash cfg st.
Proof.
  intros Hp. apply swashPhasing_skipped.
  destruct (mixerInitSwash_phase cfg st) as [Hz _].
  destruct (Hz Hp) as [-> _]. reflexivity.
Qed.

(** C5. With the swash ring enabled and the stretched deflection above
    1, roll and pitch (as left by phasing) are both divided by that
    deflection and both inputs get the full saturation time; and in every
    case [cyclicTotal] is the magnitude of the roll/pitch pair as it stands
    after phasing and after the ring. *)
Theorem cyclic_ring_limit (cfg : config) (st : mixer) :
  MIXER_IN_STABILIZED_ROLL <> MIXER_IN_STABILIZED_PITCH ->
  (MIXER_IN_STABILIZED_ROLL < length (mixInput st))%nat ->
  (MIXER_IN_STABILIZED_PITCH < length (mixInput st))%nat ->
  (MIXER_IN_STABILIZED_ROLL < length (mixSaturated st))%nat ->
  (MIXER_IN_STABILIZED_PITCH < length (mixSaturated st))%nat ->
  0 < MIXER_SATURATION_TIME < 2 ^ 16 ->
  let phased := swashPhasing st in
  let cyclic := stretchedCyclic cfg phased in
  let st' := mixerCyclicLimit cfg st in
  (gt (cyclicLimit st) zero = true -> gt cyclic one = true ->
   mixInput st' !!! MIXER_IN_STABILIZED_ROLL =
     div (mixInput phased !!! MIXER_IN_STABILIZED_ROLL) cyclic /\
   mixInput st' !!! MIXER_IN_STABILIZED_PITCH =
     div (mixInput phased !!! MIXER_IN_STABILIZED_PITCH) cyclic /\
   mixSaturated st' !!! MIXER_IN_STABILIZED_ROLL = MIXER_SATURATION_TIME /\
   mixSaturated st' !!! MIXER_IN_STABILIZED_PITCH = MIXER_SATURATION_TIME /\
   mixerSaturated MIXER_IN_STABILIZED_ROLL st' = true /\
   mixerSaturated MIXER_IN_STABILIZED_PITCH st' = true) /\
  mixInput st' = mixInput (swashRing cfg phased) /\
  cyclicTotal st' =
    sqrtf (add (sq (mixInput st' !!! MIXER_IN_STABILIZED_ROLL))
               (sq (mixInput st' !!! MIXER_IN_STABILIZED_PITCH))).
Proof.
  intros Hne Hr Hp Hsr Hsp HT phased cyclic st'.
  destruct (swashPhasing_frame st) as (Hlim & Hsat & Hlen).
  fold phased in Hlim, Hsat, Hlen.
  split; [|split; reflexivity].
  intros Hring Hover. subst st'. unfold mixerCyclicLimit. fold phased.
  unfold swashRing. rewrite Hlim, Hring. fold cyclic. rewrite Hover.
  unfold mixerSaturated. simpl. rewrite Hsat.
  rewrite (list_lookup_total_insert_ne _ MIXER_IN_STABILIZED_PITCH
             MIXER_IN_STABILIZED_ROLL) by auto.
  rewrite (list_lookup_total_insert_ne _ MIXER_IN_STABILIZED_ROLL
             MIXER_IN_STABILIZED_PITCH) by auto.
  rewrite (list_lookup_total_insert_ne _ MIXER_IN_STABILIZED_PITCH
             MIXER_IN_STABILIZED_ROLL) by auto.
  rewrite !list_lookup_total_insert_eq by (rewrite ?length_insert; lia).
  unfold to_uint16. rewrite Z.mod_small by lia.
  repeat split; lia.
Qed.

(** A configured angle whose approximated sine compares equal to zero is
    not rotated, whatever its cosine. *)
Lemma zero_sine_skipped (cfg : config) (st : mixer) :
  swash_phase (mixerConfig cfg) <> 0 ->
  ne (sin_approx (DECIDEGREES_TO_RADIANS (swash_phase (mixerConfig cfg)))) zero = false ->
  swashPhasing (mixerInitSwash cfg st) = mixerInitSwash cfg st.
Proof.
  intros Hp Hs. apply swashPhasing_skipped.
  destruct (mixerInitSwash_phase cfg st) as [_ Hnz].
  destruct (Hnz Hp) as [-> _]. exact Hs.
Qed.

End Swash.

Section SwashRuns.
Import Sample.

(** A run of C5: ring at 100 (limit factor 1.0), roll and pitch both at
    1.0: the stretched deflection is about 1.414, both axes come out at
    about 0.7071 and saturated, and the total is about 1.0. *)
Lemma cyclic_ring_limit_witness :
  let c := cfg 0 0 100 0 in
  let st' := mixerCyclicLimit c (cyclic_at c one one) in
  mixInput st' !!! MIXER_IN_STABILIZED_ROLL = S754_finite false 11863283 (-24) /\
  mixInput st' !!! MIXER_IN_STABILIZED_PITCH = S754_finite false 11863283 (-24) /\
  mixerSaturated MIXER_IN_STABILIZED_ROLL st' = true /\
  mixerSaturated MIXER_IN_STABILIZED_PITCH st' = true /\
  cyclicTotal st' = S754_finite false 16777215 (-24).
Proof.
  intros c st'.
  destruct (cyclic_ring_limit c (cyclic_at c one one)) as (Hring & _ & Htotal).
  - vm_compute. lia.
  - vm_compute. lia.
  - vm_compute. lia.
  - vm_compute. lia.
  - vm_compute. lia.
  - vm_compute. split; reflexivity.
  - destruct Hring as (Hr & Hp & _ & _ & Hsr & Hsp);
      [vm_compute; reflexivity|vm_compute; reflexivity|].
    exact (conj (eq_trans Hr eq_refl)
             (conj (eq_trans Hp eq_refl)
                (conj Hsr (conj Hsp (eq_trans Htotal eq_refl))))).
Defined.

(** C6, at the input where the code departs from it. A phase of 1800
    decidegrees (180 degrees) is not zero, yet its sine is stored as
    exactly 0 (the cosine as about -1), so [mixerCyclicLimit] skips the
    rotation: roll 1, pitch 0 stay as they are, where the rotation
    [roll' = SP*sin + SR*cos] gives about -1. *)
Theorem swash_phase_180_skipped :
  let c := cfg 0 0 0 1800 in
  let st := cyclic_at c one zero in
  let st' := mixerCyclicLimit c st in
  let SR := mixInput st !!! MIXER_IN_STABILIZED_ROLL in
  let SP := mixInput st !!! MIXER_IN_STABILIZED_PITCH in
  (swash_phase (mixerConfig c) =? 0) = false /\
  phaseSin st = zero /\
  phaseCos st = S754_finite true 16777201 (-24) /\
  mixInput st' !!! MIXER_IN_STABILIZED_ROLL = one /\
  mixInput st' !!! MIXER_IN_STABILIZED_PITCH = zero /\
  add (mul SP (phaseSin st)) (mul SR (phaseCos st)) = S754_finite true 16777201 (-24).
Proof. vm_compute. repeat split; reflexivity. Qed.

End SwashRuns.

(** ** The motorized tail *)

Section Tail.
Context `{Header}.

(** Nothing but [mixerUpdateMotorizedTail] writes the direction memory. *)
Lemma mixerSetInput_direction (e : env) (cfg : config) (i : nat) (v : float) (st : mixer) :
  tailMotorDirection (mixerSetInput e cfg i v st) = tailMotorDirection st.
Proof.
  unfold mixerSetInput. destruct (gt _ _); [|destruct (lt _ _)]; reflexivity.
Qed.

Lemma mixerCyclicLimit_direction (cfg : config) (st : mixer) :
  tailMotorDirection (mixerCyclicLimit cfg st) = tailMotorDirection st.
Proof.
  unfold mixerCyclicLimit, swashRing, swashPhasing. simpl.
  destruct (ne _ _); simpl; destruct (gt _ _); simpl;
    try destruct (gt _ _); reflexivity.
Qed.

Lemma mixerApplyRule_direction (cfg : config) (mask : Z) (st : mixer) (r : mixerRule_t) :
  tailMotorDirection (mixerApplyRule cfg mask st r) = tailMotorDirection st.
Proof.
  unfold mixerApplyRule.
  destruct (ruleApplies mask r); [|reflexivity].
  destruct (oper r =? MIXER_OP_SET); [reflexivity|].
  destruct (oper r =? MIXER_OP_ADD); [reflexivity|].
  destruct (oper r =? MIXER_OP_MUL); reflexivity.
Qed.

Lemma mixerApplyRules_direction (cfg : config) (mask : Z) (table : list mixerRule_t) :
  forall st, tailMotorDirection (mixerApplyRules cfg mask table st) = tailMotorDirection st.
Proof.
  unfold mixerApplyRules.
  induction table as [|r table IH]; intros st; simpl; [reflexivity|].
  rewrite IH. apply mixerApplyRule_direction.
Qed.

Lemma mixerResetOutputs_direction (st : mixer) :
  tailMotorDirection (mixerResetOutputs st) = tailMotorDirection st.
Proof.
  unfold mixerResetOutputs. generalize (seq 0 MIXER_OUTPUT_COUNT). intros l.
  revert st. induction l as [|i l IH]; intros st; simpl; [reflexivity|].
  rewrite IH. reflexivity.
Qed.

Lemma mixerUpdate_direction (e : env) (cfg : config) (st : mixer) :
  tailMotorDirection (mixerUpdate e cfg st) = tailMotorDirection st.
Proof.
  unfold mixerUpdate.
  rewrite mixerApplyRules_direction. apply mixerResetOutputs_direction.
Qed.

Lemma slowSpoolup_spooled (e : env) (st : mixer) (throttle : float) :
  spooledUp e = true -> slowSpoolup e st throttle = throttle.
Proof. intros Hs. unfold slowSpoolup. rewrite Hs. reflexivity. Qed.

(** C8. In motorized (unidirectional) mode the yaw slot receives
    [fmaxf(sqrtf(fmaxf(yaw, 0)), idle)]; only while not spooled up this is
    replaced by 0 when the main throttle is below 0.01 and multiplied by
    [mainThrottle / 0.20] when it is from 0.01 up to below 0.20. Spooled
    up and with an idle that is not negative the result is never negative;
    a yaw of 0.25 yields 0.5 (idle at most 0.5) and a yaw of -0.1 yields
    the idle. *)
Theorem motorized_tail (e : env) (cfg : config) (st : mixer) :
  mixerIsTailMode cfg TAIL_MODE_MOTORIZED = true ->
  (MIXER_IN_STABILIZED_YAW < length (mixInput st))%nat ->
  let yaw := mixInput st !!! MIXER_IN_STABILIZED_YAW in
  let main := mixInput st !!! MIXER_IN_STABILIZED_THROTTLE in
  let idle := tailMotorIdle st in
  let floored := fmaxf (sqrtf (fmaxf yaw zero)) idle in
  let st' := mixerUpdateMotorizedTail e cfg st in
  let throttle := mixInput st' !!! MIXER_IN_STABILIZED_YAW in
  (spooledUp e = true -> throttle = floored) /\
  (spooledUp e = false -> lt main f0_01 = true -> throttle = zero) /\
  (spooledUp e = false -> lt main f0_01 = false -> lt main f0_20 = true ->
   throttle = mul floored (div main f0_20)) /\
  (spooledUp e = false -> lt main f0_01 = false -> lt main f0_20 = false ->
   throttle = floored) /\
  (spooledUp e = true -> le zero idle = true -> le zero throttle = true) /\
  (spooledUp e = true -> le idle (lit 1 2) = true -> yaw = lit 1 4 ->
   throttle = lit 1 2) /\
  (spooledUp e = true -> le zero idle = true -> yaw = neg (lit 1 10) ->
   eq throttle idle = true /\ le zero throttle = true).
Proof.
  intros Hm Hy yaw main idle floored st' throttle.
  assert (Ht : throttle = slowSpoolup e st floored).
  { subst throttle st'. unfold mixerUpdateMotorizedTail. rewrite Hm. simpl.
    apply list_lookup_total_insert_eq. exact Hy. }
  assert (Hnonneg : le zero idle = true -> le zero floored = true).
  { intros Hi. apply F32Facts.fmaxf_floor_nonneg; [|exact Hi].
    apply F32Facts.sqrtf_nonneg. }
  rewrite Ht. unfold slowSpoolup. fold main.
  repeat apply conj.
  - intros ->. reflexivity.
  - intros -> ->. reflexivity.
  - intros -> -> ->. reflexivity.
  - intros -> -> ->. reflexivity.
  - intros -> Hi. simpl. auto.
  - intros -> Hi Hyaw. simpl. subst floored. rewrite Hyaw.
    change (sqrtf (fmaxf (lit 1 4) zero)) with (lit 1 2).
    destruct (F32Facts.le_not_nan _ _ Hi) as [Hni _].
    unfold fmaxf. rewrite Hni. simpl.
    rewrite (F32Facts.le_not_lt _ _ Hi). reflexivity.
  - intros -> Hi Hyaw. simpl. split; [|auto].
    subst floored. rewrite Hyaw.
    change (sqrtf (fmaxf (neg (lit 1 10)) zero)) with zero.
    destruct (F32Facts.le_not_nan _ _ Hi) as [_ Hni].
    unfold fmaxf. rewrite Hni. simpl.
    destruct (lt zero idle) eqn:Hlt.
    + unfold eq, SFeqb. rewrite F32Facts.compare_refl by exact Hni. reflexivity.
    + apply F32Facts.not_lt_le_eq; auto.
Qed.

(** [mixerInit] derives the idle from the configuration. *)
Lemma mixerInit_tailMotorIdle (cfg : config) (st : mixer) :
  tailMotorIdle (mixerInit cfg st) =
  div (of_int (tail_motor_idle (mixerConfig cfg))) f1000.
Proof.
  unfold mixerInit, mixerInitSwash.
  destruct (negb (swash_phase _ =? 0)); destruct (negb (swash_ring _ =? 0));
    reflexivity.
Qed.

(** For every 8-bit idle setting the conditions of C7 and C8 on the idle
    hold after [mixerInit]. *)
Lemma mixerInit_idle_bounds (cfg : config) (st : mixer) :
  0 <= tail_motor_idle (mixerConfig cfg) < 256 ->
  let idle := tailMotorIdle (mixerInit cfg st) in
  valid_binary prec emax idle = true /\
  le zero idle = true /\
  le idle (lit 1 2) = true /\
  (0 < tail_motor_idle (mixerConfig cfg) -> lt zero idle = true).
Proof.
  intros Hc idle. subst idle. rewrite mixerInit_tailMotorIdle.
  apply F32Facts.uint8_idle. exact Hc.
Qed.

End Tail.

Section TailRuns.
Import Sample.

(** C7 as stated fails on the code. The first tick computes a negative
    throttle; the second, with the rotor stopped, is gated to exactly 0,
    which sets the direction memory to +1; the third, with yaw 0, snaps to
    [+idle], although the last non-zero throttle was negative and the
    claim's [idleDirection * idle] is [-idle]. A fourth tick, again with
    the rotor stopped, has yaw 0 and a stored direction of +1 and yields
    0, not [+idle]. *)
Lemma bidirectional_direction_counterexample :
  let t1 := mixInput tick1 !!! MIXER_IN_STABILIZED_YAW in
  let t2 := mixInput tick2 !!! MIXER_IN_STABILIZED_YAW in
  let t3 := mixInput tick3 !!! MIXER_IN_STABILIZED_YAW in
  let t4 := mixInput tick4 !!! MIXER_IN_STABILIZED_YAW in
  let idle := tailMotorIdle tick2 in
  (lt t1 zero = true /\ t2 = zero /\
   lastNonzeroSign [t2; t1] = -1 /\
   mul (of_int (lastNonzeroSign [t2; t1])) idle = neg (lit 1 10) /\
   tailMotorDirection tick2 = 1 /\
   t3 = lit 1 10) /\
  (tailMotorDirection tick3 = 1 /\ t4 = zero).
Proof. vm_compute. repeat split; reflexivity. Qed.

(** A run of C8: flying, a yaw of 0.25 gives a tail throttle of 0.5. *)
Lemma motorized_tail_witness :
  let st := yaw_at flying motorized (lit 1 4) (lit 1 2) (booted motorized) in
  let st' := mixerUpdateMotorizedTail flying motorized st in
  mixInput st' !!! MIXER_IN_STABILIZED_YAW = lit 1 2 /\
  le zero (mixInput st' !!! MIXER_IN_STABILIZED_YAW) = true.
Proof.
  intros st st'.
  destruct (motorized_tail flying motorized st) as (_ & _ & _ & _ & Hpos & Hq & _).
  - reflexivity.
  - vm_compute. lia.
  - split.
    + apply Hq; reflexivity.
    + apply Hpos; reflexivity.
Defined.

End TailRuns.

(** ** The saturation tracker *)

Section Saturation.
Context `{Header}.

(** The loop of [mixerSaturateOutput] over any list of input indices. *)
Lemma saturate_loop (o : nat) (l : list nat) :
  forall st,
    let marked i := negb (Z.land (mixOutputMap st !!! o) (BIT i) =? 0) in
    let st' :=
      fold_left
        (fun st i =>
           if negb (Z.land (mixOutputMap st !!! o) (BIT i) =? 0)
           then mixerSaturateInput i st else st) l st in
    st' = with_mixSaturated (mixSaturated st') st /\
    length (mixSaturated st') = length (mixSaturated st) /\
    forall i, (i < length (mixSaturated st))%nat ->
      (i ∈ l -> marked i = true ->
       mixSaturated st' !!! i = to_uint16 MIXER_SATURATION_TIME) /\
      (~ (i ∈ l /\ marked i = true) ->
       mixSaturated st' !!! i = mixSaturated st !!! i).
Proof.
  induction l as [|j l IH]; intros st marked st'.
  - subst st'. simpl. split; [destruct st; reflexivity|].
    split; [reflexivity|]. intros i Hi. split.
    + intros Hin. apply elem_of_nil in Hin. contradiction.
    + reflexivity.
  - subst st'. simpl.
    set (st1 := if negb (Z.land (mixOutputMap st !!! o) (BIT j) =? 0)
                then mixerSaturateInput j st else st).
    assert (Hmap : mixOutputMap st1 = mixOutputMap st)
      by (subst st1; destruct (negb _); reflexivity).
    assert (Hst1 : st1 = with_mixSaturated (mixSaturated st1) st)
      by (subst st1; destruct (negb _); [reflexivity|destruct st; reflexivity]).
    assert (Hlen1 : length (mixSaturated st1) = length (mixSaturated st))
      by (subst st1; destruct (negb _); simpl; rewrite ?length_insert; reflexivity).
    destruct (IH st1) as (Hframe & Hlen & Hcnt).
    rewrite Hmap in Hcnt.
    set (F := fold_left _ l st1) in *.
    split; [|split].
    + transitivity (with_mixSaturated (mixSaturated F) st1); [exact Hframe|].
      clearbody F. rewrite Hst1. reflexivity.
    + rewrite Hlen. exact Hlen1.
    + intros i Hi.
      destruct (Hcnt i) as [Hset Hkeep]; [rewrite Hlen1; exact Hi|].
      split.
      * intros Hin Hm. apply elem_of_cons in Hin.
        destruct (decide (i ∈ l)) as [Hl|Hl]; [auto|].
        destruct Hin as [->|Hin]; [|contradiction].
        rewrite Hkeep by tauto.
        subst st1. unfold marked in Hm. rewrite Hm. simpl.
        apply list_lookup_total_insert_eq. exact Hi.
      * intros Hno. rewrite Hkeep.
        -- subst st1. destruct (negb _) eqn:Hj; [|reflexivity].
           simpl. apply list_lookup_total_insert_ne.
           intros ->. apply Hno. split; [apply elem_of_cons; auto|exact Hj].
        -- intros [Hl Hm]. apply Hno. split; [apply elem_of_cons; auto|exact Hm].
Qed.

(** C9 (as amended). [mixerSaturateOutput o] gives the full saturation
    time to exactly the inputs from index 1 up whose bit is set in the
    contributor bitmap of [o]; every other counter, that of input 0
    included even when bit 0 is set, and every other variable of the mixer
    stay as they are. *)
Theorem saturateOutput_contributors (o : nat) (st : mixer) :
  (MIXER_INPUT_COUNT <= 32)%nat ->
  length (mixSaturated st) = MIXER_INPUT_COUNT ->
  0 < MIXER_SATURATION_TIME < 2 ^ 16 ->
  let contributors := mixOutputMap st !!! o in
  let st' := mixerSaturateOutput o st in
  st' = with_mixSaturated (mixSaturated st') st /\
  forall i, (i < MIXER_INPUT_COUNT)%nat ->
    ((1 <= i)%nat -> Z.testbit contributors (Z.of_nat i) = true ->
     mixSaturated st' !!! i = MIXER_SATURATION_TIME /\ mixerSaturated i st' = true) /\
    (Z.testbit contributors (Z.of_nat i) = false ->
     mixSaturated st' !!! i = mixSaturated st !!! i) /\
    (i = 0%nat -> mixSaturated st' !!! i = mixSaturated st !!! i).
Proof.
  intros H32 Hlen HT contributors st'.
  destruct (saturate_loop o (seq 1 (MIXER_INPUT_COUNT - 1)) st) as (Hframe & _ & Hcnt).
  fold (mixerSaturateOutput o st) in Hframe, Hcnt. fold st' in Hframe, Hcnt.
  split; [exact Hframe|].
  intros i Hi. rewrite <- Hlen in Hi.
  destruct (Hcnt i Hi) as [Hset Hkeep]. rewrite Hlen in Hi.
  assert (Hbit : negb (Z.land (mixOutputMap st !!! o) (BIT i) =? 0) =
                 Z.testbit contributors (Z.of_nat i))
    by (apply land_BIT; lia).
  split; [|split].
  - intros H1 Hb.
    assert (Hv : mixSaturated st' !!! i = MIXER_SATURATION_TIME).
    { rewrite Hset.
      - unfold to_uint16. apply Z.mod_small. lia.
      - apply elem_of_seq. lia.
      - rewrite Hbit. exact Hb. }
    split; [exact Hv|]. unfold mixerSaturated. rewrite Hv. lia.
  - intros Hb. apply Hkeep. intros [_ Hm]. congruence.
  - intros ->. apply Hkeep. intros [Hin _].
    apply elem_of_seq in Hin. lia.
Qed.

End Saturation.

Section SaturationRuns.
Import Sample.

(** A run of C9: after the rules of [targetConfiguration], servo 1 has
    the stabilised roll as its one contributor; saturating it marks roll
    and leaves pitch alone. *)
Lemma saturateOutput_contributors_witness :
  let st := mixerUpdate flying (cfg 0 0 0 0) (booted (cfg 0 0 0 0)) in
  let st' := mixerSaturateOutput 1 st in
  mixOutputMap st !!! 1%nat = 2 /\
  mixerSaturated 1 st' = true /\
  mixSaturated st' !!! 2%nat = mixSaturated st !!! 2%nat.
Proof.
  intros st st'.
  destruct (saturateOutput_contributors 1 st) as (_ & Hcnt).
  - vm_compute. lia.
  - reflexivity.
  - vm_compute. split; reflexivity.
  - split; [reflexivity|]. split.
    + destruct (Hcnt 1%nat) as ((_ & Hsat) & _ & _);
        [vm_compute; lia|lia|reflexivity|exact Hsat].
    + destruct (Hcnt 2%nat) as (_ & Hkeep & _);
        [vm_compute; lia|apply Hkeep; reflexivity].
Defined.

(** C9 as stated fails on the code: a rule reading input 0 records bit 0
    in the bitmap of its output, and [mixerSaturateOutput], whose loop
    starts at 1, does not saturate input 0. *)
Lemma saturateOutput_input0_counterexample :
  let st' := mixerSaturateOutput 1 offset_mixed in
  Z.testbit (mixOutputMap offset_mixed !!! 1%nat) 0 = true /\
  mixSaturated st' !!! 0%nat = 0 /\
  mixerSaturated 0 st' = false.
Proof. vm_compute. repeat split; reflexivity. Qed.

End SaturationRuns.

(** ** Initialisation *)

Section Init.
Context `{Header}.

(** Loading slot [j] leaves slot [i] alone when [i] is another slot or
    the persisted operator of slot [i] is NONE. *)
Lemma mixerInitRule_slot (cfg : config) (st : mixer) (i j : nat) :
  oper (mixerRules cfg !!! i) = 0 ->
  rules (mixerInitRule cfg st j) !! i = rules st !! i.
Proof.
  intros Hop. unfold mixerInitRule.
  destruct (negb (oper (mixerRules cfg !!! j) =? 0)) eqn:Hj; [|reflexivity].
  simpl. apply list_lookup_insert_ne.
  intros ->. rewrite Hop in Hj. discriminate.
Qed.

Lemma mixerInit_rule_loop (cfg : config) (i : nat) (l : list nat) :
  oper (mixerRules cfg !!! i) = 0 ->
  forall st, rules (fold_left (mixerInitRule cfg) l st) !! i = rules st !! i.
Proof.
  intros Hop. induction l as [|j l IH]; intros st; simpl; [reflexivity|].
  rewrite IH. apply mixerInitRule_slot. exact Hop.
Qed.

Lemma override_loop_rules (l : list nat) :
  forall st,
    rules (fold_left
             (fun st i =>
                with_mixOverride
                  (<[i := to_int16 MIXER_OVERRIDE_OFF]> (mixOverride st)) st)
             l st) = rules st.
Proof.
  induction l as [|j l IH]; intros st; simpl; [reflexivity|].
  rewrite IH. reflexivity.
Qed.

Lemma mixerInitSwash_rules (cfg : config) (st : mixer) :
  rules (mixerInitSwash cfg st) = rules st.
Proof.
  unfold mixerInitSwash.
  destruct (negb (swash_phase _ =? 0)); destruct (negb (swash_ring _ =? 0));
    reflexivity.
Qed.

(** C10. A persisted rule slot whose operator is NONE is skipped by
    [mixerInit]: the internal slot keeps the mode, operator, indices,
    offset and weight it had, and so applies after the call exactly when
    it did before; this holds in particular when the mixer had been
    initialised before from a table in which that slot was in use. *)
Theorem mixerInit_keeps_none_slot (cfg : config) (st : mixer) (i : nat) :
  oper (mixerRules cfg !!! i) = 0 ->
  rules (mixerInit cfg st) !! i = rules st !! i /\
  (forall mask,
     ruleApplies mask (rules (mixerInit cfg st) !!! i) =
     ruleApplies mask (rules st !!! i)) /\
  (forall cfg0 st0,
     rules (mixerInit cfg (mixerInit cfg0 st0)) !! i = rules (mixerInit cfg0 st0) !! i).
Proof.
  intros Hop.
  assert (Hkeep : forall s, rules (mixerInit cfg s) !! i = rules s !! i).
  { intros s. unfold mixerInit.
    rewrite mixerInitSwash_rules. simpl.
    rewrite override_loop_rules.
    apply mixerInit_rule_loop. exact Hop. }
  split; [apply Hkeep|]. split.
  - intros mask. rewrite !list_lookup_total_alt, Hkeep. reflexivity.
  - intros cfg0 st0. apply Hkeep.
Qed.

End Init.

Section InitRuns.
Import Sample.

(** A run of C10: boot with the rules of [targetConfiguration], switch
    the persisted rule 0 to NONE and initialise again: the internal rule 0
    is still the SET of roll to servo 1, and still applies. *)
Lemma mixerInit_keeps_none_slot_witness :
  let st := booted (cfg 0 0 0 0) in
  let st' := mixerInit rule0_off st in
  rules st' !! 0%nat = Some (targetRule 1 1) /\
  ruleApplies (flightModeMask flying) (rules st' !!! 0%nat) = true.
Proof.
  intros st st'.
  destruct (mixerInit_keeps_none_slot rule0_off st 0) as (Hslot & Happ & _).
  - reflexivity.
  - split.
    + exact (eq_trans Hslot eq_refl).
    + exact (eq_trans (Happ (flightModeMask flying)) eq_refl).
Defined.

End InitRuns.

(** ** Proof steps shared by the operations *)

(** Splits the branches of an operation and closes each by computation. *)
Ltac by_cases_refl :=
  repeat match goal with
         | |- context [if ?c then _ else _] => destruct c
         end;
  simpl; rewrite ?length_insert; try reflexivity; try tauto.

(** ** Frames of the operations *)

Section Frames.
Context `{Header} `{Firmware}.

Lemma mixerSetInput_loaded (e : env) (cfg : config) (i : nat) (v : float) (st : mixer) :
  loaded (mixerSetInput e cfg i v st) = loaded st.
Proof. unfold mixerSetInput, loaded. by_cases_refl. Qed.

Lemma swashPhasing_loaded (st : mixer) : loaded (swashPhasing st) = loaded st.
Proof. unfold swashPhasing, loaded. by_cases_refl. Qed.

Lemma swashRing_loaded (cfg : config) (st : mixer) : loaded (swashRing cfg st) = loaded st.
Proof. unfold swashRing, loaded. by_cases_refl. Qed.

Lemma mixerCyclicLimit_loaded (cfg : config) (st : mixer) :
  loaded (mixerCyclicLimit cfg st) = loaded st.
Proof.
  unfold mixerCyclicLimit.
  transitivity (loaded (swashRing cfg (swashPhasing st))); [reflexivity|].
  rewrite swashRing_loaded. apply swashPhasing_loaded.
Qed.

Lemma mixerUpdateMotorizedTail_loaded (e : env) (cfg : config) (st : mixer) :
  loaded (mixerUpdateMotorizedTail e cfg st) = loaded st.
Proof.
  unfold mixerUpdateMotorizedTail, loaded.
  destruct (mixerIsTailMode cfg TAIL_MODE_MOTORIZED); [reflexivity|].
  destruct (mixerIsTailMode cfg TAIL_MODE_BIDIRECTIONAL); reflexivity.
Qed.

Lemma decaySaturation_loaded (st : mixer) : loaded (decaySaturation st) = loaded st.
Proof.
  unfold decaySaturation. generalize (seq 0 MIXER_INPUT_COUNT). intros l.
  revert st. induction l as [|i l IH]; intros st; simpl; [reflexivity|].
  rewrite IH. destruct (negb _); reflexivity.
Qed.

Lemma setInputs_loaded (e : env) (cfg : config) (base : nat) (f : nat -> float)
    (l : list nat) :
  forall st,
    loaded (fold_left (fun st i => mixerSetInput e cfg (base + i) (f i) st) l st) =
    loaded st.
Proof.
  induction l as [|i l IH]; intros st; simpl; [reflexivity|].
  rewrite IH. apply mixerSetInput_loaded.
Qed.

Lemma mixerApplyRule_loaded (cfg : config) (mask : Z) (st : mixer) (r : mixerRule_t) :
  loaded (mixerApplyRule cfg mask st r) = loaded st.
Proof. unfold mixerApplyRule, loaded. by_cases_refl. Qed.

Lemma mixerApplyRules_loaded (cfg : config) (mask : Z) (table : list mixerRule_t) :
  forall st, loaded (mixerApplyRules cfg mask table st) = loaded st.
Proof.
  unfold mixerApplyRules.
  induction table as [|r table IH]; intros st; simpl; [reflexivity|].
  rewrite IH. apply mixerApplyRule_loaded.
Qed.

Lemma mixerResetOutputs_loaded (st : mixer) : loaded (mixerResetOutputs st) = loaded st.
Proof.
  unfold mixerResetOutputs. generalize (seq 0 MIXER_OUTPUT_COUNT). intros l.
  revert st. induction l as [|i l IH]; intros st; simpl; [reflexivity|].
  rewrite IH. reflexivity.
Qed.

Lemma mixerUpdate_loaded (e : env) (cfg : config) (st : mixer) :
  loaded (mixerUpdate e cfg st) = loaded st.
Proof.
  unfold mixerUpdate. rewrite mixerApplyRules_loaded. apply mixerResetOutputs_loaded.
Qed.

Lemma mixerUpdateInputs_loaded (e : env) (cfg : config) (x : producers) (st : mixer) :
  loaded (mixerUpdateInputs e cfg x st) = loaded st.
Proof.
  unfold mixerUpdateInputs.
  assert (Htail : forall s, loaded (if mixerMotorizedTail (mixerConfig cfg)
                                    then mixerUpdateMotorizedTail e cfg s else s) = loaded s).
  { intros s. destruct (mixerMotorizedTail _); [|reflexivity].
    apply mixerUpdateMotorizedTail_loaded. }
  rewrite Htail, !mixerSetInput_loaded, mixerCyclicLimit_loaded.
  destruct (negb (FLIGHT_MODE e PASSTHRU_MODE));
    rewrite !mixerSetInput_loaded, (setInputs_loaded e cfg MIXER_IN_RC_CHANNEL_ROLL),
      !mixerSetInput_loaded; apply decaySaturation_loaded.
Qed.

(** X1. A whole tick leaves what [mixerInit] loaded as it is: the rule
    table, the overrides, the tail idle, the phase sine and cosine and the
    ring limit. *)
Theorem tick_keeps_loaded (e : env) (cfg : config) (x : producers) (st : mixer) :
  let st' := mixerUpdateTick e cfg x st in
  rules st' = rules st /\
  mixOverride st' = mixOverride st /\
  tailMotorIdle st' = tailMotorIdle st /\
  phaseSin st' = phaseSin st /\
  phaseCos st' = phaseCos st /\
  cyclicLimit st' = cyclicLimit st.
Proof.
  intros st'.
  assert (Hl : loaded st' = loaded st).
  { subst st'. unfold mixerUpdateTick.
    rewrite mixerUpdate_loaded. apply mixerUpdateInputs_loaded. }
  unfold loaded in Hl. injection Hl. intros. tauto.
Qed.

End Frames.

(** ** Saturation counters over a tick *)

Section Counters.
Context `{Header} `{Firmware}.

Lemma same_or_full_refl (l : list Z) : same_or_full l l.
Proof. split; auto. Qed.

Lemma same_or_full_trans (a b c : list Z) :
  same_or_full a b -> same_or_full b c -> same_or_full a c.
Proof.
  intros [Hl1 H1] [Hl2 H2]. split; [congruence|].
  intros i. destruct (H2 i) as [Hf|He]; [auto|].
  rewrite He. apply H1.
Qed.

Lemma insert_full (l : list Z) (j : nat) :
  same_or_full l (<[j := to_uint16 MIXER_SATURATION_TIME]> l).
Proof.
  split; [apply length_insert|].
  intros i. rewrite list_lookup_total_insert.
  destruct (decide (j = i /\ (j < length l)%nat)); auto.
Qed.

Lemma mixerSetInput_counters (e : env) (cfg : config) (i : nat) (v : float) (st : mixer) :
  same_or_full (mixSaturated st) (mixSaturated (mixerSetInput e cfg i v st)).
Proof.
  unfold mixerSetInput.
  destruct (gt _ _); [|destruct (lt _ _)]; simpl;
    auto using insert_full, same_or_full_refl.
Qed.

Lemma mixerCyclicLimit_counters (cfg : config) (st : mixer) :
  same_or_full (mixSaturated st) (mixSaturated (mixerCyclicLimit cfg st)).
Proof.
  unfold mixerCyclicLimit. simpl.
  assert (Hp : mixSaturated (swashPhasing st) = mixSaturated st)
    by (unfold swashPhasing; destruct (ne _ _); reflexivity).
  rewrite <- Hp. generalize (swashPhasing st). intros s.
  unfold swashRing.
  destruct (gt (cyclicLimit s) zero); [|apply same_or_full_refl].
  destruct (gt _ one); [|apply same_or_full_refl].
  simpl. eapply same_or_full_trans; apply insert_full.
Qed.

Lemma mixerUpdateMotorizedTail_counters (e : env) (cfg : config) (st : mixer) :
  mixSaturated (mixerUpdateMotorizedTail e cfg st) = mixSaturated st.
Proof.
  unfold mixerUpdateMotorizedTail.
  destruct (mixerIsTailMode cfg TAIL_MODE_MOTORIZED); [reflexivity|].
  destruct (mixerIsTailMode cfg TAIL_MODE_BIDIRECTIONAL); reflexivity.
Qed.

Lemma setInputs_counters (e : env) (cfg : config) (base : nat) (f : nat -> float)
    (l : list nat) :
  forall st,
    same_or_full (mixSaturated st)
      (mixSaturated (fold_left (fun st i => mixerSetInput e cfg (base + i) (f i) st) l st)).
Proof.
  induction l as [|i l IH]; intros st; simpl; [apply same_or_full_refl|].
  eapply same_or_full_trans; [|apply IH]. apply mixerSetInput_counters.
Qed.

(** The decay loop over distinct indices: one step down on each. *)
Lemma decay_loop (l : list nat) :
  NoDup l ->
  forall st,
    let st' :=
      fold_left
        (fun st i =>
           if negb (mixSaturated st !!! i =? 0)
           then with_mixSaturated
                  (<[i := to_uint16 (mixSaturated st !!! i - 1)]> (mixSaturated st)) st
           else st) l st in
    length (mixSaturated st') = length (mixSaturated st) /\
    forall i,
      (i ∈ l -> (i < length (mixSaturated st))%nat ->
       mixSaturated st' !!! i = decayed (mixSaturated st !!! i)) /\
      (i ∉ l -> mixSaturated st' !!! i = mixSaturated st !!! i).
Proof.
  induction 1 as [|j l Hj Hnd IH]; intros st st'.
  - subst st'. simpl. split; [reflexivity|]. intros i. split; [|reflexivity].
    intros Hin. apply elem_of_nil in Hin. contradiction.
  - subst st'. simpl.
    set (st1 := if negb (mixSaturated st !!! j =? 0)
                then with_mixSaturated
                       (<[j := to_uint16 (mixSaturated st !!! j - 1)]> (mixSaturated st)) st
                else st).
    assert (Hlen1 : length (mixSaturated st1) = length (mixSaturated st))
      by (subst st1; destruct (negb _); simpl; rewrite ?length_insert; reflexivity).
    assert (Hj1 : (j < length (mixSaturated st))%nat ->
                  mixSaturated st1 !!! j = decayed (mixSaturated st !!! j)).
    { intros Hlt. subst st1. unfold decayed.
      destruct (mixSaturated st !!! j =? 0); simpl; [reflexivity|].
      apply list_lookup_total_insert_eq. exact Hlt. }
    assert (Hother : forall i, i <> j -> mixSaturated st1 !!! i = mixSaturated st !!! i).
    { intros i Hne. subst st1. destruct (negb _); [|reflexivity].
      simpl. apply list_lookup_total_insert_ne. auto. }
    destruct (IH st1) as [Hlen Hcnt].
    split; [congruence|].
    intros i. destruct (Hcnt i) as [Hin Hout]. split.
    + intros Hi Hlt. apply elem_of_cons in Hi. destruct Hi as [->|Hi].
      * rewrite Hout by exact Hj. auto.
      * rewrite Hin; [|exact Hi|lia].
        rewrite Hother; [reflexivity|]. intros ->. contradiction.
    + intros Hi. rewrite Hout.
      * apply Hother. intros ->. apply Hi. apply elem_of_cons. auto.
      * intros Hl. apply Hi. apply elem_of_cons. auto.
Qed.

Lemma decaySaturation_counters (st : mixer) :
  length (mixSaturated st) = MIXER_INPUT_COUNT ->
  length (mixSaturated (decaySaturation st)) = MIXER_INPUT_COUNT /\
  forall i, (i < MIXER_INPUT_COUNT)%nat ->
    mixSaturated (decaySaturation st) !!! i = decayed (mixSaturated st !!! i).
Proof.
  intros Hlen.
  destruct (decay_loop (seq 0 MIXER_INPUT_COUNT) (NoDup_seq _ _) st) as [Hl Hc].
  fold (decaySaturation st) in Hl, Hc.
  split; [congruence|].
  intros i Hi. destruct (Hc i) as [Hin _].
  apply Hin; [apply elem_of_seq; lia|lia].
Qed.

Lemma decayed_range (v : Z) : 0 <= v < 2 ^ 16 -> decayed v = Z.max 0 (v - 1).
Proof.
  intros Hv. unfold decayed, to_uint16.
  destruct (Z.eqb_spec v 0); [lia|].
  rewrite Z.mod_small by lia. lia.
Qed.

(** X2. Saturation decay. After [mixerSaturateInput i], [k] passes of the
    decay loop with nothing marking the input again leave its counter at
    [MIXER_SATURATION_TIME - k], floored at 0: the input reads as saturated
    for exactly [MIXER_SATURATION_TIME] ticks. *)
Theorem saturation_decay (i : nat) (st : mixer) (k : nat) :
  length (mixSaturated st) = MIXER_INPUT_COUNT ->
  (i < MIXER_INPUT_COUNT)%nat ->
  0 < MIXER_SATURATION_TIME < 2 ^ 16 ->
  let st' := Nat.iter k decaySaturation (mixerSaturateInput i st) in
  mixSaturated st' !!! i = Z.max 0 (MIXER_SATURATION_TIME - Z.of_nat k) /\
  (mixerSaturated i st' = true <-> Z.of_nat k < MIXER_SATURATION_TIME).
Proof.
  intros Hlen Hi HT st'.
  assert (Hk : length (mixSaturated st') = MIXER_INPUT_COUNT /\
               mixSaturated st' !!! i = Z.max 0 (MIXER_SATURATION_TIME - Z.of_nat k)).
  { subst st'. induction k as [|k IH].
    - simpl. rewrite length_insert. split; [exact Hlen|].
      rewrite list_lookup_total_insert_eq by lia.
      unfold to_uint16. rewrite Z.mod_small by lia. lia.
    - destruct IH as [Hl Hv]. simpl.
      destruct (decaySaturation_counters _ Hl) as [Hl' Hc].
      split; [exact Hl'|].
      rewrite Hc, Hv, decayed_range by lia. lia. }
  destruct Hk as [_ Hv]. split; [exact Hv|].
  unfold mixerSaturated. rewrite Hv. lia.
Qed.

Lemma mixerUpdate_counters_unchanged (e : env) (cfg : config) (st : mixer) :
  mixSaturated (mixerUpdate e cfg st) = mixSaturated st.
Proof.
  unfold mixerUpdate, mixerApplyRules, mixerResetOutputs.
  assert (Hrules : forall table s,
             mixSaturated (fold_left (mixerApplyRule cfg (flightModeMask e)) table s) =
             mixSaturated s).
  { induction table as [|r table IH]; intros s; simpl; [reflexivity|].
    rewrite IH. unfold mixerApplyRule. by_cases_refl. }
  rewrite Hrules. generalize (seq 0 MIXER_OUTPUT_COUNT). intros l.
  revert st. induction l as [|j l IH]; intros st; simpl; [reflexivity|].
  rewrite IH. reflexivity.
Qed.

(** X3. Over the inputs part of a tick every saturation counter ends
    either full or one step down from where it was (0 stays 0), so
    counters that were within [0, MIXER_SATURATION_TIME] stay there; the
    outputs part does not touch them. *)
Theorem tick_counters (e : env) (cfg : config) (x : producers) (st : mixer) (i : nat) :
  length (mixSaturated st) = MIXER_INPUT_COUNT ->
  (i < MIXER_INPUT_COUNT)%nat ->
  0 <= MIXER_SATURATION_TIME < 2 ^ 16 ->
  let old := mixSaturated st !!! i in
  let new := mixSaturated (mixerUpdateInputs e cfg x st) !!! i in
  (new = MIXER_SATURATION_TIME \/ new = decayed old) /\
  (0 <= old <= MIXER_SATURATION_TIME -> 0 <= new <= MIXER_SATURATION_TIME) /\
  mixSaturated (mixerUpdateTick e cfg x st) = mixSaturated (mixerUpdateInputs e cfg x st).
Proof.
  intros Hlen Hi HT old new.
  destruct (decaySaturation_counters st Hlen) as [_ Hdec].
  assert (Hsf : same_or_full (mixSaturated (decaySaturation st))
                  (mixSaturated (mixerUpdateInputs e cfg x st))).
  { unfold mixerUpdateInputs.
    assert (Htail : forall s,
               mixSaturated (if mixerMotorizedTail (mixerConfig cfg)
                             then mixerUpdateMotorizedTail e cfg s else s) =
               mixSaturated s).
    { intros s. destruct (mixerMotorizedTail _); [|reflexivity].
      apply mixerUpdateMotorizedTail_counters. }
    rewrite Htail.
    repeat (eapply same_or_full_trans; [|apply mixerSetInput_counters]).
    eapply same_or_full_trans; [|apply mixerCyclicLimit_counters].
    destruct (negb (FLIGHT_MODE e PASSTHRU_MODE));
      repeat (eapply same_or_full_trans; [|apply mixerSetInput_counters]);
      (eapply same_or_full_trans;
       [|apply (setInputs_counters e cfg MIXER_IN_RC_CHANNEL_ROLL)]);
      repeat (eapply same_or_full_trans; [|apply mixerSetInput_counters]);
      apply same_or_full_refl. }
  destruct Hsf as [_ Hsf].
  assert (Hnew : new = MIXER_SATURATION_TIME \/ new = decayed old).
  { subst new old. destruct (Hsf i) as [Hf|Hs].
    - left. rewrite Hf. unfold to_uint16. apply Z.mod_small. lia.
    - right. rewrite Hs. apply Hdec. exact Hi. }
  split; [exact Hnew|]. split.
  - intros Hold. destruct Hnew as [->| ->]; [lia|].
    rewrite decayed_range by lia. lia.
  - unfold mixerUpdateTick.
    apply mixerUpdate_counters_unchanged.
Qed.

End Counters.

(** ** The outputs of a tick *)

Section Outputs.
Context `{Header}.

Lemma testbit_BIT (s : nat) (j : Z) :
  Z.testbit (BIT s) j = true -> j = Z.of_nat s.
Proof.
  unfold BIT, to_uint32. rewrite Z.shiftl_1_l. intros Hb.
  destruct (Z.lt_ge_cases j 0) as [Hneg|Hpos].
  - rewrite Z.testbit_neg_r in Hb by lia. discriminate.
  - destruct (Z.lt_ge_cases j 32) as [Hlow|Hhigh].
    + rewrite Z.mod_pow2_bits_low, Z.pow2_bits_eqb in Hb by lia.
      apply Z.eqb_eq in Hb. lia.
    + rewrite Z.mod_pow2_bits_high in Hb by lia. discriminate.
Qed.

Lemma BIT_high (s : nat) : (32 <= s)%nat -> BIT s = 0.
Proof.
  intros Hs. apply Z.bits_inj'. intros n Hn. rewrite Z.bits_0.
  destruct (Z.testbit (BIT s) n) eqn:Hb; [|reflexivity].
  pose proof (testbit_BIT s n Hb) as ->.
  unfold BIT, to_uint32 in Hb.
  rewrite Z.mod_pow2_bits_high in Hb by lia. discriminate.
Qed.

(** The reset loop over any list of output indices. *)
Lemma reset_loop (l : list nat) :
  forall st,
    let st' :=
      fold_left
        (fun st i =>
           let st := with_mixOutput (<[i := zero]> (mixOutput st)) st in
           with_mixOutputMap (<[i := 0]> (mixOutputMap st)) st) l st in
    mixInput st' = mixInput st /\
    length (mixOutput st') = length (mixOutput st) /\
    length (mixOutputMap st') = length (mixOutputMap st) /\
    forall i,
      (i ∈ l -> (i < length (mixOutput st))%nat -> mixOutput st' !!! i = zero) /\
      (i ∈ l -> (i < length (mixOutputMap st))%nat -> mixOutputMap st' !!! i = 0) /\
      (i ∉ l -> mixOutput st' !!! i = mixOutput st !!! i /\
                mixOutputMap st' !!! i = mixOutputMap st !!! i).
Proof.
  induction l as [|j l IH]; intros st st'.
  - subst st'. simpl. repeat apply conj; try reflexivity.
    intros i. repeat apply conj; try (intros Hin; apply elem_of_nil in Hin; contradiction).
    auto.
  - subst st'. simpl.
    set (st1 := with_mixOutputMap (<[j := 0]> (mixOutputMap st))
                  (with_mixOutput (<[j := zero]> (mixOutput st)) st)).
    destruct (IH st1) as (Hin & Hlo & Hlm & Hc).
    subst st1. simpl in Hin, Hlo, Hlm.
    rewrite length_insert in Hlo. rewrite length_insert in Hlm.
    repeat apply conj; try assumption.
    intros i. destruct (Hc i) as (Hz & Hm & Hkeep). simpl in Hz, Hm, Hkeep.
    rewrite length_insert in Hz. rewrite length_insert in Hm.
    destruct (decide (i ∈ l)) as [Hl|Hl].
    + repeat apply conj; auto.
      intros Hno. exfalso. apply Hno. apply elem_of_cons. auto.
    + destruct (Hkeep Hl) as [Ho Hmap].
      repeat apply conj.
      * intros Hi Hlt. apply elem_of_cons in Hi. destruct Hi as [->|Hi]; [|contradiction].
        rewrite Ho. apply list_lookup_total_insert_eq. exact Hlt.
      * intros Hi Hlt. apply elem_of_cons in Hi. destruct Hi as [->|Hi]; [|contradiction].
        rewrite Hmap. apply list_lookup_total_insert_eq. exact Hlt.
      * intros Hno. rewrite Ho, Hmap.
        rewrite !list_lookup_total_insert_ne; auto;
          intros ->; apply Hno; apply elem_of_cons; auto.
Qed.

Lemma mixerResetOutputs_zero (st : mixer) :
  length (mixOutput st) = MIXER_OUTPUT_COUNT ->
  length (mixOutputMap st) = MIXER_OUTPUT_COUNT ->
  mixInput (mixerResetOutputs st) = mixInput st /\
  mixOutput (mixerResetOutputs st) = replicate MIXER_OUTPUT_COUNT zero /\
  mixOutputMap (mixerResetOutputs st) = replicate MIXER_OUTPUT_COUNT 0.
Proof.
  intros Hlo Hlm.
  destruct (reset_loop (seq 0 MIXER_OUTPUT_COUNT) st) as (Hin & Hlo' & Hlm' & Hc).
  fold (mixerResetOutputs st) in Hin, Hlo', Hlm', Hc.
  split; [exact Hin|]. split.
  - apply (list_eq_same_length _ _ MIXER_OUTPUT_COUNT);
      [apply length_replicate|exact (eq_trans Hlo' Hlo)|].
    intros i a b Hi Ha Hb.
    apply lookup_replicate in Hb as [-> _].
    destruct (Hc i) as (Hz & _ & _).
    rewrite <- (Hz ltac:(apply elem_of_seq; lia) ltac:(lia)).
    symmetry. apply list_lookup_total_correct. exact Ha.
  - apply (list_eq_same_length _ _ MIXER_OUTPUT_COUNT);
      [apply length_replicate|exact (eq_trans Hlm' Hlm)|].
    intros i a b Hi Ha Hb.
    apply lookup_replicate in Hb as [-> _].
    destruct (Hc i) as (_ & Hz & _).
    rewrite <- (Hz ltac:(apply elem_of_seq; lia) ltac:(lia)).
    symmetry. apply list_lookup_total_correct. exact Ha.
Qed.

(** The rule loop reads the inputs and the outputs so far, nothing else. *)
Lemma mixerApplyRules_determined (cfg : config) (mask : Z) (table : list mixerRule_t) :
  forall s s2,
    mixInput s2 = mixInput s ->
    mixOutput s2 = mixOutput s ->
    mixOutputMap s2 = mixOutputMap s ->
    mixOutput (mixerApplyRules cfg mask table s2) =
      mixOutput (mixerApplyRules cfg mask table s) /\
    mixOutputMap (mixerApplyRules cfg mask table s2) =
      mixOutputMap (mixerApplyRules cfg mask table s).
Proof.
  unfold mixerApplyRules.
  induction table as [|r table IH]; intros s s2 Hi Ho Hm; simpl; [auto|].
  apply IH.
  - rewrite !mixerApplyRule_mixInput. exact Hi.
  - unfold mixerApplyRule, ruleOutput.
    destruct (ruleApplies mask r); [|exact Ho].
    destruct (oper r =? MIXER_OP_SET); [simpl; rewrite Hi, Ho; reflexivity|].
    destruct (oper r =? MIXER_OP_ADD); [simpl; rewrite Hi, Ho; reflexivity|].
    destruct (oper r =? MIXER_OP_MUL); [simpl; rewrite Hi, Ho; reflexivity|exact Ho].
  - unfold mixerApplyRule.
    destruct (ruleApplies mask r); [|exact Hm].
    destruct (oper r =? MIXER_OP_SET); [simpl; rewrite Hm; reflexivity|].
    destruct (oper r =? MIXER_OP_ADD); [simpl; rewrite Hm; reflexivity|].
    destruct (oper r =? MIXER_OP_MUL); [simpl; rewrite Hm; reflexivity|exact Hm].
Qed.

(** X4. The outputs are recomputed from zero on every tick: two states
    with the same inputs and rule table get the same outputs and
    contributor bitmaps whatever their outputs were before, and an output
    that no applicable rule writes ends at 0 with no contributor. *)
Theorem outputs_recomputed (e : env) (cfg : config) (st st2 : mixer) :
  length (mixOutput st) = MIXER_OUTPUT_COUNT ->
  length (mixOutputMap st) = MIXER_OUTPUT_COUNT ->
  length (mixOutput st2) = MIXER_OUTPUT_COUNT ->
  length (mixOutputMap st2) = MIXER_OUTPUT_COUNT ->
  mixInput st2 = mixInput st ->
  rules st2 = rules st ->
  mixOutput (mixerUpdate e cfg st2) = mixOutput (mixerUpdate e cfg st) /\
  mixOutputMap (mixerUpdate e cfg st2) = mixOutputMap (mixerUpdate e cfg st) /\
  forall o, (o < MIXER_OUTPUT_COUNT)%nat ->
    Forall (fun r => ruleApplies (flightModeMask e) r = false \/ Z.to_nat (output r) <> o)
           (firstn MIXER_RULE_COUNT (rules st)) ->
    mixOutput (mixerUpdate e cfg st) !!! o = zero /\
    mixOutputMap (mixerUpdate e cfg st) !!! o = 0.
Proof.
  intros Hlo Hlm Hlo2 Hlm2 Hin Hrules.
  destruct (mixerResetOutputs_zero st Hlo Hlm) as (Hi & Ho & Hm).
  destruct (mixerResetOutputs_zero st2 Hlo2 Hlm2) as (Hi2 & Ho2 & Hm2).
  assert (Hr : forall s, rules (mixerResetOutputs s) = rules s).
  { intros s. unfold mixerResetOutputs. generalize (seq 0 MIXER_OUTPUT_COUNT).
    intros l. revert s. induction l as [|j l IH]; intros s; simpl; [reflexivity|].
    rewrite IH. reflexivity. }
  unfold mixerUpdate. rewrite !Hr, Hrules.
  destruct (mixerApplyRules_determined cfg (flightModeMask e)
              (firstn MIXER_RULE_COUNT (rules st))
              (mixerResetOutputs st) (mixerResetOutputs st2)) as [-> ->];
    [congruence|congruence|congruence|].
  split; [reflexivity|]. split; [reflexivity|].
  intros o Ho' Hpost.
  destruct (mixerApplyRules_other cfg (flightModeMask e) o _ Hpost
              (mixerResetOutputs st)) as [-> ->].
  rewrite Ho, Hm. rewrite !lookup_total_replicate_2 by lia. auto.
Qed.

(** One rule adds no contributor bit other than its own source on its
    own destination. *)
Lemma mixerApplyRule_bits (cfg : config) (mask : Z) (Q : nat -> Z -> Prop)
    (s : mixer) (r : mixerRule_t) :
  (forall o j, (o < length (mixOutputMap s))%nat ->
     Z.testbit (mixOutputMap s !!! o) j = true -> Q o j) ->
  (ruleApplies mask r = true ->
   Q (Z.to_nat (output r)) (Z.of_nat (Z.to_nat (input r)))) ->
  forall o j, (o < length (mixOutputMap s))%nat ->
    Z.testbit (mixOutputMap (mixerApplyRule cfg mask s r) !!! o) j = true -> Q o j.
Proof.
  intros Hold Hr o j Ho. unfold mixerApplyRule.
  destruct (ruleApplies mask r); [|apply Hold; exact Ho].
  specialize (Hr eq_refl).
  assert (Hset : forall v,
             (forall k, Z.testbit v k = true ->
                Z.testbit (mixOutputMap s !!! Z.to_nat (output r)) k = true \/
                k = Z.of_nat (Z.to_nat (input r))) ->
             Z.testbit (<[Z.to_nat (output r) := v]> (mixOutputMap s) !!! o) j = true ->
             Q o j).
  { intros v Hv. rewrite list_lookup_total_insert.
    destruct (decide (Z.to_nat (output r) = o /\ _)) as [[<- _]|_]; [|apply Hold; exact Ho].
    intros Hb. destruct (Hv j Hb) as [Hb'| ->]; [apply Hold; assumption|exact Hr]. }
  destruct (oper r =? MIXER_OP_SET).
  { simpl. apply Hset. intros k Hk. right. apply testbit_BIT. exact Hk. }
  destruct (oper r =? MIXER_OP_ADD).
  { simpl. apply Hset. intros k Hk. rewrite Z.lor_spec in Hk.
    apply orb_true_iff in Hk as [Hk|Hk]; [auto|right; apply testbit_BIT; exact Hk]. }
  destruct (oper r =? MIXER_OP_MUL).
  { simpl. apply Hset. intros k Hk. rewrite Z.lor_spec in Hk.
    apply orb_true_iff in Hk as [Hk|Hk]; [auto|right; apply testbit_BIT; exact Hk]. }
  apply Hold. exact Ho.
Qed.

Lemma mixerApplyRules_bits (cfg : config) (mask : Z) (Q : nat -> Z -> Prop)
    (table : list mixerRule_t) :
  (forall r, r ∈ table -> ruleApplies mask r = true ->
     Q (Z.to_nat (output r)) (Z.of_nat (Z.to_nat (input r)))) ->
  forall s,
    (forall o j, (o < length (mixOutputMap s))%nat ->
       Z.testbit (mixOutputMap s !!! o) j = true -> Q o j) ->
    forall o j, (o < length (mixOutputMap s))%nat ->
      Z.testbit (mixOutputMap (mixerApplyRules cfg mask table s) !!! o) j = true -> Q o j.
Proof.
  unfold mixerApplyRules.
  induction table as [|r table IH]; intros Hq s Hold o j Ho; simpl; [auto|].
  apply IH.
  - intros r' Hr'. apply Hq. apply elem_of_cons. auto.
  - intros o' j' Ho'. apply mixerApplyRule_bits.
    + exact Hold.
    + apply Hq. apply elem_of_cons. auto.
    + destruct (mixerApplyRule_lengths cfg mask s r) as [_ Hl]. lia.
  - destruct (mixerApplyRule_lengths cfg mask s r) as [_ Hl]. lia.
Qed.

(** X5. The contributor bitmaps are sound: after the outputs part of a
    tick, bit [j] of the bitmap of output [o] is set only if the table
    holds an applicable rule that reads input [j] and writes output [o];
    so [mixerSaturateOutput o] changes the counter of an input only if
    such a rule exists for it. *)
Theorem contributors_sound (e : env) (cfg : config) (st : mixer) (o : nat) :
  length (mixOutput st) = MIXER_OUTPUT_COUNT ->
  length (mixOutputMap st) = MIXER_OUTPUT_COUNT ->
  (o < MIXER_OUTPUT_COUNT)%nat ->
  let st' := mixerUpdate e cfg st in
  let feeds (i : nat) :=
    exists r, r ∈ firstn MIXER_RULE_COUNT (rules st) /\
              ruleApplies (flightModeMask e) r = true /\
              Z.to_nat (output r) = o /\ Z.to_nat (input r) = i in
  (forall j, Z.testbit (mixOutputMap st' !!! o) j = true ->
     exists i, j = Z.of_nat i /\ feeds i) /\
  (forall i, (i < length (mixSaturated st'))%nat ->
     mixSaturated (mixerSaturateOutput o st') !!! i <> mixSaturated st' !!! i ->
     feeds i).
Proof.
  intros Hlo Hlm Ho st' feeds.
  destruct (mixerResetOutputs_zero st Hlo Hlm) as (_ & _ & Hm).
  assert (Hr : rules (mixerResetOutputs st) = rules st).
  { unfold mixerResetOutputs. generalize (seq 0 MIXER_OUTPUT_COUNT).
    intros l. generalize st. induction l as [|j l IH]; intros s; simpl; [reflexivity|].
    rewrite IH. reflexivity. }
  assert (Hbits : forall o' j, (o' < MIXER_OUTPUT_COUNT)%nat ->
             Z.testbit (mixOutputMap st' !!! o') j = true ->
             exists r, r ∈ firstn MIXER_RULE_COUNT (rules st) /\
                       ruleApplies (flightModeMask e) r = true /\
                       Z.to_nat (output r) = o' /\ Z.of_nat (Z.to_nat (input r)) = j).
  { intros o' j Ho'. subst st'. unfold mixerUpdate. rewrite Hr.
    apply (mixerApplyRules_bits cfg (flightModeMask e)
             (fun o j => exists r, r ∈ firstn MIXER_RULE_COUNT (rules st) /\
                                   ruleApplies (flightModeMask e) r = true /\
                                   Z.to_nat (output r) = o /\
                                   Z.of_nat (Z.to_nat (input r)) = j)).
    - intros r Hin Happ. exists r. auto.
    - intros o1 j1 Ho1. rewrite Hm.
      rewrite Hm, length_replicate in Ho1.
      rewrite lookup_total_replicate_2 by lia. rewrite Z.bits_0. discriminate.
    - rewrite Hm, length_replicate. exact Ho'. }
  split.
  - intros j Hb. destruct (Hbits o j Ho Hb) as (r & Hin & Happ & Hout & Hsrc).
    exists (Z.to_nat (input r)). split; [auto|]. exists r. auto.
  - intros i Hi Hch.
    destruct (saturate_loop o (seq 1 (MIXER_INPUT_COUNT - 1)) st') as (_ & _ & Hcnt).
    fold (mixerSaturateOutput o st') in Hcnt.
    destruct (Hcnt i Hi) as [_ Hkeep].
    destruct (negb (Z.land (mixOutputMap st' !!! o) (BIT i) =? 0)) eqn:Hmark.
    + assert (Hbo : Z.testbit (mixOutputMap st' !!! o) (Z.of_nat i) = true).
      { destruct (decide (i < 32)%nat) as [Hlow|Hhigh].
        - rewrite <- land_BIT by exact Hlow. exact Hmark.
        - rewrite BIT_high, Z.land_0_r in Hmark by lia. discriminate. }
      destruct (Hbits o (Z.of_nat i) Ho Hbo) as (r & Hin & Happ & Hout & Hsrc).
      exists r. repeat apply conj; auto. lia.
    + exfalso. apply Hch. apply Hkeep. intros [_ Hm']. congruence.
Qed.

End Outputs.

(** ** The rule engine inside [mixerUpdate] *)

Section RuleEngineTick.
Context `{Header}.

Lemma mixerResetOutputs_rules (st : mixer) :
  rules (mixerResetOutputs st) = rules st.
Proof.
  unfold mixerResetOutputs. generalize (seq 0 MIXER_OUTPUT_COUNT). intros l.
  revert st. induction l as [|j l IH]; intros st; simpl; [reflexivity|].
  rewrite IH. reflexivity.
Qed.

(** [mixerUpdate] is the rule loop, run with the flight-mode mask over
    the table, on the state with its outputs reset. *)
Lemma mixerUpdate_table (e : env) (cfg : config) (st : mixer) (table : list mixerRule_t) :
  firstn MIXER_RULE_COUNT (rules st) = table ->
  mixerUpdate e cfg st =
  mixerApplyRules cfg (flightModeMask e) table (mixerResetOutputs st) /\
  mixInput (mixerResetOutputs st) = mixInput st /\
  length (mixOutput (mixerResetOutputs st)) = length (mixOutput st) /\
  length (mixOutputMap (mixerResetOutputs st)) = length (mixOutputMap st).
Proof.
  intros Ht. unfold mixerUpdate. rewrite mixerResetOutputs_rules, Ht.
  destruct (reset_loop (seq 0 MIXER_OUTPUT_COUNT) st) as (Hin & Hlo & Hlm & _).
  auto.
Qed.

(** A destination below [MIXER_OUTPUT_COUNT] is zero after the reset. *)
Lemma mixerResetOutputs_slot (st : mixer) (dst : nat) :
  (dst < MIXER_OUTPUT_COUNT)%nat ->
  (dst < length (mixOutput st))%nat ->
  (dst < length (mixOutputMap st))%nat ->
  mixOutput (mixerResetOutputs st) !!! dst = zero /\
  mixOutputMap (mixerResetOutputs st) !!! dst = 0.
Proof.
  intros Hd Hlo Hlm.
  destruct (reset_loop (seq 0 MIXER_OUTPUT_COUNT) st) as (_ & _ & _ & Hc).
  destruct (Hc dst) as (Hv & Hm & _).
  assert (Hin : dst ∈ seq 0 MIXER_OUTPUT_COUNT) by (apply elem_of_seq; lia).
  split; [apply Hv|apply Hm]; assumption.
Qed.

(** C3. The flight-mode mask of [mixerUpdate] carries the active mode
    flags in bits 0 to 15 and their complement in bits 16 to 31. A rule
    (operator not NONE) with gate mask 0 always applies; one with a
    non-zero gate mask applies if and only if [gate & flightModeMask] is
    not zero; a rule that does not apply changes nothing. Inside
    [mixerUpdate], with the rule in the table: when it applies and is a
    SET that no later rule overwrites, its destination ends as the rule's
    value with its source as contributor; when it does not apply the tick
    runs as if the rule were not in the table, and its destination ends
    at 0 with no contributor if no other rule writes it. *)
Theorem flight_mode_gate (e : env) (cfg : config) (st : mixer) (r : mixerRule_t) :
  0 <= flightModeFlags e < 2 ^ 16 ->
  oper r <> 0 ->
  let mask := flightModeMask e in
  (forall i, 0 <= i < 16 -> Z.testbit mask i = Z.testbit (flightModeFlags e) i) /\
  (forall i, 16 <= i < 32 ->
     Z.testbit mask i = negb (Z.testbit (flightModeFlags e) (i - 16))) /\
  (mode r = 0 -> ruleApplies mask r = true) /\
  (mode r <> 0 -> (ruleApplies mask r = true <-> Z.land (mode r) mask <> 0)) /\
  (ruleApplies mask r = false -> mixerApplyRule cfg mask st r = st) /\
  (forall pre post,
     firstn MIXER_RULE_COUNT (rules st) = pre ++ r :: post ->
     let dst := Z.to_nat (output r) in
     let writes_not (r' : mixerRule_t) :=
       ruleApplies mask r' = false \/ Z.to_nat (output r') <> dst in
     (dst < length (mixOutput st))%nat ->
     (dst < length (mixOutputMap st))%nat ->
     (ruleApplies mask r = true -> oper r = MIXER_OP_SET ->
      Forall writes_not post ->
      mixOutput (mixerUpdate e cfg st) !!! dst = ruleOutput cfg st r /\
      mixOutputMap (mixerUpdate e cfg st) !!! dst = BIT (Z.to_nat (input r))) /\
     (ruleApplies mask r = false ->
      mixerUpdate e cfg st =
        mixerApplyRules cfg mask (pre ++ post) (mixerResetOutputs st) /\
      (Forall writes_not pre -> Forall writes_not post ->
       (dst < MIXER_OUTPUT_COUNT)%nat ->
       mixOutput (mixerUpdate e cfg st) !!! dst = zero /\
       mixOutputMap (mixerUpdate e cfg st) !!! dst = 0))).
Proof.
  intros Hf Hop mask.
  split; [intros i Hi; apply flightModeMask_low; auto|].
  split; [intros i Hi; apply flightModeMask_high; auto|].
  split.
  { intros Hm. unfold ruleApplies. rewrite Hm. simpl.
    rewrite andb_true_r. apply negb_true_iff, Z.eqb_neq. exact Hop. }
  split.
  { intros Hm. split.
    - unfold ruleApplies. intros Hr.
      apply andb_true_iff in Hr as [_ Hr].
      apply orb_true_iff in Hr as [Hr|Hr]; [lia|].
      apply negb_true_iff, Z.eqb_neq in Hr. exact Hr.
    - intros Hl. unfold ruleApplies.
      apply andb_true_iff. split.
      + apply negb_true_iff, Z.eqb_neq. exact Hop.
      + apply orb_true_iff. right. apply negb_true_iff, Z.eqb_neq. exact Hl. }
  split; [apply mixerApplyRule_skipped|].
  intros pre post Htable dst writes_not Hlo Hlm.
  destruct (mixerUpdate_table e cfg st _ Htable) as (Hup & Hin & Hlo0 & Hlm0).
  fold mask in Hup. split.
  - intros Hr Hset Hpost. rewrite Hup, mixerApplyRules_app, mixerApplyRules_cons.
    set (s0 := mixerApplyRules cfg mask pre (mixerResetOutputs st)).
    assert (Hin0 : mixInput s0 = mixInput st).
    { unfold s0. rewrite mixerApplyRules_mixInput. exact Hin. }
    destruct (mixerApplyRules_lengths cfg mask pre (mixerResetOutputs st))
      as [Hlo1 Hlm1].
    fold s0 in Hlo1, Hlm1.
    destruct (mixerApplyRules_other cfg mask dst post Hpost
                (mixerApplyRule cfg mask s0 r)) as [-> ->].
    destruct (mixerApplyRule_set cfg mask s0 r Hr Hset) as [Hv Hm];
      [fold dst; lia|fold dst; lia|].
    fold dst in Hv, Hm. rewrite Hv, Hm.
    rewrite (ruleOutput_inputs cfg st s0 r) by exact Hin0. auto.
  - intros Hr.
    assert (Hskip : mixerUpdate e cfg st =
                    mixerApplyRules cfg mask (pre ++ post) (mixerResetOutputs st)).
    { rewrite Hup, !mixerApplyRules_app, mixerApplyRules_cons.
      rewrite mixerApplyRule_skipped by exact Hr. reflexivity. }
    split; [exact Hskip|].
    intros Hpre Hpost Hd. rewrite Hskip.
    assert (Hall : Forall writes_not (pre ++ post))
      by (apply Forall_app; auto).
    destruct (mixerApplyRules_other cfg mask dst _ Hall (mixerResetOutputs st))
      as [-> ->].
    apply mixerResetOutputs_slot; assumption.
Qed.

(** C4. Every rule is worth
    [(offset + weight * (input[src] * rate[src] / 1000)) / 1000]; the table
    is run first slot first; SET assigns the value and makes [{src}] the
    contributors, ADD adds it and MUL multiplies by it, both adding [src]
    to the contributors. With an applicable SET rule directly followed by
    an applicable ADD rule on the same destination (and no later rule
    writing it) the destination ends as [setValue + addValue] with both
    sources as contributors; with the two rules swapped it ends as
    [setValue] with the SET source alone, so the two orders agree only
    when adding [addValue] leaves [setValue] as it is. The same holds of
    [mixerUpdate] on a state whose rule table holds the two rules in the
    one or the other order. *)
Theorem rule_engine_order (cfg : config) (mask : Z) (st : mixer)
    (pre post : list mixerRule_t) (rS rA : mixerRule_t) :
  MIXER_OP_ADD <> MIXER_OP_SET ->
  MIXER_OP_MUL <> MIXER_OP_SET ->
  MIXER_OP_MUL <> MIXER_OP_ADD ->
  ruleApplies mask rS = true -> oper rS = MIXER_OP_SET ->
  ruleApplies mask rA = true -> oper rA = MIXER_OP_ADD ->
  output rA = output rS ->
  let dst := Z.to_nat (output rS) in
  (dst < length (mixOutput st))%nat ->
  (dst < length (mixOutputMap st))%nat ->
  Forall (fun r => ruleApplies mask r = false \/ Z.to_nat (output r) <> dst) post ->
  let setValue := ruleOutput cfg st rS in
  let addValue := ruleOutput cfg st rA in
  let st1 := mixerApplyRules cfg mask (pre ++ rS :: rA :: post) st in
  let st2 := mixerApplyRules cfg mask (pre ++ rA :: rS :: post) st in
  (forall r,
     ruleOutput cfg st r =
     div (add (of_int (offset r))
              (mul (of_int (weight r))
                   (div (mul (mixInput st !!! Z.to_nat (input r))
                             (of_int (rate (mixerInputs cfg !!! Z.to_nat (input r)))))
                        f1000)))
         f1000) /\
  (forall r table s,
     mixerApplyRules cfg mask (r :: table) s =
     mixerApplyRules cfg mask table (mixerApplyRule cfg mask s r)) /\
  (forall r s,
     ruleApplies mask r = true ->
     (Z.to_nat (output r) < length (mixOutput s))%nat ->
     (Z.to_nat (output r) < length (mixOutputMap s))%nat ->
     let s' := mixerApplyRule cfg mask s r in
     let o := Z.to_nat (output r) in
     (oper r = MIXER_OP_SET ->
      mixOutput s' !!! o = ruleOutput cfg s r /\
      mixOutputMap s' !!! o = BIT (Z.to_nat (input r))) /\
     (oper r = MIXER_OP_ADD ->
      mixOutput s' !!! o = add (mixOutput s !!! o) (ruleOutput cfg s r) /\
      mixOutputMap s' !!! o = Z.lor (mixOutputMap s !!! o) (BIT (Z.to_nat (input r)))) /\
     (oper r = MIXER_OP_MUL ->
      mixOutput s' !!! o = mul (mixOutput s !!! o) (ruleOutput cfg s r) /\
      mixOutputMap s' !!! o = Z.lor (mixOutputMap s !!! o) (BIT (Z.to_nat (input r))))) /\
  mixOutput st1 !!! dst = add setValue addValue /\
  mixOutputMap st1 !!! dst =
    Z.lor (BIT (Z.to_nat (input rS))) (BIT (Z.to_nat (input rA))) /\
  mixOutput st2 !!! dst = setValue /\
  mixOutputMap st2 !!! dst = BIT (Z.to_nat (input rS)) /\
  (mixOutput st1 !!! dst = mixOutput st2 !!! dst <-> add setValue addValue = setValue) /\
  (forall e s,
     mask = flightModeMask e ->
     mixInput s = mixInput st ->
     (dst < length (mixOutput s))%nat ->
     (dst < length (mixOutputMap s))%nat ->
     (firstn MIXER_RULE_COUNT (rules s) = pre ++ rS :: rA :: post ->
      mixOutput (mixerUpdate e cfg s) !!! dst = add setValue addValue /\
      mixOutputMap (mixerUpdate e cfg s) !!! dst =
        Z.lor (BIT (Z.to_nat (input rS))) (BIT (Z.to_nat (input rA)))) /\
     (firstn MIXER_RULE_COUNT (rules s) = pre ++ rA :: rS :: post ->
      mixOutput (mixerUpdate e cfg s) !!! dst = setValue /\
      mixOutputMap (mixerUpdate e cfg s) !!! dst = BIT (Z.to_nat (input rS)))).
Proof.
  intros Hne1 Hne2 Hne3 HrS HoS HrA HoA Hdst dst Hlo Hlm Hpost
         setValue addValue st1 st2.
  split; [reflexivity|].
  split; [intros; apply mixerApplyRules_cons|].
  split.
  { intros r s Hr Ho Hm s' o. split; [|split]; intros Hop.
    - apply mixerApplyRule_set; auto.
    - apply mixerApplyRule_add; auto.
    - apply mixerApplyRule_mul; auto. }
  destruct (set_then_add cfg mask st pre post rS rA Hne1 HrS HoS HrA HoA Hdst
              Hlo Hlm Hpost) as [H1v H1m].
  destruct (add_then_set cfg mask st pre post rS rA HrS HoS Hlo Hlm Hpost)
    as [H2v H2m].
  fold dst st1 setValue addValue in H1v, H1m.
  fold dst st2 setValue in H2v, H2m.
  split; [exact H1v|]. split; [exact H1m|].
  split; [exact H2v|]. split; [exact H2m|].
  split; [rewrite H1v, H2v; tauto|].
  intros e s Hmask Hin Hlos Hlms. split; intros Htable.
  - destruct (mixerUpdate_table e cfg s _ Htable) as (Hup & Hin0 & Hlo0 & Hlm0).
    rewrite Hup, <- Hmask.
    destruct (set_then_add cfg mask (mixerResetOutputs s) pre post rS rA
                Hne1 HrS HoS HrA HoA Hdst) as [Hv Hm];
      [fold dst; lia|fold dst; lia|exact Hpost|].
    fold dst in Hv, Hm. rewrite Hv, Hm.
    rewrite !(ruleOutput_inputs cfg st (mixerResetOutputs s)) by congruence.
    auto.
  - destruct (mixerUpdate_table e cfg s _ Htable) as (Hup & Hin0 & Hlo0 & Hlm0).
    rewrite Hup, <- Hmask.
    destruct (add_then_set cfg mask (mixerResetOutputs s) pre post rS rA
                HrS HoS) as [Hv Hm];
      [fold dst; lia|fold dst; lia|exact Hpost|].
    fold dst in Hv, Hm. rewrite Hv, Hm.
    rewrite (ruleOutput_inputs cfg st (mixerResetOutputs s)) by congruence.
    auto.
Qed.

End RuleEngineTick.

Section RuleEngineTickRuns.
Import Sample.

(** A run of C3 with modes 0 and 2 active: a rule gated on mode 1 being
    inactive applies, and a tick puts the roll, 0.5, on servo 1; a rule
    gated on mode 1 being active does not, and servo 1 stays at 0. *)
Lemma flight_mode_gate_witness :
  flightModeMask modes_0_2 = 0xFFFA0005 /\
  ruleApplies (flightModeMask modes_0_2) gated_rule = true /\
  mixOutput (mixerUpdate modes_0_2 gated_cfg (cyclic_at gated_cfg (lit 1 2) (lit 1 4)))
    !!! 1%nat = lit 1 2 /\
  ruleApplies (flightModeMask modes_0_2) closed_rule = false /\
  mixOutput (mixerUpdate modes_0_2 closed_cfg (cyclic_at closed_cfg (lit 1 2) (lit 1 4)))
    !!! 1%nat = zero.
Proof.
  assert (Hrest : forall dst : nat,
             Forall (fun r' => ruleApplies (flightModeMask modes_0_2) r' = false \/
                               Z.to_nat (output r') <> dst)
                    (replicate 31 inhabitant)).
  { intros dst. apply Forall_replicate. left. vm_compute. reflexivity. }
  destruct (flight_mode_gate modes_0_2 gated_cfg
              (cyclic_at gated_cfg (lit 1 2) (lit 1 4)) gated_rule)
    as (_ & _ & _ & Hgate & _ & Htick).
  { vm_compute. split; [discriminate|reflexivity]. }
  { vm_compute. discriminate. }
  destruct (flight_mode_gate modes_0_2 closed_cfg
              (cyclic_at closed_cfg (lit 1 2) (lit 1 4)) closed_rule)
    as (_ & _ & _ & _ & _ & Hclosed).
  { vm_compute. split; [discriminate|reflexivity]. }
  { vm_compute. discriminate. }
  assert (Happ : ruleApplies (flightModeMask modes_0_2) gated_rule = true)
    by (apply Hgate; vm_compute; discriminate).
  assert (Hoff : ruleApplies (flightModeMask modes_0_2) closed_rule = false)
    by (vm_compute; reflexivity).
  split; [vm_compute; reflexivity|]. split; [exact Happ|].
  split; [|split; [exact Hoff|]].
  - destruct (Htick [] (replicate 31 inhabitant)) as [Hopen _].
    + vm_compute. reflexivity.
    + vm_compute. lia.
    + vm_compute. lia.
    + destruct (Hopen Happ eq_refl (Hrest _)) as [Hv _].
      refine (eq_trans Hv _). vm_compute. reflexivity.
  - destruct (Hclosed [] (replicate 31 inhabitant)) as [_ Hshut].
    + vm_compute. reflexivity.
    + vm_compute. lia.
    + vm_compute. lia.
    + destruct (Hshut Hoff) as [_ Hzero].
      destruct (Hzero (Forall_nil_2 _) (Hrest _)) as [Hv _]; [vm_compute; lia|].
      exact Hv.
Defined.

(** A run of C4: roll SET then pitch ADDed on servo 1 gives 0.75; the
    two rules swapped give 0.5; so do the ticks on the two tables. *)
Lemma rule_engine_order_witness :
  let mask := flightModeMask flying in
  let post := replicate 30 inhabitant in
  (mixOutput (mixerApplyRules (cfg 0 0 0 0) mask (set_roll :: add_pitch :: post) half_roll)
     !!! 1%nat = lit 3 4 /\
   mixOutput (mixerApplyRules (cfg 0 0 0 0) mask (add_pitch :: set_roll :: post) half_roll)
     !!! 1%nat = lit 1 2) /\
  (mixOutput (mixerUpdate flying (cfg 0 0 0 0) (cyclic_at set_add_cfg (lit 1 2) (lit 1 4)))
     !!! 1%nat = lit 3 4 /\
   mixOutput (mixerUpdate flying (cfg 0 0 0 0) (cyclic_at add_set_cfg (lit 1 2) (lit 1 4)))
     !!! 1%nat = lit 1 2).
Proof.
  intros mask post.
  destruct (rule_engine_order (cfg 0 0 0 0) mask half_roll [] post set_roll add_pitch)
    as (_ & _ & _ & H1 & _ & H2 & _ & _ & Htick).
  - vm_compute. discriminate.
  - vm_compute. discriminate.
  - vm_compute. discriminate.
  - reflexivity.
  - reflexivity.
  - reflexivity.
  - reflexivity.
  - reflexivity.
  - vm_compute. lia.
  - vm_compute. lia.
  - apply Forall_replicate. left. vm_compute. reflexivity.
  - assert (Hset : add (ruleOutput (cfg 0 0 0 0) half_roll set_roll)
                       (ruleOutput (cfg 0 0 0 0) half_roll add_pitch) = lit 3 4)
      by (vm_compute; reflexivity).
    assert (Hadd : ruleOutput (cfg 0 0 0 0) half_roll set_roll = lit 1 2)
      by (vm_compute; reflexivity).
    split; [split|split].
    + rewrite <- Hset. exact H1.
    + rewrite <- Hadd. exact H2.
    + destruct (Htick flying (cyclic_at set_add_cfg (lit 1 2) (lit 1 4)))
        as [[Hv _] _];
        [reflexivity|vm_compute; reflexivity|vm_compute; lia|vm_compute; lia
        |vm_compute; reflexivity|].
      rewrite <- Hset. exact Hv.
    + destruct (Htick flying (cyclic_at add_set_cfg (lit 1 2) (lit 1 4)))
        as [_ [Hv _]];
        [reflexivity|vm_compute; reflexivity|vm_compute; lia|vm_compute; lia
        |vm_compute; reflexivity|].
      rewrite <- Hadd. exact Hv.
Defined.

End RuleEngineTickRuns.

(** ** What initialisation establishes *)

Section InitFacts.
Context `{Header}.

Lemma constrain_bounds (amt low high : Z) :
  low <= high -> low <= constrain amt low high <= high.
Proof.
  intros Hlh. unfold constrain.
  destruct (Z.ltb_spec amt low); [lia|].
  destruct (Z.gtb_spec amt high); lia.
Qed.

Lemma constrainedRule_in_domain (rule : mixerRule_t) :
  header_fits -> rule_in_domain (constrainedRule rule).
Proof.
  intros (Hi & Ho & Hop & Hmin & Hmax & Hwmin & Hwmax).
  unfold rule_in_domain, constrainedRule, to_uint8, to_int16. simpl.
  assert (H1 : 0 <= MIXER_OP_COUNT - 1) by lia.
  assert (H2 : 0 <= Z.of_nat MIXER_INPUT_COUNT - 1) by lia.
  assert (H3 : 0 <= Z.of_nat MIXER_OUTPUT_COUNT - 1) by lia.
  assert (H4 : MIXER_INPUT_MIN <= MIXER_INPUT_MAX) by lia.
  assert (H5 : MIXER_WEIGHT_MIN <= MIXER_WEIGHT_MAX) by lia.
  pose proof (constrain_bounds (oper rule) _ _ H1).
  pose proof (constrain_bounds (input rule) _ _ H2).
  pose proof (constrain_bounds (output rule) _ _ H3).
  pose proof (constrain_bounds (offset rule) _ _ H4).
  pose proof (constrain_bounds (weight rule) _ _ H5).
  rewrite !Z.mod_small by lia. lia.
Qed.

(** The rule-loading loop over any list of slots. *)
Lemma init_rule_loop (cfg : config) (l : list nat) :
  forall st,
    let st' := fold_left (mixerInitRule cfg) l st in
    length (rules st') = length (rules st) /\
    forall i,
      (i ∈ l -> oper (mixerRules cfg !!! i) <> 0 -> (i < length (rules st))%nat ->
       rules st' !! i = Some (constrainedRule (mixerRules cfg !!! i))) /\
      (~ (i ∈ l /\ oper (mixerRules cfg !!! i) <> 0) -> rules st' !! i = rules st !! i).
Proof.
  induction l as [|j l IH]; intros st st'.
  - subst st'. simpl. split; [reflexivity|]. intros i. split; [|reflexivity].
    intros Hin. apply elem_of_nil in Hin. contradiction.
  - subst st'. simpl.
    assert (Hstep : rules (mixerInitRule cfg st j) =
                    if negb (oper (mixerRules cfg !!! j) =? 0)
                    then <[j := constrainedRule (mixerRules cfg !!! j)]> (rules st)
                    else rules st)
      by (unfold mixerInitRule; destruct (negb _); reflexivity).
    assert (Hlen1 : length (rules (mixerInitRule cfg st j)) = length (rules st))
      by (rewrite Hstep; destruct (negb _); rewrite ?length_insert; reflexivity).
    destruct (IH (mixerInitRule cfg st j)) as [Hlen Hc].
    split; [congruence|].
    intros i. destruct (Hc i) as [Hset Hkeep]. split.
    + intros Hin Hop Hlt.
      destruct (decide (i ∈ l)) as [Hl|Hl]; [apply Hset; auto; lia|].
      apply elem_of_cons in Hin. destruct Hin as [->|Hin]; [|contradiction].
      rewrite Hkeep by tauto. rewrite Hstep.
      replace (oper (mixerRules cfg !!! j) =? 0) with false
        by (symmetry; apply Z.eqb_neq; exact Hop).
      simpl. apply list_lookup_insert_eq. exact Hlt.
    + intros Hno. rewrite Hkeep.
      * rewrite Hstep. destruct (negb _) eqn:Hj; [|reflexivity].
        apply list_lookup_insert_ne. intros ->. apply Hno.
        split; [apply elem_of_cons; auto|].
        apply negb_true_iff, Z.eqb_neq in Hj. exact Hj.
      * intros [Hl Hop]. apply Hno. split; [apply elem_of_cons; auto|exact Hop].
Qed.

Lemma init_rule_loop_domain (cfg : config) (l : list nat) :
  header_fits ->
  forall st, Forall rule_in_domain (rules st) ->
             Forall rule_in_domain (rules (fold_left (mixerInitRule cfg) l st)).
Proof.
  intros Hfit. induction l as [|j l IH]; intros st Hst; simpl; [exact Hst|].
  apply IH. unfold mixerInitRule. destruct (negb _); [|exact Hst].
  simpl. apply Forall_insert; [exact Hst|].
  apply (constrainedRule_in_domain (mixerRules cfg !!! j) Hfit).
Qed.

Lemma mixerInit_rules (cfg : config) (st : mixer) :
  rules (mixerInit cfg st) = rules (fold_left (mixerInitRule cfg) (seq 0 MIXER_RULE_COUNT) st).
Proof.
  unfold mixerInit. rewrite mixerInitSwash_rules. simpl.
  apply override_loop_rules.
Qed.

(** X6. Rule loading clamps and never rejects: a slot whose persisted
    operator is not NONE is loaded as the persisted rule with operator,
    input, output, offset and weight constrained into their domains (the
    mode is copied); and a table whose rules are all inside their domains
    (the zero-initialised one is) stays so through [mixerInit], so every
    rule the rule engine can meet indexes inside the input and output
    arrays. *)
Theorem init_rules_in_domain (cfg : config) (st : mixer) :
  header_fits ->
  Forall rule_in_domain (rules st) ->
  Forall rule_in_domain (rules mixer_zero) /\
  Forall rule_in_domain (rules (mixerInit cfg st)) /\
  (forall i, (i < MIXER_RULE_COUNT)%nat -> (i < length (rules st))%nat ->
     oper (mixerRules cfg !!! i) <> 0 ->
     rules (mixerInit cfg st) !! i = Some (constrainedRule (mixerRules cfg !!! i))) /\
  (forall r, r ∈ rules (mixerInit cfg st) ->
     (Z.to_nat (input r) < MIXER_INPUT_COUNT)%nat /\
     (Z.to_nat (output r) < MIXER_OUTPUT_COUNT)%nat).
Proof.
  intros Hfit Hst.
  assert (Hdom : Forall rule_in_domain (rules (mixerInit cfg st))).
  { rewrite mixerInit_rules. apply init_rule_loop_domain; assumption. }
  repeat apply conj.
  - destruct Hfit as (Hi & Ho & Hop & Hmin & Hmax & Hwmin & Hwmax).
    simpl. apply Forall_replicate. unfold rule_in_domain. simpl. lia.
  - exact Hdom.
  - intros i Hi Hlt Hop. rewrite mixerInit_rules.
    destruct (init_rule_loop cfg (seq 0 MIXER_RULE_COUNT) st) as [_ Hc].
    destruct (Hc i) as [Hset _]. apply Hset; auto. apply elem_of_seq. lia.
  - intros r Hr. rewrite Forall_forall in Hdom.
    destruct (Hdom r Hr) as (_ & Hin & Hout & _). lia.
Qed.

(** The override loop of [mixerInit] over any list of inputs. *)
Lemma init_override_loop (l : list nat) :
  forall st,
    let st' :=
      fold_left
        (fun st i =>
           with_mixOverride (<[i := to_int16 MIXER_OVERRIDE_OFF]> (mixOverride st)) st)
        l st in
    length (mixOverride st') = length (mixOverride st) /\
    forall i,
      (i ∈ l -> (i < length (mixOverride st))%nat ->
       mixOverride st' !! i = Some (to_int16 MIXER_OVERRIDE_OFF)) /\
      (i ∉ l -> mixOverride st' !! i = mixOverride st !! i).
Proof.
  induction l as [|j l IH]; intros st st'.
  - subst st'. simpl. split; [reflexivity|]. intros i. split; [|reflexivity].
    intros Hin. apply elem_of_nil in Hin. contradiction.
  - subst st'. simpl.
    destruct (IH (with_mixOverride
                    (<[j := to_int16 MIXER_OVERRIDE_OFF]> (mixOverride st)) st))
      as [Hlen Hc].
    simpl in Hlen, Hc. rewrite length_insert in Hlen.
    split; [exact Hlen|].
    intros i. destruct (Hc i) as [Hset Hkeep]. rewrite length_insert in Hset. split.
    + intros Hin Hlt.
      destruct (decide (i ∈ l)) as [Hl|Hl]; [auto|].
      apply elem_of_cons in Hin. destruct Hin as [->|Hin]; [|contradiction].
      rewrite Hkeep by exact Hl. apply list_lookup_insert_eq. exact Hlt.
    + intros Hno. rewrite Hkeep.
      * apply list_lookup_insert_ne. intros ->. apply Hno. apply elem_of_cons. auto.
      * intros Hl. apply Hno. apply elem_of_cons. auto.
Qed.

Lemma mixerInit_overrides (cfg : config) (st : mixer) :
  mixOverride (mixerInit cfg st) =
  mixOverride
    (fold_left
       (fun st i =>
          with_mixOverride (<[i := to_int16 MIXER_OVERRIDE_OFF]> (mixOverride st)) st)
       (seq 1 (MIXER_INPUT_COUNT - 1))
       (fold_left (mixerInitRule cfg) (seq 0 MIXER_RULE_COUNT) st)).
Proof.
  unfold mixerInit, mixerInitSwash.
  destruct (negb (swash_phase _ =? 0)); destruct (negb (swash_ring _ =? 0)); reflexivity.
Qed.

Lemma init_rule_loop_overrides (cfg : config) (l : list nat) :
  forall st, mixOverride (fold_left (mixerInitRule cfg) l st) = mixOverride st.
Proof.
  induction l as [|j l IH]; intros st; simpl; [reflexivity|].
  rewrite IH. unfold mixerInitRule. destruct (negb _); reflexivity.
Qed.

(** X7. [mixerInit] switches every override off except that of input 0:
    inputs 1 and up hold [MIXER_OVERRIDE_OFF] afterwards, whatever had
    been set before, so on them [mixerSetInput] uses the raw value even
    when disarmed; the override of input 0 is left as it was. *)
Theorem init_disables_overrides (cfg : config) (st : mixer) (i : nat) :
  length (mixOverride st) = MIXER_INPUT_COUNT ->
  (1 <= i < MIXER_INPUT_COUNT)%nat ->
  MIXER_OVERRIDE_MAX < MIXER_OVERRIDE_OFF <= 32767 ->
  -32768 <= MIXER_OVERRIDE_OFF ->
  mixOverride (mixerInit cfg st) !!! i = MIXER_OVERRIDE_OFF /\
  (forall e raw, overrideValue e (mixerInit cfg st) i raw = raw) /\
  mixOverride (mixerInit cfg st) !!! 0%nat = mixOverride st !!! 0%nat.
Proof.
  intros Hlen Hi Hoff Hlow.
  destruct (init_override_loop (seq 1 (MIXER_INPUT_COUNT - 1))
              (fold_left (mixerInitRule cfg) (seq 0 MIXER_RULE_COUNT) st)) as [_ Hc].
  rewrite <- mixerInit_overrides in Hc.
  rewrite init_rule_loop_overrides in Hc.
  assert (Hv : mixOverride (mixerInit cfg st) !!! i = MIXER_OVERRIDE_OFF).
  { destruct (Hc i) as [Hset _].
    assert (Hin : i ∈ seq 1 (MIXER_INPUT_COUNT - 1)) by (apply elem_of_seq; lia).
    assert (Hlt : (i < length (mixOverride st))%nat) by lia.
    rewrite (list_lookup_total_correct _ _ _ (Hset Hin Hlt)).
    unfold to_int16. rewrite Z.mod_small by lia. lia. }
  split; [exact Hv|]. split.
  - intros e raw. unfold overrideValue. rewrite Hv.
    destruct (negb (armed e)); [|reflexivity].
    replace (MIXER_OVERRIDE_OFF <=? MIXER_OVERRIDE_MAX) with false by lia.
    rewrite andb_false_r. reflexivity.
  - destruct (Hc 0%nat) as [_ Hkeep].
    rewrite !list_lookup_total_alt, Hkeep; [reflexivity|].
    rewrite elem_of_seq. lia.
Qed.

Lemma mixer_eq (a b : mixer) :
  rules a = rules b -> mixInput a = mixInput b -> mixOutput a = mixOutput b ->
  mixOverride a = mixOverride b -> mixOutputMap a = mixOutputMap b ->
  mixSaturated a = mixSaturated b -> cyclicTotal a = cyclicTotal b ->
  cyclicLimit a = cyclicLimit b -> tailMotorIdle a = tailMotorIdle b ->
  tailMotorDirection a = tailMotorDirection b ->
  phaseSin a = phaseSin b -> phaseCos a = phaseCos b -> a = b.
Proof. destruct a, b. simpl. intros. subst. reflexivity. Qed.

(** What [mixerInit] does not write. *)
Lemma mixerInit_untouched (cfg : config) (st : mixer) :
  mixInput (mixerInit cfg st) = mixInput st /\
  mixOutput (mixerInit cfg st) = mixOutput st /\
  mixOutputMap (mixerInit cfg st) = mixOutputMap st /\
  mixSaturated (mixerInit cfg st) = mixSaturated st /\
  cyclicTotal (mixerInit cfg st) = cyclicTotal st /\
  tailMotorDirection (mixerInit cfg st) = tailMotorDirection st.
Proof.
  assert (Hrules : forall l s,
             let s' := fold_left (mixerInitRule cfg) l s in
             mixInput s' = mixInput s /\ mixOutput s' = mixOutput s /\
             mixOutputMap s' = mixOutputMap s /\ mixSaturated s' = mixSaturated s /\
             cyclicTotal s' = cyclicTotal s /\
             tailMotorDirection s' = tailMotorDirection s).
  { induction l as [|j l IH]; intros s; simpl; [tauto|].
    destruct (IH (mixerInitRule cfg s j)) as (-> & -> & -> & -> & -> & ->).
    unfold mixerInitRule. destruct (negb _); simpl; tauto. }
  assert (Hov : forall l s,
             let s' := fold_left
                         (fun st i =>
                            with_mixOverride
                              (<[i := to_int16 MIXER_OVERRIDE_OFF]> (mixOverride st)) st)
                         l s in
             mixInput s' = mixInput s /\ mixOutput s' = mixOutput s /\
             mixOutputMap s' = mixOutputMap s /\ mixSaturated s' = mixSaturated s /\
             cyclicTotal s' = cyclicTotal s /\
             tailMotorDirection s' = tailMotorDirection s).
  { induction l as [|j l IH]; intros s; simpl; [tauto|].
    destruct (IH (with_mixOverride
                    (<[j := to_int16 MIXER_OVERRIDE_OFF]> (mixOverride s)) s))
      as (-> & -> & -> & -> & -> & ->).
    simpl. tauto. }
  destruct (Hrules (seq 0 MIXER_RULE_COUNT) st) as (H1 & H2 & H3 & H4 & H5 & H6).
  destruct (Hov (seq 1 (MIXER_INPUT_COUNT - 1))
              (fold_left (mixerInitRule cfg) (seq 0 MIXER_RULE_COUNT) st))
    as (G1 & G2 & G3 & G4 & G5 & G6).
  unfold mixerInit, mixerInitSwash.
  destruct (negb (swash_phase _ =? 0)); destruct (negb (swash_ring _ =? 0)); simpl;
    repeat apply conj; congruence.
Qed.

(** What [mixerInit] derives from the configuration alone. *)
Lemma mixerInit_derived (cfg : config) (st st2 : mixer) :
  tailMotorIdle (mixerInit cfg st2) = tailMotorIdle (mixerInit cfg st) /\
  cyclicLimit (mixerInit cfg st2) = cyclicLimit (mixerInit cfg st) /\
  phaseSin (mixerInit cfg st2) = phaseSin (mixerInit cfg st) /\
  phaseCos (mixerInit cfg st2) = phaseCos (mixerInit cfg st).
Proof.
  unfold mixerInit, mixerInitSwash.
  destruct (negb (swash_phase _ =? 0)); destruct (negb (swash_ring _ =? 0)); simpl;
    repeat apply conj; reflexivity.
Qed.

(** X8. [mixerInit] is idempotent: run again on its own result with the
    same configuration, it changes nothing. *)
Theorem mixerInit_idempotent (cfg : config) (st : mixer) :
  mixerInit cfg (mixerInit cfg st) = mixerInit cfg st.
Proof.
  set (st1 := mixerInit cfg st).
  destruct (mixerInit_untouched cfg st1) as (H1 & H2 & H3 & H4 & H5 & H6).
  destruct (mixerInit_derived cfg st st1) as (D1 & D2 & D3 & D4).
  fold st1 in D1, D2, D3, D4.
  apply mixer_eq; try assumption.
  - (* the rule table *)
    rewrite mixerInit_rules.
    destruct (init_rule_loop cfg (seq 0 MIXER_RULE_COUNT) st1) as [Hlen Hc].
    destruct (init_rule_loop cfg (seq 0 MIXER_RULE_COUNT) st) as [Hlen0 Hc0].
    rewrite <- mixerInit_rules in Hlen0, Hc0. fold st1 in Hlen0, Hc0.
    apply list_eq. intros i. destruct (Hc i) as [Hset Hkeep].
    destruct (decide (i ∈ seq 0 MIXER_RULE_COUNT)) as [Hin|Hin];
      [|apply Hkeep; tauto].
    destruct (Z.eq_dec (oper (mixerRules cfg !!! i)) 0) as [Hop|Hop];
      [apply Hkeep; tauto|].
    destruct (decide (i < length (rules st1))%nat) as [Hlt|Hge].
    + rewrite Hset by assumption.
      destruct (Hc0 i) as [Hset0 _]. symmetry. apply Hset0; auto. lia.
    + rewrite (lookup_ge_None_2 (rules st1)) by lia.
      apply lookup_ge_None_2. lia.
  - (* the overrides *)
    rewrite mixerInit_overrides, <- (init_rule_loop_overrides cfg (seq 0 MIXER_RULE_COUNT) st1).
    destruct (init_override_loop (seq 1 (MIXER_INPUT_COUNT - 1))
                (fold_left (mixerInitRule cfg) (seq 0 MIXER_RULE_COUNT) st1)) as [Hlen Hc].
    destruct (init_override_loop (seq 1 (MIXER_INPUT_COUNT - 1))
                (fold_left (mixerInitRule cfg) (seq 0 MIXER_RULE_COUNT) st)) as [Hlen0 Hc0].
    rewrite <- mixerInit_overrides in Hlen0, Hc0. fold st1 in Hlen0, Hc0.
    rewrite init_rule_loop_overrides in Hlen0, Hc0.
    rewrite !init_rule_loop_overrides in Hlen, Hc.
    rewrite init_rule_loop_overrides.
    apply list_eq. intros i. destruct (Hc i) as [Hset Hkeep].
    destruct (decide (i ∈ seq 1 (MIXER_INPUT_COUNT - 1))) as [Hin|Hin];
      [|apply Hkeep; exact Hin].
    destruct (decide (i < length (mixOverride st1))%nat) as [Hlt|Hge].
    + rewrite Hset by assumption.
      destruct (Hc0 i) as [Hset0 _]. symmetry. apply Hset0; auto. lia.
    + rewrite (lookup_ge_None_2 (mixOverride st1)) by lia.
      apply lookup_ge_None_2. lia.
Qed.

End InitFacts.

(** ** More on the input registry *)

Section InputFacts.
Context `{Header}.

(** X9. [mixerSetInput] on one input leaves every other input's value
    and saturation counter, the outputs, the overrides, the rule table
    and the tail direction as they were. *)
Theorem setInput_frame (e : env) (cfg : config) (index : nat) (v : float)
    (st : mixer) (j : nat) :
  j <> index ->
  let st' := mixerSetInput e cfg index v st in
  mixInput st' !!! j = mixInput st !!! j /\
  mixSaturated st' !!! j = mixSaturated st !!! j /\
  mixOutput st' = mixOutput st /\
  mixOutputMap st' = mixOutputMap st /\
  mixOverride st' = mixOverride st /\
  rules st' = rules st /\
  tailMotorDirection st' = tailMotorDirection st.
Proof.
  intros Hj st'. subst st'. unfold mixerSetInput.
  destruct (gt _ _); [|destruct (lt _ _)]; simpl;
    rewrite ?list_lookup_total_insert_ne by auto; tauto.
Qed.

Lemma with_mixInput_same (st : mixer) (index : nat) (v : float) :
  mixInput st !! index = Some v ->
  with_mixInput (<[index := v]> (mixInput st)) st = st.
Proof.
  intros Hv. rewrite list_insert_id by exact Hv. destruct st. reflexivity.
Qed.

(** X10. The constrain step is idempotent: with limits in order, setting
    an input to the value [mixerSetInput] has just stored for it changes
    nothing, and in particular does not mark it saturated anew. *)
Theorem setInput_fixed_point (e : env) (cfg : config) (index : nat) (raw : float)
    (st : mixer) :
  (index < length (mixInput st))%nat ->
  -32768 <= min (mixerInputs cfg !!! index) ->
  min (mixerInputs cfg !!! index) <= max (mixerInputs cfg !!! index) ->
  max (mixerInputs cfg !!! index) <= 32767 ->
  let st' := mixerSetInput e cfg index raw st in
  mixerSetInput e cfg index (mixInput st' !!! index) st' = st'.
Proof.
  intros Hi Hlo Hle Hhi st'.
  pose proof (F32Facts.int16_limits_ordered _ _ Hlo Hle Hhi) as Hord.
  destruct (F32Facts.le_not_nan _ _ Hord) as [Hnmin Hnmax].
  fold f1000 in Hord, Hnmin, Hnmax.
  set (imin := div (of_int (min (mixerInputs cfg !!! index))) f1000) in *.
  set (imax := div (of_int (max (mixerInputs cfg !!! index))) f1000) in *.
  assert (Hov : mixOverride st' = mixOverride st)
    by (subst st'; unfold mixerSetInput;
        destruct (gt _ _); [|destruct (lt _ _)]; reflexivity).
  (* the value constrained by the second call *)
  assert (Hval : forall stored,
             overrideValue e st' index stored = overrideValue e st index raw \/
             overrideValue e st' index stored = stored).
  { intros stored. unfold overrideValue. rewrite Hov.
    destruct (negb (armed e)); [|auto]. destruct (_ && _); auto. }
  assert (Hlen : (index < length (mixInput st'))%nat).
  { subst st'. unfold mixerSetInput.
    destruct (gt _ _); [|destruct (lt _ _)]; simpl; rewrite length_insert; exact Hi. }
  set (v := overrideValue e st index raw) in *.
  assert (Hcases :
            (gt v imax = true /\
             st' = mixerSaturateInput index
                     (with_mixInput (<[index := imax]> (mixInput st)) st)) \/
            (gt v imax = false /\ lt v imin = true /\
             st' = mixerSaturateInput index
                     (with_mixInput (<[index := imin]> (mixInput st)) st)) \/
            (gt v imax = false /\ lt v imin = false /\
             st' = with_mixInput (<[index := v]> (mixInput st)) st)).
  { subst st'. unfold mixerSetInput. fold v. fold imin. fold imax.
    destruct (gt v imax); [auto|]. destruct (lt v imin); auto. }
  assert (Hmax_in : gt imax imax = false /\ lt imax imin = false).
  { split; [apply F32Facts.le_not_lt, F32Facts.le_refl; exact Hnmax|].
    apply F32Facts.le_not_lt. exact Hord. }
  assert (Hmin_in : gt imin imax = false /\ lt imin imin = false).
  { split; [apply F32Facts.le_not_lt; exact Hord|].
    apply F32Facts.le_not_lt, F32Facts.le_refl. exact Hnmin. }
  assert (Hsame : forall stored,
             mixInput st' !! index = Some stored ->
             gt stored imax = false -> lt stored imin = false ->
             overrideValue e st' index stored = stored ->
             mixerSetInput e cfg index stored st' = st').
  { intros stored Hs Hg Hl Hv. unfold mixerSetInput.
    rewrite Hv. fold imin. fold imax. rewrite Hg, Hl.
    apply with_mixInput_same. exact Hs. }
  assert (Hagain : overrideValue e st' index (mixInput st' !!! index) = v ->
                   mixerSetInput e cfg index (mixInput st' !!! index) st' = st').
  { intros Hv. unfold mixerSetInput. rewrite Hv. fold imin. fold imax.
    destruct Hcases as [[Hg ->]|[(Hg & Hl & ->)|(Hg & Hl & ->)]].
    - rewrite Hg. unfold mixerSaturateInput. simpl.
      rewrite !list_insert_insert_eq. reflexivity.
    - rewrite Hg, Hl. unfold mixerSaturateInput. simpl.
      rewrite !list_insert_insert_eq. reflexivity.
    - rewrite Hg, Hl. simpl. rewrite list_insert_insert_eq. reflexivity. }
  destruct (Hval (mixInput st' !!! index)) as [Hv|Hv]; [auto|].
  assert (Hstored : mixInput st' !! index = Some (mixInput st' !!! index)).
  { apply list_lookup_lookup_total_lt. exact Hlen. }
  destruct Hcases as [[Hg Hst]|[(Hg & Hl & Hst)|(Hg & Hl & Hst)]].
  - assert (Hs : mixInput st' !!! index = imax)
      by (rewrite Hst; simpl; apply list_lookup_total_insert_eq; exact Hi).
    apply Hsame; auto; rewrite Hs; tauto.
  - assert (Hs : mixInput st' !!! index = imin)
      by (rewrite Hst; simpl; apply list_lookup_total_insert_eq; exact Hi).
    apply Hsame; auto; rewrite Hs; tauto.
  - assert (Hs : mixInput st' !!! index = v)
      by (rewrite Hst; simpl; apply list_lookup_total_insert_eq; exact Hi).
    apply Hsame; auto; rewrite Hs; tauto.
Qed.

(** The reset loop of [pgResetFn_mixerInputs] over any list of inputs. *)
Lemma pgReset_loop (l : list nat) :
  forall input : list mixerInput_t,
    let input' :=
      fold_left
        (fun input i => <[i := {| rate := 1000; min := -1000; max := 1000 |}]> input)
        l input in
    length input' = length input /\
    forall i,
      (i ∈ l -> (i < length input)%nat ->
       input' !! i = Some {| rate := 1000; min := -1000; max := 1000 |}) /\
      (i ∉ l -> input' !! i = input !! i).
Proof.
  induction l as [|j l IH]; intros input input'.
  - subst input'. simpl. split; [reflexivity|]. intros i. split; [|reflexivity].
    intros Hin. apply elem_of_nil in Hin. contradiction.
  - subst input'. simpl.
    destruct (IH (<[j := {| rate := 1000; min := -1000; max := 1000 |}]> input))
      as [Hlen Hc].
    rewrite length_insert in Hlen. split; [exact Hlen|].
    intros i. destruct (Hc i) as [Hset Hkeep]. rewrite length_insert in Hset. split.
    + intros Hin Hlt.
      destruct (decide (i ∈ l)) as [Hl|Hl]; [auto|].
      apply elem_of_cons in Hin. destruct Hin as [->|Hin]; [|contradiction].
      rewrite Hkeep by exact Hl. apply list_lookup_insert_eq. exact Hlt.
    + intros Hno. rewrite Hkeep.
      * apply list_lookup_insert_ne. intros ->. apply Hno. apply elem_of_cons. auto.
      * intros Hl. apply Hno. apply elem_of_cons. auto.
Qed.

(** X11. [pgResetFn_mixerInputs] gives the inputs from
    [MIXER_IN_STABILIZED_ROLL] to [MIXER_IN_STABILIZED_THROTTLE] a rate of
    1000 and limits of -1000 and 1000, and leaves every other input as it
    was; on the reset inputs the limits are in order, so [mixerSetInput]
    stores every non-NaN value within [-1, 1]. *)
Theorem pgReset_defaults (input : list mixerInput_t) (i : nat) :
  (i < length input)%nat ->
  let input' := pgResetFn_mixerInputs input in
  length input' = length input /\
  ((MIXER_IN_STABILIZED_ROLL <= i <= MIXER_IN_STABILIZED_THROTTLE)%nat ->
   input' !!! i = {| rate := 1000; min := -1000; max := 1000 |} /\
   forall e rules_ config_ st raw,
     (i < length (mixInput st))%nat -> is_nan raw = false ->
     within (div (of_int (-1000)) f1000) (div (of_int 1000) f1000)
       (mixInput (mixerSetInput e
                    {| mixerInputs := input'; mixerRules := rules_; mixerConfig := config_ |}
                    i raw st) !!! i) = true) /\
  (~ (MIXER_IN_STABILIZED_ROLL <= i <= MIXER_IN_STABILIZED_THROTTLE)%nat ->
   input' !!! i = input !!! i).
Proof.
  intros Hi input'.
  destruct (pgReset_loop
              (seq MIXER_IN_STABILIZED_ROLL
                 (MIXER_IN_STABILIZED_THROTTLE + 1 - MIXER_IN_STABILIZED_ROLL)) input)
    as [Hlen Hc].
  fold (pgResetFn_mixerInputs input) in Hlen, Hc. fold input' in Hlen, Hc.
  split; [exact Hlen|].
  destruct (Hc i) as [Hset Hkeep]. split.
  - intros Hr.
    assert (Hv : input' !!! i = {| rate := 1000; min := -1000; max := 1000 |}).
    { apply list_lookup_total_correct. apply Hset; [|exact Hi].
      apply elem_of_seq. lia. }
    split; [exact Hv|].
    intros e rules_ config_ st raw Hlt Hraw.
    rewrite mixerSetInput_stored by exact Hlt.
    cbn [mixerInputs]. rewrite Hv. cbn [min max].
    assert (Hord : le (div (of_int (-1000)) f1000) (div (of_int 1000) f1000) = true)
      by (vm_compute; reflexivity).
    assert (Hn : is_nan (overrideValue e st i raw) = false)
      by (apply overrideValue_not_nan; exact Hraw).
    destruct (F32Facts.le_not_nan _ _ Hord) as [Hn1 Hn2].
    set (lo := div (of_int (-1000)) f1000) in *.
    set (hi := div (of_int 1000) f1000) in *.
    unfold clampSpec, within.
    destruct (gt _ _) eqn:Hg; [|destruct (lt _ _) eqn:Hl].
    + rewrite Hord, F32Facts.le_refl; auto.
    + rewrite Hord, F32Facts.le_refl; auto.
    + rewrite (F32Facts.not_lt_le _ _ Hn Hn1 Hl), (F32Facts.not_lt_le _ _ Hn2 Hn Hg).
      reflexivity.
  - intros Hr. rewrite !list_lookup_total_alt, Hkeep; [reflexivity|].
    rewrite elem_of_seq. lia.
Qed.

End InputFacts.

(** ** More on the swash compensator and the tail *)

Module F32More.

(** [-1.0f * x] is [-x]. *)
Lemma mul_neg_one_l (x : float) :
  valid_binary prec emax x = true -> mul (of_int (-1)) x = neg x.
Proof.
  destruct x as [s|s| |s m e]; try reflexivity.
  intros Hv. simpl in Hv. unfold bounded, canonical_mantissa in Hv.
  apply andb_true_iff in Hv as [Hc He].
  apply Z.eqb_eq in Hc. apply Z.leb_le in He.
  change (of_int (-1)) with (S754_finite true 8388608 (-23)).
  unfold mul, SFmul, neg, SFopp.
  unfold binary_round_aux, shr_fexp.
  change (8388608 * m)%positive with
    (m~0~0~0~0~0~0~0~0~0~0~0~0~0~0~0~0~0~0~0~0~0~0~0)%positive.
  unfold Zdigits2 at 1.
  cbn [digits2_pos].
  replace (fexp prec emax _ - (-23 + e)) with 23.
  2:{ unfold fexp in *. unfold emin in *. lia. }
  cbn [shr shr_record_of_loc SpecFloat.iter_pos shr_1 shr_m loc_of_shr_record
       round_nearest_even orb Zdigits2].
  replace (-23 + e + 23) with e by lia.
  rewrite Hc, Z.sub_diag. cbn [shr shr_m].
  replace (e <=? emax - prec) with true by lia.
  destruct s; reflexivity.
Qed.

(** The square root of a value that is neither a NaN nor negative is not
    a NaN. *)
Lemma sqrtf_not_nan (x : float) :
  is_nan x = false -> signbit x = false -> is_nan (sqrtf x) = false.
Proof.
  unfold sqrtf, SFsqrt.
  destruct x as [s|s| |s m e]; simpl; try discriminate; try reflexivity;
    intros _ Hs; subst s; try reflexivity.
  unfold SFsqrt_core_binary.
  set (m' := match _ with Z0 => Z.pos m | Z.pos _ => _ | Z.neg _ => 0 end).
  assert (Hm' : 0 <= m').
  { subst m'. destruct (_ - _) as [|q|q]; try lia.
    rewrite Z.shiftl_mul_pow2 by lia.
    apply Z.mul_nonneg_nonneg; [lia|apply Z.pow_nonneg; lia]. }
  pose proof (Z.sqrtrem_spec m' Hm') as Hsq.
  destruct (Z.sqrtrem m') as [q r].
  apply F32Facts.binary_round_aux_not_nan. lia.
Qed.

Lemma fabsf_plain (x : float) :
  is_nan x = false -> is_nan (fabsf x) = false /\ signbit (fabsf x) = false.
Proof. destruct x; simpl; auto. Qed.

Lemma neg_not_nan (x : float) : is_nan (neg x) = is_nan x.
Proof. destruct x; reflexivity. Qed.

(** The linearised bidirectional throttle of a yaw that is not a NaN is
    not a NaN. *)
Lemma signed_sqrt_not_nan (yaw : float) :
  is_nan yaw = false -> is_nan (copysignf (sqrtf (fabsf yaw)) yaw) = false.
Proof.
  intros Hy. destruct (fabsf_plain yaw Hy) as [Hn Hs].
  pose proof (sqrtf_not_nan _ Hn Hs) as Hq.
  unfold copysignf.
  destruct (fabsf_plain _ Hq) as [Hn' _].
  destruct (signbit yaw); [rewrite neg_not_nan|]; exact Hn'.
Qed.

(** [fmaxf] with a floor that is not a NaN is at least the floor. *)
Lemma fmaxf_floor (t floor : float) :
  is_nan floor = false ->
  is_nan (fmaxf t floor) = false /\ le floor (fmaxf t floor) = true.
Proof.
  intros Hf. unfold fmaxf.
  destruct (is_nan t) eqn:Hnt.
  - split; [exact Hf|apply F32Facts.le_refl; exact Hf].
  - rewrite Hf. destruct (lt t floor) eqn:Hlt.
    + split; [exact Hf|apply F32Facts.le_refl; exact Hf].
    + split; [exact Hnt|apply F32Facts.not_lt_le; assumption].
Qed.

End F32More.

Section SwashFacts.
Context `{Header}.

Lemma mixerInit_swash (cfg : config) (st : mixer) :
  phaseSin (mixerInit cfg st) =
    (if negb (swash_phase (mixerConfig cfg) =? 0)
     then sin_approx (DECIDEGREES_TO_RADIANS (swash_phase (mixerConfig cfg)))
     else zero) /\
  cyclicLimit (mixerInit cfg st) =
    (if negb (swash_ring (mixerConfig cfg) =? 0)
     then sub f1_41 (mul (of_int (swash_ring (mixerConfig cfg))) f0_0041)
     else zero).
Proof.
  unfold mixerInit, mixerInitSwash.
  destruct (negb (swash_phase _ =? 0)); destruct (negb (swash_ring _ =? 0));
    split; reflexivity.
Qed.

(** X12. With the swash phase and the swash ring both configured as 0,
    [mixerInit] stores a zero sine and a zero limit, and on every state
    holding these [mixerCyclicLimit] passes all inputs and saturation
    counters through unchanged: it only records the cyclic deflection. *)
Theorem swash_off (cfg : config) (st0 : mixer) :
  swash_phase (mixerConfig cfg) = 0 ->
  swash_ring (mixerConfig cfg) = 0 ->
  (phaseSin (mixerInit cfg st0) = zero /\ cyclicLimit (mixerInit cfg st0) = zero) /\
  forall st,
    phaseSin st = zero -> cyclicLimit st = zero ->
    mixerCyclicLimit cfg st =
    with_cyclicTotal
      (sqrtf (add (sq (mixInput st !!! MIXER_IN_STABILIZED_ROLL))
                  (sq (mixInput st !!! MIXER_IN_STABILIZED_PITCH)))) st.
Proof.
  intros Hp Hr. split.
  - destruct (mixerInit_swash cfg st0) as [Hs Hl].
    rewrite Hs, Hl, Hp, Hr. split; reflexivity.
  - intros st Hs Hl. unfold mixerCyclicLimit, swashPhasing, swashRing.
    rewrite Hs. change (ne zero zero) with false. cbv iota. cbv zeta.
    rewrite Hl. change (gt zero zero) with false. cbv iota. reflexivity.
Qed.

(** X13. For every 8-bit swash ring setting, [mixerInit] enables the ring
    limit (stores a limit above 0) exactly when the setting is not 0. *)
Theorem ring_enabled (cfg : config) (st : mixer) :
  0 <= swash_ring (mixerConfig cfg) < 256 ->
  gt (cyclicLimit (mixerInit cfg st)) zero =
  negb (swash_ring (mixerConfig cfg) =? 0).
Proof.
  intros Hr. destruct (mixerInit_swash cfg st) as [_ ->].
  assert (Hall : forall_below 256
            (fun c => (c =? 0) ||
                      gt (sub f1_41 (mul (of_int c) f0_0041)) zero) = true)
    by (vm_compute; reflexivity).
  pose proof (F32Facts.forall_below_spec _ _ Hall (swash_ring (mixerConfig cfg))) as Hp.
  cbv beta in Hp.
  destruct (swash_ring (mixerConfig cfg) =? 0) eqn:Hz; simpl.
  - reflexivity.
  - assert (Hin : 0 <= swash_ring (mixerConfig cfg) < Z.of_nat 256) by lia.
    specialize (Hp Hin). cbv beta in Hp.
    apply orb_true_iff in Hp as [Hp|Hp]; [congruence|exact Hp].
Qed.

(** X14. The total cyclic deflection that [mixerCyclicLimit] records is
    never negative: unless it is a NaN, it is at least 0. *)
Theorem cyclicTotal_nonneg (cfg : config) (st : mixer) :
  let total := getCyclicDeflection (mixerCyclicLimit cfg st) in
  is_nan total = false -> le zero total = true.
Proof.
  intros total. subst total. unfold getCyclicDeflection, mixerCyclicLimit.
  cbv zeta. simpl cyclicTotal. apply F32Facts.sqrtf_nonneg.
Qed.

End SwashFacts.

Section TailFacts.
Context `{Header}.

Lemma slowSpoolup_stopped (e : env) (st : mixer) (t : float) :
  spooledUp e = false ->
  lt (mixInput st !!! MIXER_IN_STABILIZED_THROTTLE) f0_01 = true ->
  slowSpoolup e st t = zero.
Proof. intros Hs Hl. unfold slowSpoolup. rewrite Hs, Hl. reflexivity. Qed.

(** X15. Motorized tail, main rotor spooled up, idle throttle not a NaN:
    whatever the yaw demand (a NaN included), the tail motor throttle
    stored in the yaw input is not a NaN and is at least the idle
    throttle. *)
Theorem tail_idle_floor (e : env) (cfg : config) (st : mixer) :
  mixerIsTailMode cfg TAIL_MODE_MOTORIZED = true ->
  spooledUp e = true ->
  is_nan (tailMotorIdle st) = false ->
  (MIXER_IN_STABILIZED_YAW < length (mixInput st))%nat ->
  let throttle :=
    mixInput (mixerUpdateMotorizedTail e cfg st) !!! MIXER_IN_STABILIZED_YAW in
  is_nan throttle = false /\ le (tailMotorIdle st) throttle = true.
Proof.
  intros Hm Hs Hn Hlen throttle. subst throttle.
  unfold mixerUpdateMotorizedTail. rewrite Hm. cbv zeta.
  rewrite slowSpoolup_spooled by exact Hs. simpl mixInput.
  rewrite list_lookup_total_insert_eq by exact Hlen.
  apply F32More.fmaxf_floor. exact Hn.
Qed.

(** X16. Bidirectional tail, main rotor spooled up, a well-formed idle
    throttle and a direction memory of -1 or +1: for every yaw demand that
    is not a NaN the stored throttle is outside the dead band, at most
    -idle or at least +idle, and the direction memory is again -1 or +1. *)
Theorem bidirectional_dead_band (e : env) (cfg : config) (st : mixer) :
  mixerIsTailMode cfg TAIL_MODE_MOTORIZED = false ->
  mixerIsTailMode cfg TAIL_MODE_BIDIRECTIONAL = true ->
  spooledUp e = true ->
  valid_binary prec emax (tailMotorIdle st) = true ->
  is_nan (tailMotorIdle st) = false ->
  tailMotorDirection st = 1 \/ tailMotorDirection st = -1 ->
  is_nan (mixInput st !!! MIXER_IN_STABILIZED_YAW) = false ->
  (MIXER_IN_STABILIZED_YAW < length (mixInput st))%nat ->
  let st' := mixerUpdateMotorizedTail e cfg st in
  let throttle := mixInput st' !!! MIXER_IN_STABILIZED_YAW in
  (le throttle (neg (tailMotorIdle st)) = true \/
   le (tailMotorIdle st) throttle = true) /\
  (tailMotorDirection st' = 1 \/ tailMotorDirection st' = -1).
Proof.
  intros Hm Hb Hs Hv Hn Hd Hy Hlen st' throttle. subst throttle st'.
  unfold mixerUpdateMotorizedTail. rewrite Hm, Hb. cbv zeta.
  rewrite slowSpoolup_spooled by exact Hs. simpl.
  rewrite list_lookup_total_insert_eq by exact Hlen.
  split; [|destruct (lt _ zero); auto].
  pose proof (F32More.signed_sqrt_not_nan _ Hy) as Hc.
  set (c := copysignf (sqrtf (fabsf (mixInput st !!! MIXER_IN_STABILIZED_YAW)))
              (mixInput st !!! MIXER_IN_STABILIZED_YAW)) in *.
  assert (Hnn : is_nan (neg (tailMotorIdle st)) = false)
    by (rewrite F32More.neg_not_nan; exact Hn).
  destruct (gt c (neg (tailMotorIdle st))) eqn:Hg; simpl.
  - destruct (lt c (tailMotorIdle st)) eqn:Hl.
    + destruct Hd as [-> | ->].
      * right. change (of_int 1) with one.
        rewrite F32Facts.mul_one_l by exact Hv. apply F32Facts.le_refl. exact Hn.
      * left. rewrite F32More.mul_neg_one_l by exact Hv.
        apply F32Facts.le_refl. exact Hnn.
    + right. apply F32Facts.not_lt_le; assumption.
  - left. apply F32Facts.not_lt_le; assumption.
Qed.

(** X17. In either tail motor mode, while the main rotor is not spooled up
    and the main throttle is below 0.01, the tail motor throttle is 0
    whatever the yaw demand and the idle throttle; the bidirectional mode
    then also resets its direction memory to +1. *)
Theorem tail_stopped (e : env) (cfg : config) (st : mixer) :
  mixerIsTailMode cfg TAIL_MODE_MOTORIZED = true \/
  mixerIsTailMode cfg TAIL_MODE_BIDIRECTIONAL = true ->
  spooledUp e = false ->
  lt (mixInput st !!! MIXER_IN_STABILIZED_THROTTLE) f0_01 = true ->
  (MIXER_IN_STABILIZED_YAW < length (mixInput st))%nat ->
  let st' := mixerUpdateMotorizedTail e cfg st in
  mixInput st' !!! MIXER_IN_STABILIZED_YAW = zero /\
  (mixerIsTailMode cfg TAIL_MODE_MOTORIZED = false -> tailMotorDirection st' = 1).
Proof.
  intros Hmode Hs Hl Hlen st'. subst st'.
  unfold mixerUpdateMotorizedTail.
  destruct (mixerIsTailMode cfg TAIL_MODE_MOTORIZED) eqn:Hm.
  - cbv zeta. rewrite slowSpoolup_stopped by assumption. simpl.
    rewrite list_lookup_total_insert_eq by exact Hlen.
    split; [reflexivity|discriminate].
  - destruct Hmode as [Hmode|Hb]; [discriminate|]. rewrite Hb. cbv zeta.
    rewrite slowSpoolup_stopped by assumption. simpl.
    rewrite list_lookup_total_insert_eq by exact Hlen.
    split; reflexivity.
Qed.

End TailFacts.

(** ** The inputs at the end of a tick *)

Section TickFacts.
Context `{Header} `{Firmware}.

Lemma mixerSetInput_length (e : env) (cfg : config) (i : nat) (v : float) (st : mixer) :
  length (mixInput (mixerSetInput e cfg i v st)) = length (mixInput st).
Proof. unfold mixerSetInput. by_cases_refl. Qed.

Lemma setInputs_length (e : env) (cfg : config) (base : nat) (f : nat -> float)
    (l : list nat) :
  forall st,
    length (mixInput (fold_left (fun st i => mixerSetInput e cfg (base + i) (f i) st) l st)) =
    length (mixInput st).
Proof.
  induction l as [|j l IH]; intros st; simpl; [reflexivity|].
  rewrite IH. apply mixerSetInput_length.
Qed.

Lemma decaySaturation_mixInput (st : mixer) :
  mixInput (decaySaturation st) = mixInput st.
Proof.
  unfold decaySaturation. generalize (seq 0 MIXER_INPUT_COUNT). intros l.
  revert st. induction l as [|j l IH]; intros st; simpl; [reflexivity|].
  rewrite IH. destruct (negb _); reflexivity.
Qed.

Lemma mixerCyclicLimit_length (cfg : config) (st : mixer) :
  length (mixInput (mixerCyclicLimit cfg st)) = length (mixInput st).
Proof.
  unfold mixerCyclicLimit, swashRing, swashPhasing, mixerSaturateInput.
  by_cases_refl.
Qed.

Lemma mixerUpdateMotorizedTail_other (e : env) (cfg : config) (st : mixer) (j : nat) :
  j <> MIXER_IN_STABILIZED_YAW ->
  mixInput (mixerUpdateMotorizedTail e cfg st) !!! j = mixInput st !!! j.
Proof.
  intros Hj. unfold mixerUpdateMotorizedTail.
  destruct (mixerIsTailMode cfg TAIL_MODE_MOTORIZED);
    [|destruct (mixerIsTailMode cfg TAIL_MODE_BIDIRECTIONAL)]; simpl;
    rewrite ?list_lookup_total_insert_ne by auto; reflexivity.
Qed.

Lemma mixerUpdate_inputs (e : env) (cfg : config) (st : mixer) :
  mixInput (mixerUpdate e cfg st) = mixInput st.
Proof.
  unfold mixerUpdate. rewrite mixerApplyRules_mixInput.
  destruct (reset_loop (seq 0 MIXER_OUTPUT_COUNT) st) as [Hin _]. exact Hin.
Qed.

Lemma clampSpec_within (lo hi v : float) :
  le lo hi = true -> is_nan v = false -> within lo hi (clampSpec lo hi v) = true.
Proof.
  intros Hord Hn. destruct (F32Facts.le_not_nan _ _ Hord) as [Hn1 Hn2].
  unfold clampSpec, within.
  destruct (gt v hi) eqn:Hg; [|destruct (lt v lo) eqn:Hl].
  - rewrite Hord, F32Facts.le_refl; auto.
  - rewrite Hord, F32Facts.le_refl; auto.
  - rewrite (F32Facts.not_lt_le _ _ Hn Hn1 Hl), (F32Facts.not_lt_le _ _ Hn2 Hn Hg).
    reflexivity.
Qed.

(** X18. At the end of a tick the stabilised throttle input is within its
    configured limits, whatever the pilot commands, the PID sums and the
    tail mode, as long as the governor's output is not a NaN and the
    limits are in order: the throttle is the last input set, and the tail
    motor code after it only writes the yaw input. *)
Theorem tick_throttle_within_limits (e : env) (cfg : config) (x : producers)
    (st : mixer) :
  (MIXER_IN_STABILIZED_THROTTLE < length (mixInput st))%nat ->
  MIXER_IN_STABILIZED_YAW <> MIXER_IN_STABILIZED_THROTTLE ->
  -32768 <= min (mixerInputs cfg !!! MIXER_IN_STABILIZED_THROTTLE) ->
  min (mixerInputs cfg !!! MIXER_IN_STABILIZED_THROTTLE) <=
    max (mixerInputs cfg !!! MIXER_IN_STABILIZED_THROTTLE) ->
  max (mixerInputs cfg !!! MIXER_IN_STABILIZED_THROTTLE) <= 32767 ->
  (forall s, is_nan (getGovernorOutput x s) = false) ->
  within (div (of_int (min (mixerInputs cfg !!! MIXER_IN_STABILIZED_THROTTLE))) f1000)
         (div (of_int (max (mixerInputs cfg !!! MIXER_IN_STABILIZED_THROTTLE))) f1000)
         (mixInput (mixerUpdateTick e cfg x st) !!! MIXER_IN_STABILIZED_THROTTLE) = true.
Proof.
  intros Hlen Hne Hlo Hle Hhi Hgov.
  unfold mixerUpdateTick. rewrite mixerUpdate_inputs.
  unfold mixerUpdateInputs. cbv zeta.
  match goal with
  | |- context [mixerSetInput e cfg MIXER_IN_STABILIZED_THROTTLE (getGovernorOutput x ?s) ?s] =>
      set (before := s)
  end.
  assert (Hb : (MIXER_IN_STABILIZED_THROTTLE < length (mixInput before))%nat).
  { subst before. rewrite mixerSetInput_length, mixerCyclicLimit_length.
    assert (Hc : forall s,
               length (mixInput
                 (if negb (FLIGHT_MODE e PASSTHRU_MODE)
                  then mixerSetInput e cfg MIXER_IN_STABILIZED_PITCH (getPidSum x FD_PITCH)
                         (mixerSetInput e cfg MIXER_IN_STABILIZED_ROLL (getPidSum x FD_ROLL) s)
                  else mixerSetInput e cfg MIXER_IN_STABILIZED_PITCH
                         (mul (rcCommand x !!! PITCH) MIXER_RC_SCALING)
                         (mixerSetInput e cfg MIXER_IN_STABILIZED_ROLL
                            (mul (rcCommand x !!! ROLL) MIXER_RC_SCALING) s))) =
               length (mixInput s))
      by (intros s; destruct (negb _); rewrite !mixerSetInput_length; reflexivity).
    rewrite Hc, mixerSetInput_length, setInputs_length, !mixerSetInput_length,
      decaySaturation_mixInput.
    exact Hlen. }
  assert (Hset : within
            (div (of_int (min (mixerInputs cfg !!! MIXER_IN_STABILIZED_THROTTLE))) f1000)
            (div (of_int (max (mixerInputs cfg !!! MIXER_IN_STABILIZED_THROTTLE))) f1000)
            (mixInput (mixerSetInput e cfg MIXER_IN_STABILIZED_THROTTLE
                         (getGovernorOutput x before) before)
               !!! MIXER_IN_STABILIZED_THROTTLE) = true).
  { rewrite mixerSetInput_stored by exact Hb.
    apply clampSpec_within.
    - apply F32Facts.int16_limits_ordered; assumption.
    - apply overrideValue_not_nan. apply Hgov. }
  destruct (mixerMotorizedTail (mixerConfig cfg)); [|exact Hset].
  rewrite mixerUpdateMotorizedTail_other by auto. exact Hset.
Qed.

End TickFacts.

(** ** The bidirectional tail from tick to tick *)

Section TailTick.
Context `{Header} `{Firmware}.

Lemma decaySaturation_direction (st : mixer) :
  tailMotorDirection (decaySaturation st) = tailMotorDirection st.
Proof.
  unfold decaySaturation. generalize (seq 0 MIXER_INPUT_COUNT). intros l.
  revert st. induction l as [|j l IH]; intros st; simpl; [reflexivity|].
  rewrite IH. destruct (negb _); reflexivity.
Qed.

Lemma setInputs_direction (e : env) (cfg : config) (base : nat) (f : nat -> float)
    (l : list nat) :
  forall st,
    tailMotorDirection
      (fold_left (fun st i => mixerSetInput e cfg (base + i) (f i) st) l st) =
    tailMotorDirection st.
Proof.
  induction l as [|j l IH]; intros st; simpl; [reflexivity|].
  rewrite IH. apply mixerSetInput_direction.
Qed.

Lemma mixerSetInput_other (e : env) (cfg : config) (index : nat) (v : float)
    (st : mixer) (j : nat) :
  j <> index ->
  mixInput (mixerSetInput e cfg index v st) !!! j = mixInput st !!! j.
Proof.
  intros Hj. unfold mixerSetInput.
  destruct (gt _ _); [|destruct (lt _ _)]; simpl;
    rewrite list_lookup_total_insert_ne by auto; reflexivity.
Qed.

Lemma overrideValue_overrides (e : env) (st st2 : mixer) (index : nat) (v : float) :
  mixOverride st2 = mixOverride st ->
  overrideValue e st2 index v = overrideValue e st index v.
Proof. intros Ho. unfold overrideValue. rewrite Ho. reflexivity. Qed.

(** The inputs part of a tick, up to the motorized tail: the state the
    tail code receives holds the direction memory and the idle throttle
    of the state the tick started from, and as yaw demand the constrained
    [mixerRotationSign() * getPidSum(FD_YAW)]. *)
Lemma mixerUpdateInputs_before_tail (e : env) (cfg : config) (x : producers)
    (s : mixer) :
  exists pre,
    mixerUpdateInputs e cfg x s =
      (if mixerMotorizedTail (mixerConfig cfg)
       then mixerUpdateMotorizedTail e cfg pre else pre) /\
    tailMotorDirection pre = tailMotorDirection s /\
    tailMotorIdle pre = tailMotorIdle s /\
    length (mixInput pre) = length (mixInput s) /\
    (MIXER_IN_STABILIZED_YAW <> MIXER_IN_STABILIZED_THROTTLE ->
     (MIXER_IN_STABILIZED_YAW < length (mixInput s))%nat ->
     mixInput pre !!! MIXER_IN_STABILIZED_YAW =
     clampSpec
       (div (of_int (min (mixerInputs cfg !!! MIXER_IN_STABILIZED_YAW))) f1000)
       (div (of_int (max (mixerInputs cfg !!! MIXER_IN_STABILIZED_YAW))) f1000)
       (overrideValue e s MIXER_IN_STABILIZED_YAW
          (mul (mixerRotationSign (mixerConfig cfg)) (getPidSum x FD_YAW)))).
Proof.
  unfold mixerUpdateInputs. cbv zeta.
  match goal with
  | |- context [mixerSetInput e cfg MIXER_IN_STABILIZED_YAW ?v ?b] =>
      set (yawValue := v); set (before := b)
  end.
  match goal with
  | |- context [if mixerMotorizedTail (mixerConfig cfg)
                then mixerUpdateMotorizedTail e cfg ?p else ?p] => exists p
  end.
  assert (Hcyc : forall t,
             (if negb (FLIGHT_MODE e PASSTHRU_MODE)
              then mixerSetInput e cfg MIXER_IN_STABILIZED_PITCH (getPidSum x FD_PITCH)
                     (mixerSetInput e cfg MIXER_IN_STABILIZED_ROLL (getPidSum x FD_ROLL) t)
              else mixerSetInput e cfg MIXER_IN_STABILIZED_PITCH
                     (mul (rcCommand x !!! PITCH) MIXER_RC_SCALING)
                     (mixerSetInput e cfg MIXER_IN_STABILIZED_ROLL
                        (mul (rcCommand x !!! ROLL) MIXER_RC_SCALING) t)) =
             mixerSetInput e cfg MIXER_IN_STABILIZED_PITCH
               (if negb (FLIGHT_MODE e PASSTHRU_MODE)
                then getPidSum x FD_PITCH
                else mul (rcCommand x !!! PITCH) MIXER_RC_SCALING)
               (mixerSetInput e cfg MIXER_IN_STABILIZED_ROLL
                  (if negb (FLIGHT_MODE e PASSTHRU_MODE)
                   then getPidSum x FD_ROLL
                   else mul (rcCommand x !!! ROLL) MIXER_RC_SCALING) t))
    by (intros t; destruct (negb _); reflexivity).
  assert (Hdir : tailMotorDirection before = tailMotorDirection s).
  { subst before. rewrite Hcyc, mixerCyclicLimit_direction.
    rewrite !mixerSetInput_direction, setInputs_direction.
    rewrite !mixerSetInput_direction. apply decaySaturation_direction. }
  assert (Hload : loaded before = loaded s).
  { subst before. rewrite Hcyc, mixerCyclicLimit_loaded.
    rewrite !mixerSetInput_loaded, setInputs_loaded.
    rewrite !mixerSetInput_loaded. apply decaySaturation_loaded. }
  assert (Hlen : length (mixInput before) = length (mixInput s)).
  { subst before. rewrite Hcyc, mixerCyclicLimit_length.
    rewrite !mixerSetInput_length, setInputs_length.
    rewrite !mixerSetInput_length, decaySaturation_mixInput. reflexivity. }
  unfold loaded in Hload. injection Hload. intros _ _ _ Hidle Hov _.
  split; [reflexivity|].
  split; [rewrite !mixerSetInput_direction; exact Hdir|].
  split.
  { pose proof (mixerSetInput_loaded e cfg MIXER_IN_STABILIZED_THROTTLE
                  (getGovernorOutput x
                     (mixerSetInput e cfg MIXER_IN_STABILIZED_YAW yawValue before))
                  (mixerSetInput e cfg MIXER_IN_STABILIZED_YAW yawValue before)) as H1.
    pose proof (mixerSetInput_loaded e cfg MIXER_IN_STABILIZED_YAW yawValue before) as H2.
    unfold loaded in H1, H2. injection H1. injection H2. intros. congruence. }
  split; [rewrite !mixerSetInput_length; exact Hlen|].
  intros Hne Hy.
  rewrite mixerSetInput_other by exact Hne.
  rewrite mixerSetInput_stored by (rewrite Hlen; exact Hy).
  rewrite (overrideValue_overrides e s before) by exact Hov.
  reflexivity.
Qed.

(** C7 (as amended). In bidirectional mode the computed throttle is
    [copysignf(sqrtf(|yaw|), yaw)]; when it lies strictly between [-idle]
    and [idle] it is replaced by [tailMotorDirection * idle]; the
    spool-up gating follows; the result is stored in the yaw slot, and
    the direction memory becomes -1 if that final throttle is negative and
    +1 otherwise (so also when it is zero). The memory is kept by the
    other operations of a tick, and from tick to tick: in every tick the
    tail code receives the direction memory and the idle throttle of the
    state the tick started from, and what it leaves is what the tick
    ends with. Spooled up, with a valid idle above zero and a stored
    direction of +1, a yaw of zero yields [+idle]. *)
Theorem bidirectional_tail (e : env) (cfg : config) (st : mixer) :
  mixerIsTailMode cfg TAIL_MODE_MOTORIZED = false ->
  mixerIsTailMode cfg TAIL_MODE_BIDIRECTIONAL = true ->
  (MIXER_IN_STABILIZED_YAW < length (mixInput st))%nat ->
  let yaw := mixInput st !!! MIXER_IN_STABILIZED_YAW in
  let idle := tailMotorIdle st in
  let computed := copysignf (sqrtf (fabsf yaw)) yaw in
  let snapped :=
    if gt computed (neg idle) && lt computed idle
    then mul (of_int (tailMotorDirection st)) idle
    else computed in
  let throttle := slowSpoolup e st snapped in
  let st' := mixerUpdateMotorizedTail e cfg st in
  mixInput st' !!! MIXER_IN_STABILIZED_YAW = throttle /\
  tailMotorDirection st' = (if lt throttle zero then -1 else 1) /\
  (forall e' c i v,
     tailMotorDirection (mixerSetInput e' c i v st') = tailMotorDirection st' /\
     tailMotorDirection (mixerCyclicLimit c st') = tailMotorDirection st' /\
     tailMotorDirection (mixerUpdate e' c st') = tailMotorDirection st') /\
  (forall e' c x s,
     exists pre,
       mixerUpdateInputs e' c x s =
         (if mixerMotorizedTail (mixerConfig c)
          then mixerUpdateMotorizedTail e' c pre else pre) /\
       tailMotorDirection pre = tailMotorDirection s /\
       tailMotorIdle pre = tailMotorIdle s /\
       length (mixInput pre) = length (mixInput s) /\
       (MIXER_IN_STABILIZED_YAW <> MIXER_IN_STABILIZED_THROTTLE ->
        (MIXER_IN_STABILIZED_YAW < length (mixInput s))%nat ->
        mixInput pre !!! MIXER_IN_STABILIZED_YAW =
        clampSpec
          (div (of_int (min (mixerInputs c !!! MIXER_IN_STABILIZED_YAW))) f1000)
          (div (of_int (max (mixerInputs c !!! MIXER_IN_STABILIZED_YAW))) f1000)
          (overrideValue e' s MIXER_IN_STABILIZED_YAW
             (mul (mixerRotationSign (mixerConfig c)) (getPidSum x FD_YAW)))) /\
       tailMotorDirection (mixerUpdateTick e' c x s) =
         tailMotorDirection (mixerUpdateInputs e' c x s) /\
       mixInput (mixerUpdateTick e' c x s) = mixInput (mixerUpdateInputs e' c x s) /\
       (mixerMotorizedTail (mixerConfig c) = false ->
        tailMotorDirection (mixerUpdateTick e' c x s) = tailMotorDirection s)) /\
  (spooledUp e = true -> eq yaw zero = true -> tailMotorDirection st = 1 ->
   lt zero idle = true -> valid_binary prec emax idle = true ->
   throttle = idle).
Proof.
  intros Hm Hb Hy yaw idle computed snapped throttle st'.
  assert (Hst' : st' =
            with_mixInput
              (<[MIXER_IN_STABILIZED_YAW := throttle]> (mixInput st))
              (with_tailMotorDirection (if lt throttle zero then -1 else 1) st)).
  { subst st'. unfold mixerUpdateMotorizedTail. rewrite Hm, Hb. reflexivity. }
  split; [|split; [|split; [|split]]].
  - rewrite Hst'. simpl. apply list_lookup_total_insert_eq. exact Hy.
  - rewrite Hst'. reflexivity.
  - intros e' c i v.
    rewrite mixerSetInput_direction, mixerCyclicLimit_direction,
      mixerUpdate_direction. auto.
  - intros e' c x s.
    destruct (mixerUpdateInputs_before_tail e' c x s)
      as (pre & Heq & Hdir & Hidle & Hlen & Hyaw).
    exists pre. repeat apply conj; try assumption.
    + unfold mixerUpdateTick. apply mixerUpdate_direction.
    + unfold mixerUpdateTick. apply mixerUpdate_inputs.
    + intros Hoff. unfold mixerUpdateTick.
      rewrite mixerUpdate_direction, Heq, Hoff. exact Hdir.
  - intros Hs Hz Hd Hi Hv.
    subst throttle. rewrite slowSpoolup_spooled by exact Hs.
    subst snapped. rewrite Hd.
    destruct (F32Facts.eq_zero_inv yaw Hz) as [sg Hyaw].
    assert (Hc : computed = S754_zero sg).
    { subst computed. rewrite Hyaw. destruct sg; reflexivity. }
    rewrite Hc.
    destruct (F32Facts.lt_zero_signed sg idle Hi) as [Hlo Hhi].
    unfold gt, lt in *. rewrite Hhi, Hlo. simpl.
    apply F32Facts.mul_one_l. exact Hv.
Qed.

End TailTick.

Section TailTickRuns.
Import Sample SampleTick.

(** A run of C7: after a tick that left the direction at +1, a yaw of
    zero while flying yields the idle, 0.1. And over two whole ticks: the
    first leaves a negative throttle and the direction at -1; the second,
    with no yaw demand, hands that -1 to the tail code, which snaps to
    -0.1. *)
Lemma bidirectional_tail_witness :
  let st := yaw_at flying bidir zero (lit 1 2) tick2 in
  let st' := mixerUpdateMotorizedTail flying bidir st in
  (tailMotorDirection st = 1 /\
   mixInput st' !!! MIXER_IN_STABILIZED_YAW = lit 1 10 /\
   tailMotorDirection st' = 1) /\
  (tailMotorDirection bidirTick1 = -1 /\
   (exists pre,
      mixerUpdateInputs flying bidir centred bidirTick1 =
        mixerUpdateMotorizedTail flying bidir pre /\
      tailMotorDirection pre = -1 /\
      tailMotorIdle pre = lit 1 10) /\
   mixInput bidirTick2 !!! MIXER_IN_STABILIZED_YAW = neg (lit 1 10) /\
   tailMotorDirection bidirTick2 = -1).
Proof.
  intros st st'.
  destruct (bidirectional_tail flying bidir st) as (Hyaw & Hdir & _ & Hticks & Hidle).
  - reflexivity.
  - reflexivity.
  - vm_compute. lia.
  - assert (Hthr : slowSpoolup flying st
                     (if gt (copysignf (sqrtf (fabsf (mixInput st !!! MIXER_IN_STABILIZED_YAW)))
                               (mixInput st !!! MIXER_IN_STABILIZED_YAW))
                            (neg (tailMotorIdle st)) &&
                         lt (copysignf (sqrtf (fabsf (mixInput st !!! MIXER_IN_STABILIZED_YAW)))
                               (mixInput st !!! MIXER_IN_STABILIZED_YAW))
                            (tailMotorIdle st)
                      then mul (of_int (tailMotorDirection st)) (tailMotorIdle st)
                      else copysignf (sqrtf (fabsf (mixInput st !!! MIXER_IN_STABILIZED_YAW)))
                             (mixInput st !!! MIXER_IN_STABILIZED_YAW)) = lit 1 10).
    { rewrite Hidle; vm_compute; reflexivity. }
    split.
    + split; [vm_compute; reflexivity|]. split.
      * fold st' in Hyaw. rewrite Hyaw. exact Hthr.
      * fold st' in Hdir. rewrite Hdir, Hthr. vm_compute. reflexivity.
    + destruct (Hticks flying bidir centred bidirTick1)
        as (pre & Heq & Hpd & Hpi & _ & _ & Htd & Hti & _).
      split; [vm_compute; reflexivity|]. split.
      * exists pre. split; [exact Heq|]. split.
        -- rewrite Hpd. vm_compute. reflexivity.
        -- rewrite Hpi. vm_compute. reflexivity.
      * split; vm_compute; reflexivity.
Defined.

End TailTickRuns.

(** ** Runs of the properties above on the concrete build *)

Section MoreRuns.
Import Sample SampleTick.

(** Three decay passes after saturating the roll input leave 2 of 5. *)
Lemma saturation_decay_witness :
  let st' := Nat.iter 3 decaySaturation
               (mixerSaturateInput 1 (booted (cfg 0 0 0 0))) in
  mixSaturated st' !!! 1%nat = 2 /\ (mixerSaturated 1 st' = true <-> 3 < 5).
Proof.
  intros st'.
  destruct (saturation_decay 1 (booted (cfg 0 0 0 0)) 3) as [Hv Hs].
  - reflexivity.
  - vm_compute. lia.
  - vm_compute. split; reflexivity.
  - exact (conj (eq_trans Hv eq_refl) Hs).
Defined.

(** A tick that clamps the roll demand fills the roll counter. *)
Lemma tick_counters_witness :
  let st := booted (cfg 0 0 0 0) in
  let new := mixSaturated (mixerUpdateInputs flying (cfg 0 0 0 0) hard_roll st) !!! 1%nat in
  (new = 5 \/ new = decayed (mixSaturated st !!! 1%nat)) /\ 0 <= new <= 5.
Proof.
  intros st new.
  destruct (tick_counters flying (cfg 0 0 0 0) hard_roll st 1) as (Hn & Hr & _).
  - reflexivity.
  - vm_compute. lia.
  - vm_compute. split; [discriminate|reflexivity].
  - split; [exact Hn|].
    apply Hr. vm_compute. split; discriminate.
Defined.

(** Running the outputs part twice gives the same outputs, and servo 5,
    which no rule of [targetConfiguration] writes, is 0. *)
Lemma outputs_recomputed_witness :
  let c := cfg 0 0 0 0 in
  let st2 := mixerUpdate flying c half_roll in
  mixOutput (mixerUpdate flying c st2) = mixOutput (mixerUpdate flying c half_roll) /\
  mixOutput (mixerUpdate flying c half_roll) !!! 5%nat = zero.
Proof.
  intros c st2.
  destruct (outputs_recomputed flying c half_roll st2) as (Ho & _ & Hz).
  - vm_compute. reflexivity.
  - vm_compute. reflexivity.
  - vm_compute. reflexivity.
  - vm_compute. reflexivity.
  - vm_compute. reflexivity.
  - vm_compute. reflexivity.
  - split; [exact Ho|].
    destruct (Hz 5%nat) as [Hv _]; [vm_compute; lia| |exact Hv].
    set (table := firstn MIXER_RULE_COUNT (rules half_roll)).
    vm_compute in table. subst table.
    repeat (constructor;
            [first [left; vm_compute; reflexivity | right; vm_compute; discriminate]|]).
    constructor.
Defined.

(** Servo 1 after a tick: its contributor bit 1 comes from a rule of the
    table that reads input 1 and writes output 1. *)
Lemma contributors_sound_witness :
  let c := cfg 0 0 0 0 in
  exists i, 1 = Z.of_nat i /\
    exists r, r ∈ firstn MIXER_RULE_COUNT (rules (booted c)) /\
              ruleApplies (flightModeMask flying) r = true /\
              Z.to_nat (output r) = 1%nat /\ Z.to_nat (input r) = i.
Proof.
  intros c.
  destruct (contributors_sound flying c (booted c) 1) as (Hbits & _).
  - reflexivity.
  - reflexivity.
  - vm_compute. lia.
  - apply (Hbits 1). reflexivity.
Defined.

(** The corrupted rule 1 is stored as operator 3, input 28, output 12,
    offset 2500 and weight -10000. *)
Lemma init_rules_in_domain_witness :
  rules (mixerInit wild_cfg mixer_zero) !! 1%nat =
    Some {| mode := 0; oper := 3; input := 28; output := 12;
            offset := 2500; weight := -10000 |} /\
  Forall rule_in_domain (rules (mixerInit wild_cfg mixer_zero)).
Proof.
  assert (Hfit : header_fits).
  { unfold header_fits. simpl. lia. }
  assert (Hz : Forall rule_in_domain (rules mixer_zero)).
  { change (Forall rule_in_domain (replicate MIXER_RULE_COUNT inhabitant)).
    apply Forall_replicate. unfold rule_in_domain. simpl. lia. }
  destruct (init_rules_in_domain wild_cfg mixer_zero Hfit Hz) as (_ & Hdom & Hset & _).
  split; [|exact Hdom].
  refine (eq_trans (Hset 1%nat _ _ _) eq_refl).
  - vm_compute. lia.
  - vm_compute. lia.
  - vm_compute. discriminate.
Defined.

(** An override of 100 set on the yaw input before [mixerInit] is gone
    after it. *)
Lemma init_disables_overrides_witness :
  let st := mixerSetOverride 3 100 mixer_zero in
  mixOverride st !!! 3%nat = 100 /\
  mixOverride (mixerInit (cfg 0 0 0 0) st) !!! 3%nat = 2501 /\
  overrideValue bench (mixerInit (cfg 0 0 0 0) st) 3 (lit 1 4) = lit 1 4.
Proof.
  intros st.
  destruct (init_disables_overrides (cfg 0 0 0 0) st 3) as (Hoff & Hraw & _).
  - reflexivity.
  - vm_compute. lia.
  - vm_compute. split; [reflexivity|discriminate].
  - vm_compute. discriminate.
  - exact (conj eq_refl (conj Hoff (Hraw bench (lit 1 4)))).
Defined.

(** Setting the roll input leaves the pitch input alone. *)
Lemma setInput_frame_witness :
  let st := half_roll in
  let st' := mixerSetInput flying (cfg 0 0 0 0) 1 (of_int 2) st in
  mixInput st' !!! 2%nat = lit 1 4 /\ mixSaturated st' !!! 2%nat = 0.
Proof.
  intros st st'.
  destruct (setInput_frame flying (cfg 0 0 0 0) 1 (of_int 2) st 2) as (Hv & Hs & _).
  - discriminate.
  - exact (conj (eq_trans Hv eq_refl) (eq_trans Hs eq_refl)).
Defined.

(** A roll demand of 2.0 is stored as 1.0; setting the input to 1.0 again
    changes nothing. *)
Lemma setInput_fixed_point_witness :
  let st' := mixerSetInput flying (cfg 0 0 0 0) 1 (of_int 2) (booted (cfg 0 0 0 0)) in
  mixerSetInput flying (cfg 0 0 0 0) 1 one st' = st'.
Proof.
  intros st'.
  refine (eq_trans eq_refl
            (setInput_fixed_point flying (cfg 0 0 0 0) 1 (of_int 2)
               (booted (cfg 0 0 0 0)) _ _ _ _)).
  - vm_compute. lia.
  - vm_compute. discriminate.
  - vm_compute. discriminate.
  - vm_compute. discriminate.
Defined.

(** The pitch input after the reset of 29 zeroed inputs, and input 0,
    which the reset skips. *)
Lemma pgReset_defaults_witness :
  pgResetFn_mixerInputs (replicate 29 inhabitant) !!! 2%nat =
    {| rate := 1000; min := -1000; max := 1000 |} /\
  pgResetFn_mixerInputs (replicate 29 inhabitant) !!! 0%nat =
    {| rate := 0; min := 0; max := 0 |}.
Proof.
  destruct (pgReset_defaults (replicate 29 inhabitant) 2) as (_ & Hset & _).
  - vm_compute. lia.
  - destruct Hset as [Hv _]; [vm_compute; lia|].
    destruct (pgReset_defaults (replicate 29 inhabitant) 0) as (_ & _ & Hkeep).
    + vm_compute. lia.
    + split; [exact Hv|].
      refine (eq_trans (Hkeep _) eq_refl). vm_compute. lia.
Defined.

(** Phase and ring at 0: roll 0.5 and pitch 0.25 pass through. *)
Lemma swash_off_witness :
  mixInput (mixerCyclicLimit (cfg 0 0 0 0) half_roll) = mixInput half_roll /\
  mixSaturated (mixerCyclicLimit (cfg 0 0 0 0) half_roll) = mixSaturated half_roll.
Proof.
  destruct (swash_off (cfg 0 0 0 0) mixer_zero) as (_ & Hpass).
  - reflexivity.
  - reflexivity.
  - rewrite (Hpass half_roll);
      [vm_compute; split; reflexivity|vm_compute; reflexivity|vm_compute; reflexivity].
Defined.

(** A ring setting of 100 enables the limit. *)
Lemma ring_enabled_witness :
  gt (cyclicLimit (booted (cfg 0 0 100 0))) zero = true.
Proof.
  refine (eq_trans (ring_enabled (cfg 0 0 100 0) mixer_zero _) eq_refl).
  vm_compute. split; [discriminate|reflexivity].
Defined.

(** The deflection of roll 0.5 and pitch 0.25 is not negative. *)
Lemma cyclicTotal_nonneg_witness :
  le zero (getCyclicDeflection (mixerCyclicLimit (cfg 0 0 0 0) half_roll)) = true.
Proof.
  apply (cyclicTotal_nonneg (cfg 0 0 0 0) half_roll). reflexivity.
Defined.

(** Motorized tail, idle 0.1, yaw -0.1: the throttle is at least the
    idle. *)
Lemma tail_idle_floor_witness :
  let st := yaw_at flying motorized (neg (lit 1 10)) (lit 1 2) (booted motorized) in
  le (tailMotorIdle st)
     (mixInput (mixerUpdateMotorizedTail flying motorized st) !!! 3%nat) = true.
Proof.
  intros st.
  destruct (tail_idle_floor flying motorized st) as [_ Hle].
  - reflexivity.
  - reflexivity.
  - vm_compute. reflexivity.
  - vm_compute. lia.
  - exact Hle.
Defined.

(** Bidirectional tail, idle 0.1, direction -1 left by a tick with yaw
    -0.5: yaw 0 is kept out of the dead band. *)
Lemma bidirectional_dead_band_witness :
  let st := yaw_at flying bidir zero (lit 1 2) tick1 in
  let st' := mixerUpdateMotorizedTail flying bidir st in
  (le (mixInput st' !!! MIXER_IN_STABILIZED_YAW) (neg (tailMotorIdle st)) = true \/
   le (tailMotorIdle st) (mixInput st' !!! MIXER_IN_STABILIZED_YAW) = true) /\
  (tailMotorDirection st' = 1 \/ tailMotorDirection st' = -1).
Proof.
  intros st st'.
  apply (bidirectional_dead_band flying bidir st).
  - reflexivity.
  - reflexivity.
  - reflexivity.
  - vm_compute. reflexivity.
  - vm_compute. reflexivity.
  - right. vm_compute. reflexivity.
  - vm_compute. reflexivity.
  - vm_compute. lia.
Defined.

(** Bidirectional tail, rotor stopped, yaw 0.5: the tail throttle is 0
    and the direction memory goes back to +1. *)
Lemma tail_stopped_witness :
  let st := yaw_at spooling bidir (lit 1 2) zero tick1 in
  let st' := mixerUpdateMotorizedTail spooling bidir st in
  tailMotorDirection st = -1 /\
  mixInput st' !!! 3%nat = zero /\ tailMotorDirection st' = 1.
Proof.
  intros st st'.
  destruct (tail_stopped spooling bidir st) as [Hz Hd].
  - right. reflexivity.
  - reflexivity.
  - vm_compute. reflexivity.
  - vm_compute. lia.
  - split; [vm_compute; reflexivity|]. exact (conj Hz (Hd eq_refl)).
Defined.

(** A tick with a governor output of 0.5 on a motorized tail. *)
Lemma tick_throttle_within_limits_witness :
  let limits := mixerInputs motorized !!! MIXER_IN_STABILIZED_THROTTLE in
  (min limits = -1000 /\ max limits = 1000) /\
  within (div (of_int (min limits)) f1000) (div (of_int (max limits)) f1000)
    (mixInput (mixerUpdateTick flying motorized hard_roll (booted motorized))
       !!! MIXER_IN_STABILIZED_THROTTLE) = true.
Proof.
  intros limits. split; [split; reflexivity|].
  apply (tick_throttle_within_limits flying motorized hard_roll (booted motorized)).
  - vm_compute. lia.
  - discriminate.
  - vm_compute. discriminate.
  - vm_compute. discriminate.
  - vm_compute. discriminate.
  - intros s. reflexivity.
Defined.

End MoreRuns.
